(** * libjuice: UDP socket creation, host-candidate gathering and logging

    A shallow embedding of [src/udp.c] and [src/log.c].

    The embedding follows the POSIX build that enumerates interfaces with
    [getifaddrs] (neither [_WIN32] nor [NO_IFADDRS] defined).  The
    compile-time switch [JUICE_ENABLE_ADDRS_LOCALHOST] is a boolean
    argument of [udp_get_addrs].

    Conventions.
    - Fixed-width C integers are [Z]; every place where the C code can wrap
      has the reduction written out.
    - Structs are records, the [sockaddr] family of structs is a tagged sum.
    - Calls into the operating system go through a state monad over
      [world]; what the system answers is read from an [os_env] oracle.
    - The output buffer of [udp_get_addrs] is a list with stdpp's lookup
      and insert; a store outside the list is a memory fault ([None]). *)

From Stdlib Require Import ZArith Lia Bool Ascii.
From stdpp Require Import base tactics option list gmap strings pretty.

Local Open Scope Z_scope.

(* ===================================================================== *)
(** * System constants (Linux values of the headers the code includes)    *)
(* ===================================================================== *)

Definition AF_INET : Z := 2.
Definition AF_INET6 : Z := 10.
Definition IFF_UP : Z := 0x1.
Definition IFF_LOOPBACK : Z := 0x8.
Definition EADDRINUSE : Z := 98.
Definition INVALID_SOCKET : Z := -1.

Definition sizeof_sockaddr_in : Z := 16.
Definition sizeof_sockaddr_in6 : Z := 28.
Definition sizeof_sockaddr_storage : Z := 128.

Definition to_uint16 (v : Z) : Z := v mod 65536.
Definition to_uint32 (v : Z) : Z := v mod 4294967296.

(** The conversion of an [int] to [unsigned int], as the usual arithmetic
    conversions apply it when the two are compared: 2^32 is added to a
    negative value.  (A number outside the range of [int], which no [int]
    holds, is left as it is.) *)
Definition INT_MIN : Z := -2147483648.
Definition int_to_uint32 (v : Z) : Z :=
  if (INT_MIN <=? v) && (v <? 0) then v + 4294967296 else v.

(* ===================================================================== *)
(** * Socket addresses                                                    *)
(* ===================================================================== *)

Module Addr.

(** [struct sockaddr_in].  [sin_port] is the port number; memory holds it
    in network byte order, which [sockaddr_bytes] below makes explicit. *)
Record sockaddr_in := {
  sin_port : Z;
  sin_addr : list Z;   (* 4 bytes *)
  sin_zero : list Z    (* 8 bytes of padding *)
}.

(** [struct sockaddr_in6]. *)
Record sockaddr_in6 := {
  sin6_port : Z;
  sin6_flowinfo : Z;
  sin6_addr : list Z;  (* 16 bytes *)
  sin6_scope_id : Z
}.

(** What a [struct sockaddr *] can point to. *)
Inductive sockaddr :=
| SockIn (sin : sockaddr_in)
| SockIn6 (sin6 : sockaddr_in6)
| SockOther (family : Z) (sa_data : list Z).

Definition sa_family (sa : sockaddr) : Z :=
  match sa with
  | SockIn _ => AF_INET
  | SockIn6 _ => AF_INET6
  | SockOther f _ => f
  end.

(** A [sockaddr] is well formed when its address bytes have the size of the
    C arrays and the generic form is not used for the two IP families. *)
Definition sa_wf (sa : sockaddr) : Prop :=
  match sa with
  | SockIn s => length (sin_addr s) = 4%nat /\ length (sin_zero s) = 8%nat
  | SockIn6 s => length (sin6_addr s) = 16%nat
  | SockOther f _ => f <> AF_INET /\ f <> AF_INET6
  end.

Definition u16_le (v : Z) : list Z := [v mod 256; (v / 256) mod 256].
Definition u16_be (v : Z) : list Z := [(v / 256) mod 256; v mod 256].
Definition u32_le (v : Z) : list Z :=
  [v mod 256; (v / 256) mod 256; (v / 65536) mod 256; (v / 16777216) mod 256].

(** The bytes of a socket address as they lie in memory (family in host
    order, port in network order), which is what [memcmp] reads. *)
Definition sockaddr_bytes (sa : sockaddr) : list Z :=
  match sa with
  | SockIn s => u16_le AF_INET ++ u16_be (sin_port s) ++ sin_addr s ++ sin_zero s
  | SockIn6 s =>
      u16_le AF_INET6 ++ u16_be (sin6_port s) ++ u32_le (sin6_flowinfo s)
        ++ sin6_addr s ++ u32_le (sin6_scope_id s)
  | SockOther f d => u16_le f ++ d
  end.

(** [memcmp(a, b, n) == 0] on two byte images. *)
Definition memcmp_eq (a b : list Z) (n : Z) : bool :=
  bool_decide (take (Z.to_nat n) a = take (Z.to_nat n) b).

(** [memset(b, c, n)] on a byte array. *)
Definition memset (b : list Z) (c : Z) (n : nat) : list Z :=
  replicate (Nat.min n (length b)) c ++ drop n b.

(** Modelled from the spec: [addr_get_len] of [addr.c] is not among the
    sources.  The spec's data model says the length of a record "matches the
    encoded family's native address-structure size"; an address of another
    family has no such size and yields 0, which the caller tests for. *)
Definition addr_get_len (sa : sockaddr) : Z :=
  match sa with
  | SockIn _ => sizeof_sockaddr_in
  | SockIn6 _ => sizeof_sockaddr_in6
  | SockOther _ _ => 0
  end.

(** Modelled from the spec: [addr_get_port] of [addr.c] is not among the
    sources.  It reads the port field of an IPv4 or IPv6 address ("the
    socket's bound local port"), 0 for another family. *)
Definition addr_get_port (sa : sockaddr) : Z :=
  match sa with
  | SockIn s => sin_port s
  | SockIn6 s => sin6_port s
  | SockOther _ _ => 0
  end.

(** Modelled from the spec: [addr_set_port] of [addr.c] is not among the
    sources.  It "rewrites the address's port field" and leaves every other
    field alone; an address of another family is left unchanged. *)
Definition addr_set_port (sa : sockaddr) (port : Z) : sockaddr :=
  match sa with
  | SockIn s =>
      SockIn {| sin_port := port; sin_addr := sin_addr s; sin_zero := sin_zero s |}
  | SockIn6 s =>
      SockIn6 {| sin6_port := port; sin6_flowinfo := sin6_flowinfo s;
                 sin6_addr := sin6_addr s; sin6_scope_id := sin6_scope_id s |}
  | SockOther f d => SockOther f d
  end.

(** The two address classifiers of [addr.c] that [udp_get_addrs] calls.
    They are not among the sources and the spec does not define them, so
    the development is parametric in them. *)
Class AddrClass := {
  addr_is_local : sockaddr -> bool;
  addr_is_temp_inet6 : sockaddr -> bool
}.

(** [addr_record_t]: a [sockaddr_storage] and the length in use. *)
Record addr_record_t := {
  addr : sockaddr;
  len : Z
}.

(** [struct addrinfo]; the [ai_next] chain is a list. *)
Record addrinfo := {
  ai_family : Z;
  ai_socktype : Z;
  ai_protocol : Z;
  ai_addr : sockaddr;
  ai_addrlen : Z
}.

(** [struct ifaddrs]; the [ifa_next] chain is a list, a null [ifa_addr] is
    [None]. *)
Record ifaddrs := {
  ifa_flags : Z;
  ifa_addr : option sockaddr
}.

End Addr.
Import Addr.

(* ===================================================================== *)
(** * The operating system as seen by udp.c                               *)
(* ===================================================================== *)

Module Os.

(** Socket options the code sets; their failures are ignored by the code. *)
Inductive sockopt :=
| SO_REUSEADDR | IPV6_V6ONLY | IP_MTU_DISCOVER | SO_RCVBUF | SO_SNDBUF.

(** What the system answers.  Binding is asked by call number and address:
    [env_bind k sa] is the [errno] of the [k]-th call to [bind] (0 for
    success). *)
Record os_env := {
  env_getaddrinfo : option (list addrinfo);
  env_socket : Z;
  env_ioctl : Z;
  env_bind : nat -> sockaddr -> Z;
  env_ephemeral : Z;
  env_rand32 : nat -> Z;
  env_getifaddrs : option (list ifaddrs)
}.

(** The state the calls act on.  [count] is the function-local static
    counter of [get_next_port_in_range]. *)
Record world := {
  count : Z;
  rand_calls : nat;
  sockerrno : Z;
  addrinfo_live : nat;
  ifaddrs_live : nat;
  open_fds : list Z;
  sockopts : list (Z * sockopt * Z);
  bound : gmap Z sockaddr;
  bind_log : list sockaddr
}.

Definition set_count (w : world) (c : Z) : world :=
  {| count := c; rand_calls := rand_calls w; sockerrno := sockerrno w;
     addrinfo_live := addrinfo_live w; ifaddrs_live := ifaddrs_live w;
     open_fds := open_fds w; sockopts := sockopts w; bound := bound w;
     bind_log := bind_log w |}.

Definition set_rand_calls (w : world) (n : nat) : world :=
  {| count := count w; rand_calls := n; sockerrno := sockerrno w;
     addrinfo_live := addrinfo_live w; ifaddrs_live := ifaddrs_live w;
     open_fds := open_fds w; sockopts := sockopts w; bound := bound w;
     bind_log := bind_log w |}.

Definition set_addrinfo_live (w : world) (n : nat) : world :=
  {| count := count w; rand_calls := rand_calls w; sockerrno := sockerrno w;
     addrinfo_live := n; ifaddrs_live := ifaddrs_live w;
     open_fds := open_fds w; sockopts := sockopts w; bound := bound w;
     bind_log := bind_log w |}.

Definition set_ifaddrs_live (w : world) (n : nat) : world :=
  {| count := count w; rand_calls := rand_calls w; sockerrno := sockerrno w;
     addrinfo_live := addrinfo_live w; ifaddrs_live := n;
     open_fds := open_fds w; sockopts := sockopts w; bound := bound w;
     bind_log := bind_log w |}.

Definition set_open_fds (w : world) (l : list Z) : world :=
  {| count := count w; rand_calls := rand_calls w; sockerrno := sockerrno w;
     addrinfo_live := addrinfo_live w; ifaddrs_live := ifaddrs_live w;
     open_fds := l; sockopts := sockopts w; bound := bound w;
     bind_log := bind_log w |}.

Definition set_sockopts (w : world) (l : list (Z * sockopt * Z)) : world :=
  {| count := count w; rand_calls := rand_calls w; sockerrno := sockerrno w;
     addrinfo_live := addrinfo_live w; ifaddrs_live := ifaddrs_live w;
     open_fds := open_fds w; sockopts := l; bound := bound w;
     bind_log := bind_log w |}.

(** The effect of one [bind] call: it is logged, and either the socket
    becomes bound or [errno] is set. *)
Definition set_bind (w : world) (err : Z) (b : gmap Z sockaddr) (sa : sockaddr) : world :=
  {| count := count w; rand_calls := rand_calls w; sockerrno := err;
     addrinfo_live := addrinfo_live w; ifaddrs_live := ifaddrs_live w;
     open_fds := open_fds w; sockopts := sockopts w; bound := b;
     bind_log := bind_log w ++ [sa] |}.

(** A world in which nothing has happened yet. *)
Definition initial_world : world :=
  {| count := 0; rand_calls := 0; sockerrno := 0; addrinfo_live := 0;
     ifaddrs_live := 0; open_fds := []; sockopts := []; bound := ∅;
     bind_log := [] |}.

(** State monad over the world. *)
Definition M (A : Type) : Type := world -> A * world.

Definition pure {A} (a : A) : M A := fun w => (a, w).

Definition seq {A B} (m : M A) (k : A -> M B) : M B :=
  fun w => let (a, w') := m w in k a w'.

Declare Scope os_scope.
Delimit Scope os_scope with os.
Notation "x <- m ;; k" := (seq m (fun x => k))
  (at level 100, m at next level, right associativity) : os_scope.
Notation "m ;;; k" := (seq m (fun _ => k))
  (at level 100, right associativity) : os_scope.

Section Calls.
Variable os : os_env.

(** [getaddrinfo(NULL, "0", &hints, &ai_list)]: a returned list is live
    until [freeaddrinfo]. *)
Definition getaddrinfo : M (option (list addrinfo)) := fun w =>
  match env_getaddrinfo os with
  | Some l => (Some l, set_addrinfo_live w (S (addrinfo_live w)))
  | None => (None, w)
  end.

Definition freeaddrinfo : M unit := fun w =>
  (tt, set_addrinfo_live w (Nat.pred (addrinfo_live w))).

(** [socket(family, type, protocol)]: a valid descriptor stays open until
    it is closed. *)
Definition socket (family socktype protocol : Z) : M Z := fun w =>
  if env_socket os =? INVALID_SOCKET then (INVALID_SOCKET, w)
  else (env_socket os, set_open_fds w (env_socket os :: open_fds w)).

Definition setsockopt (fd : Z) (opt : sockopt) (val : Z) : M unit := fun w =>
  (tt, set_sockopts w (sockopts w ++ [(fd, opt, val)])).

(** [ioctlsocket(sock, FIONBIO, &b)]. *)
Definition ioctlsocket_fionbio (fd : Z) : M Z := fun w => (env_ioctl os, w).

(** [bind(sock, sa, len)].  Binding to port 0 lets the system choose the
    port. *)
Definition bind (fd : Z) (sa : sockaddr) : M Z := fun w =>
  let err := env_bind os (length (bind_log w)) sa in
  if err =? 0 then
    let sa' := if addr_get_port sa =? 0
               then addr_set_port sa (env_ephemeral os) else sa in
    (0, set_bind w (sockerrno w) (<[fd := sa']> (bound w)) sa)
  else (-1, set_bind w err (bound w) sa).

Definition get_sockerrno : M Z := fun w => (sockerrno w, w).

(** [getsockname(sock, &addr, &len)]: the address the socket is bound to,
    if any. *)
Definition getsockname (fd : Z) : M (option sockaddr) := fun w =>
  (bound w !! fd, w).

(** [juice_rand32()] of [random.h]: the next value of the random source. *)
Definition juice_rand32 : M Z := fun w =>
  (to_uint32 (env_rand32 os (rand_calls w)), set_rand_calls w (S (rand_calls w))).

Definition getifaddrs : M (option (list ifaddrs)) := fun w =>
  match env_getifaddrs os with
  | Some l => (Some l, set_ifaddrs_live w (S (ifaddrs_live w)))
  | None => (None, w)
  end.

Definition freeifaddrs : M unit := fun w =>
  (tt, set_ifaddrs_live w (Nat.pred (ifaddrs_live w))).

End Calls.

(** The number of bytes [getsockname] reports for an address. *)
Definition sockaddr_len (sa : sockaddr) : Z := Z.of_nat (length (sockaddr_bytes sa)).

End Os.
Import Os.

(* ===================================================================== *)
(** * udp.c                                                               *)
(* ===================================================================== *)

(** The [JLOG_*] calls of the file write diagnostics only and are left
    out. *)

Module Udp.
Local Open Scope os_scope.

(** [udp_socket_config_t]. *)
Record udp_socket_config_t := {
  port_begin : Z;
  port_end : Z
}.

(** [find_family]: the first node of the list with the given family.
    [family] is an [unsigned int] and [ai_family] an [int], so the test
    [ai->ai_family != family] compares them as unsigned numbers; an [int]
    given for [family] is converted when it is passed. *)
Fixpoint find_family (ai_list : list addrinfo) (family : Z) : option addrinfo :=
  match ai_list with
  | [] => None
  | ai :: ai_next =>
      if int_to_uint32 (ai_family ai) =? int_to_uint32 family then Some ai
      else find_family ai_next family
  end.

(** The choice of the address to bind: IPv6 if there is one, else IPv4.
    The two constants are not negative: as [unsigned int] they are
    themselves. *)
Definition prefer_inet6 (ai_list : list addrinfo) : option addrinfo :=
  match find_family ai_list AF_INET6 with
  | Some ai => Some ai
  | None => find_family ai_list AF_INET
  end.

Section WithOs.
Variable os : os_env.

(** [get_next_port_in_range].  [begin] and [end] are [uint16_t], the static
    [count] is [uint32_t]: the increment and the result are reduced. *)
Definition get_next_port_in_range (begin end_ : Z) : M Z :=
  let begin := if begin =? 0 then 1024 else begin in
  let end_ := if end_ =? 0 then 0xFFFF else end_ in
  fun w =>
    let (c, w1) :=
      if count w =? 0
      then (let (r, w') := juice_rand32 os w in (r, set_count w' r))
      else (count w, w) in
    let diff := if end_ >? begin then end_ - begin else 0 in
    let next := to_uint16 (begin + c mod (diff + 1)) in
    (next, set_count w1 (to_uint32 (c + 1))).

(** The [do ... while (sockerrno == EADDRINUSE && retries-- > 0)] loop of
    [udp_create_socket].  [retries] is the C [int] taken through
    [Z.to_nat]: the test [retries-- > 0] holds exactly when that number is
    a successor, and it then continues with the predecessor.  The result is
    the bound socket, or [None] when the loop is left without one. *)
Fixpoint bind_in_range (retries : nat) (sock : Z) (sa : sockaddr)
    (config : udp_socket_config_t) : M (option Z) :=
  port <- get_next_port_in_range (port_begin config) (port_end config) ;;
  let sa := addr_set_port sa port in
  rc <- bind os sock sa ;;
  if rc =? 0 then
    (freeaddrinfo ;;; pure (Some sock))
  else
    (errno <- get_sockerrno ;;
     if errno =? EADDRINUSE then
       match retries with
       | S retries' => bind_in_range retries' sock sa config
       | O => pure None
       end
     else pure None).

(** The [error:] label of [udp_create_socket]. *)
Definition error_exit : M Z :=
  freeaddrinfo ;;; pure INVALID_SOCKET.

(** [udp_create_socket]. *)
Definition udp_create_socket (config : udp_socket_config_t) : M Z :=
  r <- getaddrinfo os ;;
  match r with
  | None => pure INVALID_SOCKET
  | Some ai_list =>
      match prefer_inet6 ai_list with
      | None => error_exit
      | Some ai =>
          sock <- socket os (ai_family ai) (ai_socktype ai) (ai_protocol ai) ;;
          if sock =? INVALID_SOCKET then error_exit
          else
            (setsockopt sock SO_REUSEADDR 1 ;;;
             (if ai_family ai =? AF_INET6
              then setsockopt sock IPV6_V6ONLY 0 else pure tt) ;;;
             setsockopt sock IP_MTU_DISCOVER 2 ;;;
             setsockopt sock SO_RCVBUF (2 * 1024 * 1024) ;;;
             setsockopt sock SO_SNDBUF (2 * 1024 * 1024) ;;;
             nb <- ioctlsocket_fionbio os sock ;;
             if negb (nb =? 0) then error_exit
             else if (port_begin config =? 0) && (port_end config =? 0) then
               (rc <- bind os sock (ai_addr ai) ;;
                if rc =? 0 then (freeaddrinfo ;;; pure sock)
                else error_exit)
             else
               (let retries := port_end config - port_begin config in
                b <- bind_in_range (Z.to_nat retries) sock (ai_addr ai) config ;;
                match b with
                | Some s => pure s
                | None => error_exit
                end))
      end
  end.

(** [udp_get_port]. *)
Definition udp_get_port (sock : Z) : M Z :=
  r <- getsockname sock ;;
  match r with
  | None => pure 0
  | Some sa => pure (addr_get_port sa)
  end.

(** [udp_get_local_addr]: the return code and the record it leaves. *)
Definition udp_get_local_addr (sock : Z) (record : addr_record_t)
    : M (Z * addr_record_t) :=
  let record := {| addr := addr record; len := sizeof_sockaddr_storage |} in
  r <- getsockname sock ;;
  match r with
  | None => pure (-1, record)
  | Some sa =>
      let len := sockaddr_len sa in
      match sa with
      | SockIn sin =>
          let localhost := [127; 0; 0; 1] in
          pure (0, {| addr := SockIn {| sin_port := sin_port sin;
                                        sin_addr := take 4 localhost ++ drop 4 (sin_addr sin);
                                        sin_zero := sin_zero sin |};
                      len := len |})
      | SockIn6 sin6 =>
          let b := memset (sin6_addr sin6) 0 15 in
          let b := <[15%nat := 0x01]> b in
          pure (0, {| addr := SockIn6 {| sin6_port := sin6_port sin6;
                                         sin6_flowinfo := sin6_flowinfo sin6;
                                         sin6_addr := b;
                                         sin6_scope_id := sin6_scope_id sin6 |};
                      len := len |})
      | SockOther _ _ => pure (0, {| addr := sa; len := len |})
      end
  end.

End WithOs.

(** [has_duplicate_addr]: is there, among the first [count] records, one
    that the code takes for the same address as [sa]. *)
Fixpoint has_duplicate_addr (sa : sockaddr) (records : list addr_record_t)
    (count : nat) : bool :=
  match count, records with
  | S count', record :: rest =>
      if (sa_family (addr record) =? sa_family sa)
      then
        match sa, addr record with
        | SockIn _, _ =>
            if memcmp_eq (sockaddr_bytes (addr record)) (sockaddr_bytes sa) (len record)
            then true
            else has_duplicate_addr sa rest count'
        | SockIn6 asin6, SockIn6 rsin6 =>
            if memcmp_eq (sin6_addr rsin6) (sin6_addr asin6) 8
            then true
            else has_duplicate_addr sa rest count'
        | _, _ => has_duplicate_addr sa rest count'
        end
      else has_duplicate_addr sa rest count'
  | _, _ => false
  end.

(** The local variables of [udp_get_addrs]: [current] as an index into
    [records], the running total [ret], and the buffer. *)
Record gather := {
  current : nat;
  ret : Z;
  records : list addr_record_t
}.

(** A store through [current]: outside the buffer it is a memory fault. *)
Definition store (recs : list addr_record_t) (i : nat) (r : addr_record_t)
    : option (list addr_record_t) :=
  if decide (i < length recs)%nat then Some (<[i := r]> recs) else None.

(** The record written for an accepted address: [memcpy], [len] and
    [addr_set_port]. *)
Definition stamp (sa : sockaddr) (port : Z) : addr_record_t :=
  {| addr := addr_set_port sa port; len := addr_get_len sa |}.

(** [if (current != end) { write; ++current; }] after [++ret]. *)
Definition emit (count : nat) (r : addr_record_t) (st : gather) : option gather :=
  if decide (current st <> count) then
    recs ← store (records st) (current st) r;
    Some {| current := S (current st); ret := ret st + 1; records := recs |}
  else
    Some {| current := current st; ret := ret st + 1; records := records st |}.

(** The two synthetic records of [JUICE_ENABLE_ADDRS_LOCALHOST]. *)
Definition localhost_inet6 (port : Z) : addr_record_t :=
  {| addr := SockIn6 {| sin6_port := port; sin6_flowinfo := 0;
                        sin6_addr := <[15%nat := 0x01]> (replicate 16 0);
                        sin6_scope_id := 0 |};
     len := sizeof_sockaddr_in6 |}.

Definition localhost_inet (port : Z) : addr_record_t :=
  {| addr := SockIn {| sin_port := port; sin_addr := [127; 0; 0; 1];
                       sin_zero := replicate 8 0 |};
     len := sizeof_sockaddr_in |}.

(** In that block [++ret] is inside the capacity test. *)
Definition add_localhost (count : nat) (r : addr_record_t) (st : gather)
    : option gather :=
  if decide (current st <> count) then emit count r st else Some st.

Section WithClass.
Context `{AddrClass}.

(** Is the interface skipped: not up, or loopback. *)
Definition skip_interface (ifa : ifaddrs) : bool :=
  let flags := ifa_flags ifa in
  (Z.land flags IFF_UP =? 0) || negb (Z.land flags IFF_LOOPBACK =? 0).

(** First loop over the interfaces: is there a temporary IPv6 address. *)
Fixpoint scan_temp_inet6 (ifas : list ifaddrs) : bool :=
  match ifas with
  | [] => false
  | ifa :: ifa_next =>
      if skip_interface ifa then scan_temp_inet6 ifa_next
      else
        match ifa_addr ifa with
        | Some sa =>
            if addr_is_temp_inet6 sa then true else scan_temp_inet6 ifa_next
        | None => scan_temp_inet6 ifa_next
        end
  end.

(** The filter of the second loop on one address. *)
Definition eligible (has_temp_inet6 : bool) (sa : sockaddr) : bool :=
  ((sa_family sa =? AF_INET) || (sa_family sa =? AF_INET6))
  && negb (addr_is_local sa)
  && negb (has_temp_inet6 && (sa_family sa =? AF_INET6) && negb (addr_is_temp_inet6 sa))
  && (addr_get_len sa >? 0).

(** Body of the second loop. *)
Definition gather_ifa (port : Z) (has_temp_inet6 : bool) (count : nat)
    (ifa : ifaddrs) (st : gather) : option gather :=
  if skip_interface ifa then Some st
  else
    match ifa_addr ifa with
    | Some sa =>
        if eligible has_temp_inet6 sa then
          if negb (has_duplicate_addr sa (records st) (current st))
          then emit count (stamp sa port) st
          else Some st
        else Some st
    | None => Some st
    end.

(** Second loop over the interfaces. *)
Fixpoint gather_loop (port : Z) (has_temp_inet6 : bool) (count : nat)
    (ifas : list ifaddrs) (st : gather) : option gather :=
  match ifas with
  | [] => Some st
  | ifa :: ifa_next =>
      st' ← gather_ifa port has_temp_inet6 count ifa st;
      gather_loop port has_temp_inet6 count ifa_next st'
  end.

(** [udp_get_addrs]: the return value and the buffer it leaves, or [None]
    when a store falls outside the buffer.  [enable_addrs_localhost] is the
    compile-time switch [JUICE_ENABLE_ADDRS_LOCALHOST]. *)
Definition udp_get_addrs (os : os_env) (enable_addrs_localhost : bool)
    (sock : Z) (recs : list addr_record_t) (count : nat)
    : M (option (Z * list addr_record_t)) :=
  port <- udp_get_port sock ;;
  if port =? 0 then pure (Some (-1, recs))
  else
    let st0 := {| current := 0; ret := 0; records := recs |} in
    let st1 :=
      if enable_addrs_localhost then
        st ← add_localhost count (localhost_inet6 port) st0;
        add_localhost count (localhost_inet port) st
      else Some st0 in
    match st1 with
    | None => pure None
    | Some st1 =>
        r <- getifaddrs os ;;
        match r with
        | None => pure (Some (-1, records st1))
        | Some ifas =>
            let has_temp_inet6 := scan_temp_inet6 ifas in
            let out := gather_loop port has_temp_inet6 count ifas st1 in
            freeifaddrs ;;;
            pure (match out with
                  | Some st => Some (ret st, records st)
                  | None => None
                  end)
        end
    end.

End WithClass.

End Udp.
Import Udp.

(* ===================================================================== *)
(** * log.c                                                               *)
(* ===================================================================== *)

Module Log.

Definition BUFFER_SIZE : Z := 4096.

(** [juice_log_level_t] of the public header, by its numeric value. *)
Definition JUICE_LOG_LEVEL_VERBOSE : Z := 0.
Definition JUICE_LOG_LEVEL_DEBUG : Z := 1.
Definition JUICE_LOG_LEVEL_INFO : Z := 2.
Definition JUICE_LOG_LEVEL_WARN : Z := 3.
Definition JUICE_LOG_LEVEL_ERROR : Z := 4.
Definition JUICE_LOG_LEVEL_FATAL : Z := 5.

Definition ESC : string := String "027"%char "".
Definition LF : string := String "010"%char "".

Definition log_level_names : list string :=
  ["VERBOSE"; "DEBUG"; "INFO"; "WARN"; "ERROR"; "FATAL"].

Definition log_level_colors : list string :=
  [ESC +:+ "[90m"; ESC +:+ "[96m"; ESC +:+ "[39m"; ESC +:+ "[93m";
   ESC +:+ "[91m"; ESC +:+ "[97m" +:+ ESC +:+ "[41m"].

(** The fields of [struct tm] that ["%H:%M:%S"] reads. *)
Record tm := {
  tm_hour : Z;
  tm_min : Z;
  tm_sec : Z
}.

(** What the system answers during one call of [juice_log_write]. *)
Record log_env := {
  env_localtime : tm;
  env_isatty : bool
}.

(** The file-scope variables [log_level] and [log_cb] (a callback is known
    by an identifier), the standard output stream, and the calls made to
    callbacks. *)
Record log_state := {
  log_level : Z;
  log_cb : option nat;
  stdout : string;
  cb_calls : list (nat * Z * string)
}.

Definition initial_log_state : log_state :=
  {| log_level := JUICE_LOG_LEVEL_WARN; log_cb := None; stdout := "";
     cb_calls := [] |}.

(** [juice_set_log_level]. *)
Definition juice_set_log_level (level : Z) (st : log_state) : log_state :=
  {| log_level := level; log_cb := log_cb st; stdout := stdout st;
     cb_calls := cb_calls st |}.

(** [juice_set_log_handler]. *)
Definition juice_set_log_handler (cb : option nat) (st : log_state) : log_state :=
  {| log_level := log_level st; log_cb := cb; stdout := stdout st;
     cb_calls := cb_calls st |}.

(** [fprintf(stdout, "%s", s)]. *)
Definition fprintf_stdout (s : string) (st : log_state) : log_state :=
  {| log_level := log_level st; log_cb := log_cb st;
     stdout := stdout st +:+ s; cb_calls := cb_calls st |}.

Definition call_cb (cb : nat) (level : Z) (message : string) (st : log_state)
    : log_state :=
  {| log_level := log_level st; log_cb := log_cb st; stdout := stdout st;
     cb_calls := cb_calls st ++ [(cb, level, message)] |}.

(** [strrchr(s, c)] for a non-null [c]: the suffix that starts at the last
    occurrence. *)
Fixpoint strrchr (s : string) (c : ascii) : option string :=
  match s with
  | EmptyString => None
  | String a s' =>
      match strrchr s' c with
      | Some r => Some r
      | None => if bool_decide (a = c) then Some s else None
      end
  end.

(** [++filename] on a non-empty string. *)
Definition skip_char (s : string) : string :=
  match s with
  | EmptyString => EmptyString
  | String _ s' => s'
  end.

Definition digit (d : Z) : ascii := ascii_of_nat (48 + Z.to_nat d).

(** A two-digit field of [strftime]. *)
Definition two_digits (v : Z) : string :=
  String (digit (v / 10)) (String (digit (v mod 10)) "").

(** [strftime(buffer, 16, "%H:%M:%S", lt)]: the text, and the number of
    bytes written, which is 0 when the text and its terminator do not fit. *)
Definition strftime_HMS (max : nat) (lt : tm) : string * nat :=
  let s := two_digits (tm_hour lt) +:+ ":" +:+ two_digits (tm_min lt)
           +:+ ":" +:+ two_digits (tm_sec lt) in
  if decide (String.length s < max)%nat then (s, String.length s) else ("", 0%nat).

(** ["%-7s"]: left-justified in a field of width 7. *)
Fixpoint spaces (n : nat) : string :=
  match n with
  | O => ""
  | S n' => String " "%char (spaces n')
  end.

Definition pad_right (width : nat) (s : string) : string :=
  s +:+ spaces (width - String.length s).

(** What [snprintf] and [vsnprintf] leave in a buffer of [size] bytes. *)
Definition c_trunc (size : Z) (s : string) : string :=
  if size <=? 0 then "" else String.substring 0 (Z.to_nat (size - 1)) s.

(** [juice_log_write].  [formatted] is the expansion of [fmt] with the
    variadic arguments.  The result is [None] when the code indexes a
    table outside its bounds or hands [vsnprintf] a position past the end
    of [message]. *)
Definition juice_log_write (env : log_env) (level : Z) (file : string)
    (line : Z) (formatted : string) (st : log_state) : option log_state :=
  if level <? log_level st then Some st
  else
    let filename :=
      match strrchr file "/"%char with
      | Some p => skip_char p
      | None => file
      end in
    match log_cb st with
    | Some cb =>
        let prefix := filename +:+ ":" +:+ pretty line +:+ ": " in
        let message := c_trunc BUFFER_SIZE prefix in
        let len := Z.of_nat (String.length prefix) in
        let len := if len >=? 0 then len else 0 in
        if len <=? BUFFER_SIZE then
          let message := message +:+ c_trunc (BUFFER_SIZE - len) formatted in
          Some (call_cb cb level message st)
        else None
    | None =>
        let (buffer, n) := strftime_HMS 16 (env_localtime env) in
        let buffer := if decide (n = 0%nat) then "" else buffer in
        if (0 <=? level) && (level <? 6) then
          color ← (if env_isatty env
                   then log_level_colors !! Z.to_nat level else Some "");
          name ← log_level_names !! Z.to_nat level;
          let st := fprintf_stdout color st in
          let st := fprintf_stdout
                      (buffer +:+ " " +:+ pad_right 7 name +:+ " " +:+ filename
                       +:+ ":" +:+ pretty line +:+ ": ") st in
          let st := fprintf_stdout formatted st in
          let st := fprintf_stdout
                      (if env_isatty env then ESC +:+ "[0m" +:+ ESC +:+ "[0K" else "") st in
          let st := fprintf_stdout LF st in
          Some st
        else None
    end.

End Log.
Import Log.

(* ===================================================================== *)
(** * Derived notions used in the statements                              *)
(* ===================================================================== *)

(** The value of the port counter that a call of [get_next_port_in_range]
    works with: the stored one, or a fresh seed when the stored one is 0. *)
Definition effective_count (os : os_env) (w : world) : Z :=
  if count w =? 0 then to_uint32 (env_rand32 os (rand_calls w)) else count w.

(** [n] successive calls of [get_next_port_in_range] on the same range. *)
Fixpoint next_ports (os : os_env) (b e : Z) (n : nat) (w : world) : list Z * world :=
  match n with
  | O => ([], w)
  | S n' =>
      let (p, w1) := get_next_port_in_range os b e w in
      let (ps, w2) := next_ports os b e n' w1 in
      (p :: ps, w2)
  end.

(** The entries [getaddrinfo] returns are consistent: the address has the
    family the entry announces and the layout of that family. *)
Definition addrinfo_wf (ai : addrinfo) : Prop :=
  sa_family (ai_addr ai) = ai_family ai /\ sa_wf (ai_addr ai).

(** The calls before [bind] succeed, and [ai] is the address chosen. *)
Definition reaches_bind (os : os_env) (ai : addrinfo) : Prop :=
  exists ai_list,
    env_getaddrinfo os = Some ai_list /\ prefer_inet6 ai_list = Some ai /\
    env_socket os <> INVALID_SOCKET /\ env_ioctl os = 0.

(** The world after a failed [bind]. *)
Definition after_bind_failure (w : world) (err : Z) (sa : sockaddr) : world :=
  set_bind w err (bound w) sa.

(** The address is one of the two IP forms. *)
Definition is_inet (sa : sockaddr) : bool :=
  match sa with
  | SockIn _ | SockIn6 _ => true
  | SockOther _ _ => false
  end.

(** The world in which [udp_create_socket] starts to bind, when the calls
    before that have succeeded: the address list is live, the socket is
    open and its options are set. *)
Definition before_bind (os : os_env) (ai : addrinfo) (w : world) : world :=
  let sock := env_socket os in
  let w1 := set_addrinfo_live w (S (addrinfo_live w)) in
  let w2 := set_open_fds w1 (sock :: open_fds w1) in
  ((setsockopt sock SO_REUSEADDR 1 ;;;
    (if ai_family ai =? AF_INET6
     then setsockopt sock IPV6_V6ONLY 0 else pure tt) ;;;
    setsockopt sock IP_MTU_DISCOVER 2 ;;;
    setsockopt sock SO_RCVBUF (2 * 1024 * 1024) ;;;
    setsockopt sock SO_SNDBUF (2 * 1024 * 1024))%os w2).2.

(** The loopback addresses [udp_get_local_addr] writes. *)
Definition in_addr_loopback : list Z := [127; 0; 0; 1].
Definition in6_addr_loopback : list Z := replicate 15 0 ++ [1].

(** The addresses of the interface list that pass the tests of the second
    loop of [udp_get_addrs], in the order of the list: the eligible
    candidates, before any de-duplication. *)
Fixpoint candidates `{AddrClass} (has_temp_inet6 : bool) (ifas : list ifaddrs)
    : list sockaddr :=
  match ifas with
  | [] => []
  | ifa :: ifa_next =>
      if skip_interface ifa then candidates has_temp_inet6 ifa_next
      else
        match ifa_addr ifa with
        | Some sa =>
            if eligible has_temp_inet6 sa
            then sa :: candidates has_temp_inet6 ifa_next
            else candidates has_temp_inet6 ifa_next
        | None => candidates has_temp_inet6 ifa_next
        end
  end.

(** The second loop as it acts on the candidates: [acc] is the written
    part of the buffer, [total] the running total.  A candidate is compared
    with the written records only; it is counted when none matches, and
    written when there is room. *)
Fixpoint gather_spec (port : Z) (count : nat) (cands : list sockaddr)
    (acc : list addr_record_t) (total : Z) : list addr_record_t * Z :=
  match cands with
  | [] => (acc, total)
  | sa :: cands' =>
      if has_duplicate_addr sa acc (length acc)
      then gather_spec port count cands' acc total
      else if decide (length acc <> count)
           then gather_spec port count cands' (acc ++ [stamp sa port]) (total + 1)
           else gather_spec port count cands' acc (total + 1)
  end.


(** What the [JUICE_ENABLE_ADDRS_LOCALHOST] block writes into a buffer with
    room for [count] records. *)
Definition localhost_spec (enable_addrs_localhost : bool) (port : Z) (count : nat)
    : list addr_record_t :=
  if enable_addrs_localhost
  then take count [localhost_inet6 port; localhost_inet port]
  else [].

(** The records a call has written, given its return value, the capacity
    and the buffer it leaves. *)
Definition emitted (rv : Z) (count : nat) (recs : list addr_record_t)
    : list addr_record_t :=
  take (Nat.min (Z.to_nat rv) count) recs.

(** In a list of records, two IPv6 records at different places never have
    the same leading 8 address bytes. *)
Definition inet6_prefixes_differ (l : list addr_record_t) : Prop :=
  forall (i j : nat) r1 r2 s1 s2,
    (i < j)%nat -> l !! i = Some r1 -> l !! j = Some r2 ->
    addr r1 = SockIn6 s1 -> addr r2 = SockIn6 s2 ->
    take 8 (sin6_addr s1) <> take 8 (sin6_addr s2).

(** A broken-down time as [localtime] returns it. *)
Definition tm_valid (lt : tm) : Prop :=
  0 <= tm_hour lt <= 23 /\ 0 <= tm_min lt <= 59 /\ 0 <= tm_sec lt <= 60.

Definition is_digit (c : ascii) : bool :=
  ((48 <=? nat_of_ascii c) && (nat_of_ascii c <=? 57))%nat.

(** The text has the form [HH:MM:SS]. *)
Definition hms_shape (s : string) : bool :=
  match s with
  | String h1 (String h2 (String sep1 (String m1 (String m2 (String sep2
      (String s1 (String s2 EmptyString))))))) =>
      is_digit h1 && is_digit h2 && bool_decide (sep1 = ":"%char)
      && is_digit m1 && is_digit m2 && bool_decide (sep2 = ":"%char)
      && is_digit s1 && is_digit s2
  | _ => false
  end.

(** The file name without its directories, as [juice_log_write] takes it. *)
Definition log_filename (file : string) : string :=
  match strrchr file "/"%char with
  | Some p => skip_char p
  | None => file
  end.

(** The time stamp [juice_log_write] prints. *)
Definition log_timestamp (lt : tm) : string :=
  two_digits (tm_hour lt) +:+ ":" +:+ two_digits (tm_min lt)
  +:+ ":" +:+ two_digits (tm_sec lt).

(* ===================================================================== *)
(** * udp.c: the other builds of [udp_get_addrs]                          *)
(* ===================================================================== *)

(** [udp_get_addrs] has three bodies, chosen by the preprocessor.  The one
    with [getifaddrs] is [Udp.udp_get_addrs]; here are the one for
    [_WIN32] and the one for [NO_IFADDRS].  They share the beginning (port,
    synthetic loopback records) and the way a candidate is counted and
    written ([emit]). *)

Module UdpBuilds.
Local Open Scope os_scope.

(** Modelled from the spec: [addr_unmap_inet6_v4mapped] of [addr.c] is not
    among the sources.  The spec says that "an IPv4-mapped IPv6 address is
    unmapped back to plain IPv4" and its length set to that of the family:
    an address ::ffff:a.b.c.d becomes the IPv4 address a.b.c.d with the same
    port, any other address and its length are left alone. *)
Definition addr_unmap_inet6_v4mapped (sa : sockaddr) (len : Z) : sockaddr * Z :=
  match sa with
  | SockIn6 s =>
      if bool_decide (take 12 (sin6_addr s) = replicate 10 0 ++ [0xff; 0xff])
      then (SockIn {| sin_port := sin6_port s; sin_addr := drop 12 (sin6_addr s);
                      sin_zero := replicate 8 0 |},
            sizeof_sockaddr_in)
      else (sa, len)
  | _ => (sa, len)
  end.

(** The block of [JUICE_ENABLE_ADDRS_LOCALHOST], common to the builds. *)
Definition localhost_block (enable_addrs_localhost : bool) (port : Z)
    (count : nat) (recs : list addr_record_t) : option gather :=
  let st0 := {| current := 0; ret := 0; records := recs |} in
  if enable_addrs_localhost then
    st ← add_localhost count (localhost_inet6 port) st0;
    add_localhost count (localhost_inet port) st
  else Some st0.

(** What the system answers in the [NO_IFADDRS] build: the addresses of
    the [ifreq] array of [SIOCGIFCONF], [gethostname], and [getaddrinfo]
    for a host name and a service. *)
Record fallback_env := {
  env_ifconf : option (list sockaddr);
  env_gethostname : option string;
  env_getaddrinfo_host : string -> string -> option (list addrinfo)
}.

Section WithClass.
Context `{AddrClass}.

(** ** [_WIN32]: the address list of [SIO_ADDRESS_LIST_QUERY], each entry
    an address and its length. *)

Fixpoint win_scan_temp_inet6 (list : list (sockaddr * Z)) : bool :=
  match list with
  | [] => false
  | (sa, _) :: rest =>
      if addr_is_temp_inet6 sa then true else win_scan_temp_inet6 rest
  end.

Definition win_eligible (has_temp_inet6 : bool) (sa : sockaddr) : bool :=
  ((sa_family sa =? AF_INET) || (sa_family sa =? AF_INET6))
  && negb (addr_is_local sa)
  && negb (has_temp_inet6 && (sa_family sa =? AF_INET6) && negb (addr_is_temp_inet6 sa)).

(** The record written: [memcpy], [len], unmapping, port. *)
Definition win_record (sa : sockaddr) (len : Z) (port : Z) : addr_record_t :=
  let (a, l) := addr_unmap_inet6_v4mapped sa len in
  {| addr := addr_set_port a port; len := l |}.

Fixpoint win_loop (port : Z) (has_temp_inet6 : bool) (count : nat)
    (list : list (sockaddr * Z)) (st : gather) : option gather :=
  match list with
  | [] => Some st
  | (sa, len) :: rest =>
      st' ← (if win_eligible has_temp_inet6 sa then
               if negb (has_duplicate_addr sa (records st) (current st))
               then emit count (win_record sa len port) st
               else Some st
             else Some st);
      win_loop port has_temp_inet6 count rest st'
  end.

(** [udp_get_addrs] under [_WIN32]; [wsa] is the answer of [WSAIoctl],
    [None] when it fails. *)
Definition udp_get_addrs_win32 (wsa : option (list (sockaddr * Z)))
    (enable_addrs_localhost : bool) (sock : Z) (recs : list addr_record_t)
    (count : nat) : M (option (Z * list addr_record_t)) :=
  port <- udp_get_port sock ;;
  if port =? 0 then pure (Some (-1, recs))
  else
    match localhost_block enable_addrs_localhost port count recs with
    | None => pure None
    | Some st1 =>
        match wsa with
        | None => pure (Some (-1, records st1))
        | Some list =>
            let has_temp_inet6 := win_scan_temp_inet6 list in
            pure (match win_loop port has_temp_inet6 count list st1 with
                  | Some st => Some (ret st, records st)
                  | None => None
                  end)
        end
    end.

(** ** [NO_IFADDRS]: IPv4 from [SIOCGIFCONF], IPv6 from [getaddrinfo] on the
    host name. *)

(** The record written for an [ifreq]: [sizeof(struct sockaddr_in)] bytes
    and the port. *)
Definition ifreq_record (sa : sockaddr) (port : Z) : addr_record_t :=
  {| addr := addr_set_port sa port; len := sizeof_sockaddr_in |}.

Fixpoint ifconf_loop (port : Z) (count : nat) (ifrs : list sockaddr)
    (st : gather) : option gather :=
  match ifrs with
  | [] => Some st
  | sa :: rest =>
      st' ← (if (sa_family sa =? AF_INET) && negb (addr_is_local sa) then
               if negb (has_duplicate_addr sa (records st) (current st))
               then emit count (ifreq_record sa port) st
               else Some st
             else Some st);
      ifconf_loop port count rest st'
  end.

Fixpoint gai_scan_temp_inet6 (ai_list : list addrinfo) : bool :=
  match ai_list with
  | [] => false
  | ai :: ai_next =>
      if addr_is_temp_inet6 (ai_addr ai) then true else gai_scan_temp_inet6 ai_next
  end.

Definition gai_eligible (has_temp_inet6 : bool) (sa : sockaddr) : bool :=
  negb (addr_is_local sa) && negb (has_temp_inet6 && negb (addr_is_temp_inet6 sa)).

(** The record written for an [addrinfo]: address and length as they are;
    the port is the one asked for as the service. *)
Definition gai_record (ai : addrinfo) : addr_record_t :=
  {| addr := ai_addr ai; len := ai_addrlen ai |}.

Fixpoint gai_loop (has_temp_inet6 : bool) (count : nat)
    (ai_list : list addrinfo) (st : gather) : option gather :=
  match ai_list with
  | [] => Some st
  | ai :: ai_next =>
      st' ← (if gai_eligible has_temp_inet6 (ai_addr ai) then
               if negb (has_duplicate_addr (ai_addr ai) (records st) (current st))
               then emit count (gai_record ai) st
               else Some st
             else Some st);
      gai_loop has_temp_inet6 count ai_next st'
  end.

(** [udp_get_addrs] under [NO_IFADDRS].  The service handed to
    [getaddrinfo] is the port in decimal. *)
Definition udp_get_addrs_noifaddrs (fb : fallback_env)
    (enable_addrs_localhost : bool) (sock : Z) (recs : list addr_record_t)
    (count : nat) : M (option (Z * list addr_record_t)) :=
  port <- udp_get_port sock ;;
  if port =? 0 then pure (Some (-1, recs))
  else
    match localhost_block enable_addrs_localhost port count recs with
    | None => pure None
    | Some st1 =>
        match env_ifconf fb with
        | None => pure (Some (-1, records st1))
        | Some ifrs =>
            match ifconf_loop port count ifrs st1 with
            | None => pure None
            | Some st2 =>
                let hostname :=
                  match env_gethostname fb with
                  | Some h => h
                  | None => "localhost"
                  end in
                let service := pretty port in
                match env_getaddrinfo_host fb hostname service with
                | Some ai_list =>
                    fun w =>
                      let w1 := set_addrinfo_live w (S (addrinfo_live w)) in
                      let has_temp_inet6 := gai_scan_temp_inet6 ai_list in
                      let out := gai_loop has_temp_inet6 count ai_list st2 in
                      (match out with
                       | Some st => Some (ret st, records st)
                       | None => None
                       end, (freeaddrinfo w1).2)
                | None => pure (Some (ret st2, records st2))
                end
            end
        end
    end.

End WithClass.

End UdpBuilds.
Import UdpBuilds.

(** The loops of [udp_get_addrs] only ever extend the written part of the
    buffer: from [st] to [st'] the records [new], each with the property
    [P], have been written after the [current st] records that were there,
    within the capacity, and the total has grown by at least as many. *)
Definition extends (count : nat) (P : addr_record_t -> Prop) (st st' : gather)
    : Prop :=
  exists new,
    Forall P new /\
    current st' = (current st + length new)%nat /\
    (current st' <= count)%nat /\
    records st' = take (current st) (records st) ++ new
                  ++ drop (current st') (records st) /\
    length (records st') = length (records st) /\
    ret st + Z.of_nat (length new) <= ret st' /\
    (Z.of_nat (current st) = Z.min (ret st) (Z.of_nat count) ->
     Z.of_nat (current st') = Z.min (ret st') (Z.of_nat count)).

(** The ports that [n] successive calls of [get_next_port_in_range] give
    when the counter stands at [c] and does not wrap. *)
Definition round_robin (b e c : Z) (n : nat) : list Z :=
  (fun i : nat => b + (c + Z.of_nat i) mod (e - b + 1)) <$> List.seq 0 n.

(** The range the allocator works with after its defaults. *)
Definition range_begin (b : Z) : Z := if b =? 0 then 1024 else b.
Definition range_end (e : Z) : Z := if e =? 0 then 0xFFFF else e.


(** The interface is up and is not the loopback interface. *)
Definition up_not_loopback (ifa : ifaddrs) : Prop :=
  Z.land (ifa_flags ifa) IFF_UP <> 0 /\ Z.land (ifa_flags ifa) IFF_LOOPBACK = 0.

(** An IPv4 address with port field 0, as an interface list reports it. *)
Definition inet_port0 (sa : sockaddr) : Prop :=
  exists s, sa = SockIn s /\ sin_port s = 0.

(** The host name the [NO_IFADDRS] build resolves: the one [gethostname]
    gives, or "localhost". *)
Definition fallback_hostname (fb : fallback_env) : string :=
  match env_gethostname fb with
  | Some h => h
  | None => "localhost"
  end.

(** The character does not occur in the string. *)
Fixpoint string_free (c : ascii) (s : string) : Prop :=
  match s with
  | EmptyString => True
  | String a s' => a <> c /\ string_free c s'
  end.

(** The text [juice_log_write] puts before the message for a callback. *)
Definition log_prefix (file : string) (line : Z) : string :=
  log_filename file +:+ ":" +:+ pretty line +:+ ": ".

(* ===================================================================== *)
(** * Concrete machines used in examples                                  *)
(* ===================================================================== *)

Module Examples.

(** The wildcard addresses [getaddrinfo(NULL, "0")] answers with. *)
Definition any_inet : sockaddr :=
  SockIn {| sin_port := 0; sin_addr := [0; 0; 0; 0]; sin_zero := replicate 8 0 |}.

Definition any_inet6 : sockaddr :=
  SockIn6 {| sin6_port := 0; sin6_flowinfo := 0; sin6_addr := replicate 16 0;
             sin6_scope_id := 0 |}.

Definition ai_inet : addrinfo :=
  {| ai_family := AF_INET; ai_socktype := 2; ai_protocol := 17;
     ai_addr := any_inet; ai_addrlen := sizeof_sockaddr_in |}.

Definition ai_inet6 : addrinfo :=
  {| ai_family := AF_INET6; ai_socktype := 2; ai_protocol := 17;
     ai_addr := any_inet6; ai_addrlen := sizeof_sockaddr_in6 |}.

(** A dual-stack host on which [socket] answers descriptor 3; the results
    of [ioctlsocket], [bind], the random source and the interface list are
    left open. *)
Definition host (ioctl : Z) (bind_errno : nat -> sockaddr -> Z)
    (rand32 : nat -> Z) (ifas : option (list ifaddrs)) : os_env :=
  {| env_getaddrinfo := Some [ai_inet; ai_inet6];
     env_socket := 3;
     env_ioctl := ioctl;
     env_bind := bind_errno;
     env_ephemeral := 49152;
     env_rand32 := rand32;
     env_getifaddrs := ifas |}.

(** Every port is taken. *)
Definition host_all_in_use : os_env :=
  host 0 (fun _ _ => EADDRINUSE) (fun _ => 7) (Some []).

(** The first port tried is taken, the second attempt is refused with
    [EACCES] (13). *)
Definition host_refused : os_env :=
  host 0 (fun k _ => if (k <? 1)%nat then EADDRINUSE else 13) (fun _ => 7) (Some []).

(** Every port is free. *)
Definition host_free : os_env :=
  host 0 (fun _ _ => 0) (fun _ => 7) (Some []).

(** Non-blocking mode cannot be set. *)
Definition host_no_nonblock : os_env :=
  host (-1) (fun _ _ => 0) (fun _ => 7) (Some []).

(** The random source answers [0xFFFFFFFF] first and 5 afterwards. *)
Definition host_seed_max : os_env :=
  host 0 (fun _ _ => 0) (fun k => if (k <? 1)%nat then 0xFFFFFFFF else 5) (Some []).

Definition ports_5000_5002 : udp_socket_config_t :=
  {| port_begin := 5000; port_end := 5002 |}.

Definition ports_any : udp_socket_config_t :=
  {| port_begin := 0; port_end := 0 |}.

(** Address classifiers for the examples: loopback and link-local addresses
    are local; an IPv6 address that is not local counts as temporary when
    the universal/local bit of its interface identifier is clear. *)
Definition classes : AddrClass :=
  {| addr_is_local := fun sa =>
       match sa with
       | SockIn s =>
           match sin_addr s with
           | 127 :: _ => true
           | 169 :: 254 :: _ => true
           | _ => false
           end
       | SockIn6 s =>
           bool_decide (sin6_addr s = in6_addr_loopback)
           || bool_decide (take 2 (sin6_addr s) = [0xfe; 0x80])
       | SockOther _ _ => false
       end;
     addr_is_temp_inet6 := fun sa =>
       match sa with
       | SockIn6 s =>
           negb (bool_decide (sin6_addr s = in6_addr_loopback)
                 || bool_decide (take 2 (sin6_addr s) = [0xfe; 0x80]))
           && (Z.land (nth 8 (sin6_addr s) 0) 0x02 =? 0)
       | _ => false
       end |}.

Definition inet (a b c d : Z) : sockaddr :=
  SockIn {| sin_port := 0; sin_addr := [a; b; c; d]; sin_zero := replicate 8 0 |}.

(** An address of the network 2001:db8::/64 with the given interface
    identifier. *)
Definition inet6_db8 (iid : list Z) : sockaddr :=
  SockIn6 {| sin6_port := 0; sin6_flowinfo := 0;
             sin6_addr := [0x20; 0x01; 0x0d; 0xb8; 0; 0; 0; 0] ++ iid;
             sin6_scope_id := 0 |}.

Definition inet6_stable_a : sockaddr := inet6_db8 [0x02; 0; 0; 0; 0; 0; 0; 0x0a].
Definition inet6_stable_b : sockaddr := inet6_db8 [0x02; 0; 0; 0; 0; 0; 0; 0x0b].
Definition inet6_temp : sockaddr := inet6_db8 [0x10; 0x22; 0x33; 0x44; 0x55; 0x66; 0x77; 0x88].

(** An interface that is up and running, and the loopback interface. *)
Definition eth (sa : sockaddr) : ifaddrs :=
  {| ifa_flags := 0x1043; ifa_addr := Some sa |}.
Definition lo (sa : sockaddr) : ifaddrs :=
  {| ifa_flags := 0x49; ifa_addr := Some sa |}.


(** One IPv4 address reported for two interfaces. *)
Definition ifas_same_inet : list ifaddrs :=
  [eth (inet 192 168 1 5); eth (inet 192 168 1 5)].

(** Loopback, an IPv4 address, a stable and a temporary IPv6 address. *)
Definition ifas_privacy : list ifaddrs :=
  [lo (inet 127 0 0 1); eth (inet 192 168 1 5); eth inet6_stable_a; eth inet6_temp].

Definition host_ifas (ifas : list ifaddrs) : os_env :=
  host 0 (fun _ _ => 0) (fun _ => 7) (Some ifas).

(** The world after a socket was created for the range 5000..5002:
    descriptor 3 is bound to port 5001. *)
Definition bound_world : world :=
  (udp_create_socket host_free ports_5000_5002 initial_world).2.

(** An unused slot of a caller's buffer. *)
Definition blank : addr_record_t := {| addr := SockOther 0 []; len := 0 |}.

(** A message of [n] letters. *)
Fixpoint letters (n : nat) : string :=
  match n with
  | O => ""
  | S n' => String "x"%char (letters n')
  end.

(** 12:34:56, standard output not a terminal. *)
Definition log_env_plain : log_env :=
  {| env_localtime := {| tm_hour := 12; tm_min := 34; tm_sec := 56 |};
     env_isatty := false |}.

(** Hosts on which socket creation fails early: no address resolved, only
    an address of another family (1, [AF_UNIX]), no descriptor left. *)
Definition host_unresolved : os_env :=
  {| env_getaddrinfo := None; env_socket := 3; env_ioctl := 0;
     env_bind := fun _ _ => 0; env_ephemeral := 49152;
     env_rand32 := fun _ => 7; env_getifaddrs := Some [] |}.

Definition host_other_family : os_env :=
  {| env_getaddrinfo :=
       Some [{| ai_family := 1; ai_socktype := 2; ai_protocol := 0;
                ai_addr := SockOther 1 []; ai_addrlen := 2 |}];
     env_socket := 3; env_ioctl := 0;
     env_bind := fun _ _ => 0; env_ephemeral := 49152;
     env_rand32 := fun _ => 7; env_getifaddrs := Some [] |}.

Definition host_no_descriptor : os_env :=
  {| env_getaddrinfo := Some [ai_inet; ai_inet6];
     env_socket := INVALID_SOCKET; env_ioctl := 0;
     env_bind := fun _ _ => 0; env_ephemeral := 49152;
     env_rand32 := fun _ => 7; env_getifaddrs := Some [] |}.

(** Only port 5002 is free. *)
Definition host_one_free : os_env :=
  host 0 (fun _ sa => if addr_get_port sa =? 5002 then 0 else EADDRINUSE)
       (fun _ => 7) (Some []).

(** The first port tried is taken, the second one is free. *)
Definition host_second_free : os_env :=
  host 0 (fun k _ => if (k <? 1)%nat then EADDRINUSE else 0) (fun _ => 7) (Some []).

(** A range given the wrong way round. *)
Definition ports_5002_5000 : udp_socket_config_t :=
  {| port_begin := 5002; port_end := 5000 |}.

(** A stable address of another IPv6 subnet, 2001:db9::/64. *)
Definition inet6_other : sockaddr :=
  SockIn6 {| sin6_port := 0; sin6_flowinfo := 0;
             sin6_addr := [0x20; 0x01; 0x0d; 0xb9; 0; 0; 0; 0;
                           0x02; 0; 0; 0; 0; 0; 0; 0x0c];
             sin6_scope_id := 0 |}.

(** Stable addresses of two IPv6 subnets, and a second one of the first. *)
Definition ifas_two_subnets : list ifaddrs :=
  [eth inet6_stable_a; eth inet6_other; eth inet6_stable_b].

(** The IPv4-mapped IPv6 address ::ffff:10.0.0.7. *)
Definition inet6_mapped : sockaddr :=
  SockIn6 {| sin6_port := 0; sin6_flowinfo := 0;
             sin6_addr := replicate 10 0 ++ [0xff; 0xff; 10; 0; 0; 7];
             sin6_scope_id := 0 |}.

(** An address list as [SIO_ADDRESS_LIST_QUERY] gives it. *)
Definition wsa_addrs : list (sockaddr * Z) :=
  [(inet 192 168 1 5, sizeof_sockaddr_in); (inet6_stable_a, sizeof_sockaddr_in6);
   (inet6_temp, sizeof_sockaddr_in6); (inet6_mapped, sizeof_sockaddr_in6)].

(** A host without [getifaddrs]: two configured IPv4 addresses, and a name
    that resolves to a temporary IPv6 address at the port asked for. *)
Definition fallback_host : fallback_env :=
  {| env_ifconf := Some [inet 127 0 0 1; inet 192 168 1 5];
     env_gethostname := Some "peer";
     env_getaddrinfo_host := fun host service =>
       if bool_decide (host = "peer") then
         Some [{| ai_family := AF_INET6; ai_socktype := 2; ai_protocol := 17;
                  ai_addr := addr_set_port inet6_temp 5001;
                  ai_addrlen := sizeof_sockaddr_in6 |}]
       else None |}.

End Examples.



(* ===================================================================== *)
(** * The port allocator                                                  *)
(* ===================================================================== *)

Section PortAllocator.
Variable os : os_env.

Lemma get_next_port_in_range_eq (b e : Z) (w : world) :
  get_next_port_in_range os b e w =
  (let b' := if b =? 0 then 1024 else b in
   let e' := if e =? 0 then 0xFFFF else e in
   let c := effective_count os w in
   let diff := if e' >? b' then e' - b' else 0 in
   (to_uint16 (b' + c mod (diff + 1)),
    set_count (if count w =? 0
               then set_count (set_rand_calls w (S (rand_calls w))) c
               else w)
              (to_uint32 (c + 1)))).
Proof.
  unfold get_next_port_in_range, effective_count, juice_rand32.
  destruct (count w =? 0); reflexivity.
Qed.

Lemma get_next_port_in_range_count (b e : Z) (w : world) :
  count (get_next_port_in_range os b e w).2 = to_uint32 (effective_count os w + 1).
Proof. rewrite get_next_port_in_range_eq. reflexivity. Qed.

Lemma get_next_port_in_range_rand_calls (b e : Z) (w : world) :
  rand_calls (get_next_port_in_range os b e w).2 =
  if count w =? 0 then S (rand_calls w) else rand_calls w.
Proof.
  rewrite get_next_port_in_range_eq. cbn. destruct (count w =? 0); reflexivity.
Qed.

Lemma get_next_port_in_range_value (b e : Z) (w : world) :
  1 <= b -> b <= e -> e <= 65535 ->
  (get_next_port_in_range os b e w).1 = b + effective_count os w mod (e - b + 1).
Proof.
  intros Hb Hbe He. rewrite get_next_port_in_range_eq. cbn.
  destruct (Z.eqb_spec b 0); [lia|].
  destruct (Z.eqb_spec e 0); [lia|].
  assert (Hm : 0 <= effective_count os w mod (e - b + 1) < e - b + 1)
    by (apply Z.mod_pos_bound; lia).
  destruct (Z.gtb_spec e b).
  - replace (e - b + 1) with (e - b + 1) in * by lia.
    unfold to_uint16. rewrite Z.mod_small; lia.
  - assert (e = b) by lia. subst e.
    replace (b - b + 1) with 1 in * by lia.
    replace (0 + 1) with 1 by lia.
    unfold to_uint16. rewrite Z.mod_small; lia.
Qed.

Lemma get_next_port_in_range_bounds (b e : Z) (w : world) :
  1 <= b -> b <= e -> e <= 65535 ->
  b <= (get_next_port_in_range os b e w).1 <= e.
Proof.
  intros Hb Hbe He. rewrite get_next_port_in_range_value by assumption.
  assert (0 <= effective_count os w mod (e - b + 1) < e - b + 1)
    by (apply Z.mod_pos_bound; lia).
  lia.
Qed.

(** The fields of the world that the allocator does not touch. *)
Lemma get_next_port_in_range_frame (b e : Z) (w : world) :
  let w' := (get_next_port_in_range os b e w).2 in
  sockerrno w' = sockerrno w /\ addrinfo_live w' = addrinfo_live w /\
  ifaddrs_live w' = ifaddrs_live w /\ open_fds w' = open_fds w /\
  sockopts w' = sockopts w /\ bound w' = bound w /\ bind_log w' = bind_log w.
Proof.
  rewrite get_next_port_in_range_eq. cbn.
  destruct (count w =? 0); cbn; repeat split.
Qed.

End PortAllocator.

(* ===================================================================== *)
(** * Socket creation                                                     *)
(* ===================================================================== *)

Section CreateSocket.
Variable os : os_env.

(** One turn of the retry loop, spelled out. *)
Lemma bind_in_range_unfold (n : nat) (sock : Z) (sa : sockaddr)
    (config : udp_socket_config_t) (w : world) :
  bind_in_range os n sock sa config w =
  (let pw := get_next_port_in_range os (port_begin config) (port_end config) w in
   let sa1 := addr_set_port sa pw.1 in
   let err := env_bind os (length (bind_log pw.2)) sa1 in
   if err =? 0 then
     (Some sock,
      set_addrinfo_live
        (set_bind pw.2 (sockerrno pw.2)
           (<[sock := if addr_get_port sa1 =? 0
                      then addr_set_port sa1 (env_ephemeral os) else sa1]> (bound pw.2))
           sa1)
        (Nat.pred (addrinfo_live pw.2)))
   else if err =? EADDRINUSE then
     match n with
     | S n' => bind_in_range os n' sock sa1 config (after_bind_failure pw.2 err sa1)
     | O => (None, after_bind_failure pw.2 err sa1)
     end
   else (None, after_bind_failure pw.2 err sa1)).
Proof.
  destruct n; cbn [bind_in_range]; unfold seq;
    destruct (get_next_port_in_range os (port_begin config) (port_end config) w)
      as [port w1]; cbn [fst snd];
    unfold bind, after_bind_failure;
    destruct (env_bind os (length (bind_log w1)) (addr_set_port sa port) =? 0) eqn:E0;
    cbn; try reflexivity;
    destruct (_ =? EADDRINUSE); reflexivity.
Qed.

(** The loop leaves the descriptors and the bound addresses of other
    sockets alone, whatever happens. *)
Lemma bind_in_range_open_fds (n : nat) (sock : Z) (sa : sockaddr)
    (config : udp_socket_config_t) (w : world) :
  open_fds (bind_in_range os n sock sa config w).2 = open_fds w.
Proof.
  revert sa w. induction n as [|n IH]; intros sa w;
    rewrite bind_in_range_unfold; cbv zeta;
    destruct (get_next_port_in_range_frame os (port_begin config) (port_end config) w)
      as (_ & _ & _ & Hfd & _);
    repeat case_match; cbn; try rewrite IH; cbn; exact Hfd.
Qed.

(** The loop releases the address list exactly when it returns a socket. *)
Lemma bind_in_range_addrinfo_live (n : nat) (sock : Z) (sa : sockaddr)
    (config : udp_socket_config_t) (w : world) :
  addrinfo_live (bind_in_range os n sock sa config w).2 =
  match (bind_in_range os n sock sa config w).1 with
  | Some _ => Nat.pred (addrinfo_live w)
  | None => addrinfo_live w
  end.
Proof.
  revert sa w. induction n as [|n IH]; intros sa w;
    rewrite bind_in_range_unfold; cbv zeta;
    destruct (get_next_port_in_range_frame os (port_begin config) (port_end config) w)
      as (_ & Hai & _);
    set (pw := get_next_port_in_range os (port_begin config) (port_end config) w) in *;
    set (sa1 := addr_set_port sa pw.1);
    (destruct (env_bind os (length (bind_log pw.2)) sa1 =? 0); [cbn; congruence|]);
    (destruct (env_bind os (length (bind_log pw.2)) sa1 =? EADDRINUSE);
     [|cbn; congruence]).
  - cbn; congruence.
  - rewrite IH. cbn. rewrite Hai. reflexivity.
Qed.

(** Every attempt finds the address in use: the loop makes [retries + 1]
    attempts and gives up with [EADDRINUSE] in [errno]. *)
Lemma bind_in_range_exhausted (n : nat) (sock : Z) (sa : sockaddr)
    (config : udp_socket_config_t) (w : world) :
  (forall (i : nat) sa', (i <= n)%nat ->
     env_bind os (length (bind_log w) + i) sa' = EADDRINUSE) ->
  let r := bind_in_range os n sock sa config w in
  r.1 = None /\
  length (bind_log r.2) = (length (bind_log w) + S n)%nat /\
  sockerrno r.2 = EADDRINUSE /\
  addrinfo_live r.2 = addrinfo_live w /\
  bound r.2 = bound w.
Proof.
  revert sa w. induction n as [|n IH]; intros sa w Hall;
    rewrite bind_in_range_unfold; cbv zeta;
    destruct (get_next_port_in_range_frame os (port_begin config) (port_end config) w)
      as (_ & Hai & _ & _ & _ & Hbd & Hlog);
    rewrite Hlog;
    pose proof (Hall 0%nat) as H0; rewrite Nat.add_0_r in H0;
    rewrite H0 by lia; cbn [Z.eqb EADDRINUSE Pos.eqb].
  - cbn. rewrite length_app, Hlog. cbn. repeat split; auto; lia.
  - destruct (IH (addr_set_port sa
                   (get_next_port_in_range os (port_begin config) (port_end config) w).1)
                 (after_bind_failure
                   (get_next_port_in_range os (port_begin config) (port_end config) w).2
                   EADDRINUSE
                   (addr_set_port sa
                     (get_next_port_in_range os (port_begin config) (port_end config) w).1)))
      as (R1 & R2 & R3 & R4 & R5).
    { intros i sa' Hi. cbn. rewrite length_app, Hlog. cbn.
      replace (length (bind_log w) + 1 + i)%nat with (length (bind_log w) + S i)%nat by lia.
      apply Hall. lia. }
    cbv zeta in R1, R2, R3, R4, R5.
    rewrite R1, R2, R3, R4, R5. cbn. rewrite length_app, Hlog. cbn.
    repeat split; auto; lia.
Qed.

(** The first [j] attempts find the address in use and the next one fails
    with another error: the loop stops there, after [j + 1] attempts. *)
Lemma bind_in_range_abort (n j : nat) (sock : Z) (sa : sockaddr)
    (config : udp_socket_config_t) (w : world) :
  (j <= n)%nat ->
  (forall (i : nat) sa', (i < j)%nat ->
     env_bind os (length (bind_log w) + i) sa' = EADDRINUSE) ->
  (forall sa', env_bind os (length (bind_log w) + j) sa' <> 0 /\
               env_bind os (length (bind_log w) + j) sa' <> EADDRINUSE) ->
  let r := bind_in_range os n sock sa config w in
  r.1 = None /\
  length (bind_log r.2) = (length (bind_log w) + S j)%nat /\
  addrinfo_live r.2 = addrinfo_live w.
Proof.
  revert j sa w. induction n as [|n IH]; intros j sa w Hj Hbusy Hother;
    rewrite bind_in_range_unfold; cbv zeta;
    destruct (get_next_port_in_range_frame os (port_begin config) (port_end config) w)
      as (_ & Hai & _ & _ & _ & Hbd & Hlog);
    rewrite Hlog.
  - assert (j = 0)%nat by lia. subst j. rewrite Nat.add_0_r in Hother.
    destruct (Hother (addr_set_port sa
                (get_next_port_in_range os (port_begin config) (port_end config) w).1))
      as [Hn0 Hne].
    apply Z.eqb_neq in Hn0, Hne. rewrite Hn0, Hne. cbn.
    rewrite length_app, Hlog. cbn. repeat split; auto; lia.
  - destruct j as [|j].
    + rewrite Nat.add_0_r in Hother.
      destruct (Hother (addr_set_port sa
                  (get_next_port_in_range os (port_begin config) (port_end config) w).1))
        as [Hn0 Hne].
      apply Z.eqb_neq in Hn0, Hne. rewrite Hn0, Hne. cbn.
      rewrite length_app, Hlog. cbn. repeat split; auto; lia.
    + pose proof (Hbusy 0%nat) as H0. rewrite Nat.add_0_r in H0.
      rewrite H0 by lia. cbn [Z.eqb EADDRINUSE Pos.eqb].
      match goal with |- context [bind_in_range os n sock ?sa1 config ?w1] =>
        destruct (IH j sa1 w1) as (R1 & R2 & R3) end.
      * lia.
      * intros i sa' Hi. cbn. rewrite length_app, Hlog. cbn.
        replace (length (bind_log w) + 1 + i)%nat with (length (bind_log w) + S i)%nat by lia.
        apply Hbusy. lia.
      * intros sa'. cbn. rewrite length_app, Hlog. cbn.
        replace (length (bind_log w) + 1 + j)%nat with (length (bind_log w) + S j)%nat by lia.
        apply Hother.
      * cbv zeta in R1, R2, R3. rewrite R1, R2, R3. cbn.
        rewrite length_app, Hlog. cbn. repeat split; auto; lia.
Qed.

Lemma addr_get_set_port (sa : sockaddr) (port : Z) :
  is_inet sa = true -> addr_get_port (addr_set_port sa port) = port.
Proof. destruct sa; cbn; congruence. Qed.

Lemma is_inet_set_port (sa : sockaddr) (port : Z) :
  is_inet (addr_set_port sa port) = is_inet sa.
Proof. destruct sa; reflexivity. Qed.

(** When the loop returns a socket, it is the one it was given, and it is
    bound to a port of the range. *)
Lemma bind_in_range_success (n : nat) (sock : Z) (sa : sockaddr)
    (config : udp_socket_config_t) (w : world) (s : Z) :
  is_inet sa = true ->
  1 <= port_begin config -> port_begin config <= port_end config ->
  port_end config <= 65535 ->
  (bind_in_range os n sock sa config w).1 = Some s ->
  s = sock /\
  exists sa', bound (bind_in_range os n sock sa config w).2 !! sock = Some sa' /\
              port_begin config <= addr_get_port sa' <= port_end config.
Proof.
  intros Hin Hb Hbe He. revert sa w Hin.
  induction n as [|n IH]; intros sa w Hin;
    rewrite bind_in_range_unfold; cbv zeta;
    pose proof (get_next_port_in_range_bounds os _ _ w Hb Hbe He) as Hport;
    set (pw := get_next_port_in_range os (port_begin config) (port_end config) w) in *;
    repeat case_match; cbn [fst snd]; intros Hs; try discriminate.
  - injection Hs as <-. split; [reflexivity|]. cbn.
    rewrite addr_get_set_port in * by assumption.
    match goal with H : (pw.1 =? 0) = true |- _ => apply Z.eqb_eq in H; lia end.
  - injection Hs as <-. split; [reflexivity|]. cbn.
    rewrite lookup_insert_eq. eexists; split; [reflexivity|].
    rewrite addr_get_set_port by assumption. exact Hport.
  - injection Hs as <-. split; [reflexivity|]. cbn.
    rewrite addr_get_set_port in * by assumption.
    match goal with H : (pw.1 =? 0) = true |- _ => apply Z.eqb_eq in H; lia end.
  - injection Hs as <-. split; [reflexivity|]. cbn.
    rewrite lookup_insert_eq. eexists; split; [reflexivity|].
    rewrite addr_get_set_port by assumption. exact Hport.
  - apply IH; [|exact Hs]. rewrite is_inet_set_port. exact Hin.
Qed.

(** What [udp_create_socket] does once the calls before [bind] have
    succeeded. *)
Lemma udp_create_socket_reaches (config : udp_socket_config_t) (w : world)
    (ai : addrinfo) :
  reaches_bind os ai ->
  udp_create_socket os config w =
  if (port_begin config =? 0) && (port_end config =? 0) then
    (let r := bind os (env_socket os) (ai_addr ai) (before_bind os ai w) in
     (if r.1 =? 0 then env_socket os else INVALID_SOCKET,
      set_addrinfo_live r.2 (Nat.pred (addrinfo_live r.2))))
  else
    (let r := bind_in_range os
                (Z.to_nat (port_end config - port_begin config))
                (env_socket os) (ai_addr ai) config (before_bind os ai w) in
     match r.1 with
     | Some s => (s, r.2)
     | None => (INVALID_SOCKET, set_addrinfo_live r.2 (Nat.pred (addrinfo_live r.2)))
     end).
Proof.
  intros (ai_list & Hga & Hpick & Hsock & Hio).
  apply Z.eqb_neq in Hsock.
  unfold udp_create_socket, before_bind, seq, getaddrinfo.
  rewrite Hga, Hpick. unfold socket. rewrite Hsock. cbn beta iota.
  rewrite Hsock.
  unfold ioctlsocket_fionbio, error_exit, freeaddrinfo, setsockopt, pure, seq.
  rewrite Hio. cbn [Z.eqb negb].
  destruct (ai_family ai =? AF_INET6);
    (destruct ((port_begin config =? 0) && (port_end config =? 0));
     [ cbv zeta; cbn [fst snd];
       match goal with |- context [bind os ?s ?a ?w0] =>
         destruct (bind os s a w0) as [rc w1] end;
       cbn [fst snd]; destruct (rc =? 0); reflexivity
     | cbv zeta; cbn [fst snd];
       match goal with |- context [bind_in_range os ?n ?s ?a ?c ?w0] =>
         destruct (bind_in_range os n s a c w0) as [[s'|] w1] end;
       reflexivity ]).
Qed.

(** Non-blocking mode cannot be set: the error path after the socket was
    created. *)
Lemma udp_create_socket_no_nonblock (config : udp_socket_config_t) (w : world)
    (ai_list : list addrinfo) (ai : addrinfo) :
  env_getaddrinfo os = Some ai_list ->
  prefer_inet6 ai_list = Some ai ->
  env_socket os <> INVALID_SOCKET ->
  env_ioctl os <> 0 ->
  let r := udp_create_socket os config w in
  r.1 = INVALID_SOCKET /\
  open_fds r.2 = env_socket os :: open_fds w /\
  addrinfo_live r.2 = addrinfo_live w /\
  bind_log r.2 = bind_log w.
Proof.
  intros Hga Hpick Hs Hio. apply Z.eqb_neq in Hs, Hio. cbv zeta.
  unfold udp_create_socket, seq, getaddrinfo. rewrite Hga, Hpick.
  unfold socket. rewrite Hs. cbn beta iota. rewrite Hs.
  unfold ioctlsocket_fionbio, error_exit, freeaddrinfo, setsockopt, pure, seq.
  rewrite Hio. destruct (ai_family ai =? AF_INET6); repeat split.
Qed.

Lemma before_bind_frame (ai : addrinfo) (w : world) :
  count (before_bind os ai w) = count w /\
  rand_calls (before_bind os ai w) = rand_calls w /\
  bind_log (before_bind os ai w) = bind_log w /\
  bound (before_bind os ai w) = bound w /\
  open_fds (before_bind os ai w) = env_socket os :: open_fds w /\
  addrinfo_live (before_bind os ai w) = S (addrinfo_live w).
Proof.
  unfold before_bind. destruct (ai_family ai =? AF_INET6); cbn; repeat split.
Qed.

(** When those calls do not all succeed, no socket is returned. *)
Lemma udp_create_socket_not_reached (config : udp_socket_config_t) (w : world) :
  (exists ai, reaches_bind os ai) \/
  (udp_create_socket os config w).1 = INVALID_SOCKET /\
  bind_log (udp_create_socket os config w).2 = bind_log w.
Proof.
  unfold reaches_bind.
  destruct (env_getaddrinfo os) as [ai_list|] eqn:Hga; cycle 1.
  { right. unfold udp_create_socket, seq, getaddrinfo. rewrite Hga. split; reflexivity. }
  destruct (prefer_inet6 ai_list) as [ai|] eqn:Hpick; cycle 1.
  { right. unfold udp_create_socket, seq, getaddrinfo. rewrite Hga, Hpick.
    split; reflexivity. }
  destruct (Z.eqb_spec (env_socket os) INVALID_SOCKET) as [Hs|Hs].
  { right. unfold udp_create_socket, seq, getaddrinfo. rewrite Hga, Hpick.
    unfold socket. rewrite Hs. split; reflexivity. }
  destruct (Z.eqb_spec (env_ioctl os) 0) as [Hio|Hio].
  { left. exists ai, ai_list. auto. }
  right.
  destruct (udp_create_socket_no_nonblock config w ai_list ai Hga Hpick Hs Hio)
    as (Hr & _ & _ & Hlog).
  split; assumption.
Qed.

(** For a family that is not negative as an [int], the unsigned comparison
    of [find_family] is plain equality. *)
Lemma int_to_uint32_eq (v family : Z) :
  0 <= family < 2147483648 ->
  int_to_uint32 v = int_to_uint32 family <-> v = family.
Proof.
  intros Hf. unfold int_to_uint32, INT_MIN.
  destruct (Z.leb_spec (-2147483648) v); destruct (Z.ltb_spec v 0);
    destruct (Z.leb_spec (-2147483648) family); destruct (Z.ltb_spec family 0);
    cbn [andb]; lia.
Qed.

(** The list up to the node [find_family] returns. *)
Lemma find_family_split (ai_list : list addrinfo) (family : Z) :
  match find_family ai_list family with
  | Some ai =>
      exists l1 l2, ai_list = l1 ++ ai :: l2 /\
                    int_to_uint32 (ai_family ai) = int_to_uint32 family /\
                    Forall (fun a => int_to_uint32 (ai_family a)
                                     <> int_to_uint32 family) l1
  | None => Forall (fun a => int_to_uint32 (ai_family a)
                             <> int_to_uint32 family) ai_list
  end.
Proof.
  induction ai_list as [|a l IH]; cbn [find_family]; [constructor|].
  destruct (Z.eqb_spec (int_to_uint32 (ai_family a)) (int_to_uint32 family))
    as [E|E].
  - exists [], l. repeat split; [exact E|constructor].
  - destruct (find_family l family) as [ai|].
    + destruct IH as (l1 & l2 & -> & Hf & Hl1).
      exists (a :: l1), l2. repeat split; [exact Hf|constructor; assumption].
    + constructor; assumption.
Qed.

Lemma find_family_Some (ai_list : list addrinfo) (family : Z) (ai : addrinfo) :
  find_family ai_list family = Some ai ->
  ai ∈ ai_list /\ int_to_uint32 (ai_family ai) = int_to_uint32 family.
Proof.
  intros Hf. pose proof (find_family_split ai_list family) as Hs.
  rewrite Hf in Hs. destruct Hs as (l1 & l2 & -> & E & _).
  split; [|exact E]. apply elem_of_app. right. left.
Qed.

Lemma prefer_inet6_Some (ai_list : list addrinfo) (ai : addrinfo) :
  prefer_inet6 ai_list = Some ai ->
  ai ∈ ai_list /\ (ai_family ai = AF_INET6 \/ ai_family ai = AF_INET).
Proof.
  unfold prefer_inet6.
  destruct (find_family ai_list AF_INET6) as [a|] eqn:E6.
  - intros [= <-]. apply find_family_Some in E6 as [Hin E6].
    assert (Hr : 0 <= AF_INET6 < 2147483648) by (unfold AF_INET6; lia).
    apply (proj1 (int_to_uint32_eq _ _ Hr)) in E6. tauto.
  - intros E4. apply find_family_Some in E4 as [Hin E4].
    assert (Hr : 0 <= AF_INET < 2147483648) by (unfold AF_INET; lia).
    apply (proj1 (int_to_uint32_eq _ _ Hr)) in E4. tauto.
Qed.

Lemma addrinfo_wf_is_inet (ai : addrinfo) :
  addrinfo_wf ai -> ai_family ai = AF_INET6 \/ ai_family ai = AF_INET ->
  is_inet (ai_addr ai) = true.
Proof.
  intros [Hfam Hwf] Hf. destruct (ai_addr ai) as [s|s|f d]; try reflexivity.
  cbn in Hfam, Hwf. destruct Hwf, Hf; congruence.
Qed.

(** The address list is released on every path, and a descriptor that
    was opened is still open on return: the code has no call that closes
    it. *)
Lemma udp_create_socket_resources (config : udp_socket_config_t) (w : world) :
  let r := udp_create_socket os config w in
  addrinfo_live r.2 = addrinfo_live w /\
  (open_fds r.2 = open_fds w \/ open_fds r.2 = env_socket os :: open_fds w).
Proof.
  cbv zeta.
  destruct (env_getaddrinfo os) as [ai_list|] eqn:Hga; cycle 1.
  { unfold udp_create_socket, seq, getaddrinfo. rewrite Hga. cbn. auto. }
  destruct (prefer_inet6 ai_list) as [ai|] eqn:Hpick; cycle 1.
  { unfold udp_create_socket, seq, getaddrinfo. rewrite Hga, Hpick. cbn. auto. }
  destruct (Z.eqb_spec (env_socket os) INVALID_SOCKET) as [Hs|Hs].
  { unfold udp_create_socket, seq, getaddrinfo. rewrite Hga, Hpick.
    unfold socket. rewrite Hs. cbn. auto. }
  destruct (Z.eqb_spec (env_ioctl os) 0) as [Hio|Hio]; cycle 1.
  { destruct (udp_create_socket_no_nonblock config w ai_list ai Hga Hpick Hs Hio)
      as (_ & Hfd & Hlive & _).
    auto. }
  rewrite (udp_create_socket_reaches config w ai) by (exists ai_list; auto).
  destruct (before_bind_frame ai w) as (_ & _ & _ & _ & Hfd & Hlive).
  destruct ((port_begin config =? 0) && (port_end config =? 0)).
  - cbv zeta. unfold bind.
    destruct (env_bind os _ _ =? 0); cbn; rewrite Hfd, Hlive; auto.
  - cbv zeta.
    pose proof (bind_in_range_open_fds
                  (Z.to_nat (port_end config - port_begin config))
                  (env_socket os) (ai_addr ai) config (before_bind os ai w)) as Hopen.
    pose proof (bind_in_range_addrinfo_live
                  (Z.to_nat (port_end config - port_begin config))
                  (env_socket os) (ai_addr ai) config (before_bind os ai w)) as Hai.
    destruct (bind_in_range os _ _ _ _ _) as [[s|] w1] eqn:E; cbn [fst snd] in *;
      cbn; rewrite Hai, Hopen, Hfd, Hlive; auto.
Qed.

(** The loop test [retries-- > 0] on the C [int] and on its image under
    [Z.to_nat], which [bind_in_range] recurses on. *)
Lemma retries_post_decrement (retries : Z) :
  (0 <? retries) = true <->
  exists n, Z.to_nat retries = S n /\ Z.to_nat (retries - 1) = n.
Proof.
  rewrite Z.ltb_lt. split.
  - intros Hpos. exists (Z.to_nat (retries - 1)). split; lia.
  - intros (n & Hn & _). lia.
Qed.

(** Once [socket] has returned a descriptor it is open on every return,
    the failing ones included. *)
Lemma udp_create_socket_never_closes (config : udp_socket_config_t) (w : world)
    (ai_list : list addrinfo) (ai : addrinfo) :
  env_getaddrinfo os = Some ai_list ->
  prefer_inet6 ai_list = Some ai ->
  env_socket os <> INVALID_SOCKET ->
  open_fds (udp_create_socket os config w).2 = env_socket os :: open_fds w.
Proof.
  intros Hga Hpick Hs.
  destruct (Z.eqb_spec (env_ioctl os) 0) as [Hio|Hio]; cycle 1.
  { apply (udp_create_socket_no_nonblock config w ai_list ai Hga Hpick Hs Hio). }
  rewrite (udp_create_socket_reaches config w ai) by (exists ai_list; auto).
  destruct (before_bind_frame ai w) as (_ & _ & _ & _ & Hfd & _).
  destruct ((port_begin config =? 0) && (port_end config =? 0)).
  - cbv zeta. unfold bind.
    destruct (env_bind os _ _ =? 0); cbn; exact Hfd.
  - cbv zeta.
    pose proof (bind_in_range_open_fds
                  (Z.to_nat (port_end config - port_begin config))
                  (env_socket os) (ai_addr ai) config (before_bind os ai w)) as Hopen.
    destruct (bind_in_range os _ _ _ _ _) as [[s|] w1]; cbn [fst snd] in *;
      cbn; rewrite Hopen; exact Hfd.
Qed.

(** C5.  With an explicit range [b <= e], not both zero, and the calls
    before [bind] succeeding: if every bind attempt fails with "address in
    use", [udp_create_socket] returns [INVALID_SOCKET] after exactly
    [e - b + 1] attempts; and if, after [j <= e - b] attempts that found the
    address in use, an attempt fails with any other error, it returns
    [INVALID_SOCKET] at once, [j + 1] attempts having been made. *)
Theorem udp_create_socket_range_exhausted (config : udp_socket_config_t)
    (w : world) (ai : addrinfo) :
  reaches_bind os ai ->
  port_begin config <= port_end config ->
  ~ (port_begin config = 0 /\ port_end config = 0) ->
  let r := udp_create_socket os config w in
  ((forall k sa, env_bind os k sa = EADDRINUSE) ->
   r.1 = INVALID_SOCKET /\
   length (bind_log r.2) =
     (length (bind_log w) + Z.to_nat (port_end config - port_begin config + 1))%nat)
  /\
  (forall j : nat,
     Z.of_nat j <= port_end config - port_begin config ->
     (forall (i : nat) sa, (i < j)%nat ->
        env_bind os (length (bind_log w) + i) sa = EADDRINUSE) ->
     (forall sa, env_bind os (length (bind_log w) + j) sa <> 0 /\
                 env_bind os (length (bind_log w) + j) sa <> EADDRINUSE) ->
     r.1 = INVALID_SOCKET /\
     length (bind_log r.2) = (length (bind_log w) + S j)%nat).
Proof.
  intros Hreach Hbe Hnz. cbv zeta.
  rewrite (udp_create_socket_reaches config w ai Hreach).
  assert (Hrange : (port_begin config =? 0) && (port_end config =? 0) = false).
  { apply andb_false_iff.
    destruct (Z.eqb_spec (port_begin config) 0); [|auto].
    destruct (Z.eqb_spec (port_end config) 0); [|auto]. tauto. }
  rewrite Hrange. cbv zeta.
  destruct (before_bind_frame ai w) as (_ & _ & Hlog & _).
  split.
  - intros Hbusy.
    destruct (bind_in_range_exhausted
                (Z.to_nat (port_end config - port_begin config))
                (env_socket os) (ai_addr ai) config (before_bind os ai w))
      as (R1 & R2 & _).
    { intros; apply Hbusy. }
    cbv zeta in R1, R2. rewrite R1. cbn. rewrite R2, Hlog. split; [reflexivity|lia].
  - intros j Hj Hbusy Hother.
    destruct (bind_in_range_abort
                (Z.to_nat (port_end config - port_begin config)) j
                (env_socket os) (ai_addr ai) config (before_bind os ai w))
      as (R1 & R2 & _).
    { lia. }
    { rewrite Hlog. exact Hbusy. }
    { rewrite Hlog. exact Hother. }
    cbv zeta in R1, R2. rewrite R1. cbn. rewrite R2, Hlog. split; reflexivity.
Qed.

(** C6.  With an explicit range [1 <= b <= e <= 65535] and consistent
    answers of [getaddrinfo]: if [udp_create_socket] returns a socket, the
    port [udp_get_port] then reports for it lies in [[b, e]]; and every port
    that [get_next_port_in_range] produces for the range is
    [b + (counter mod (e - b + 1))] and lies in [[b, e]]. *)
Theorem udp_create_socket_port_in_range (config : udp_socket_config_t)
    (w : world) :
  1 <= port_begin config ->
  port_begin config <= port_end config ->
  port_end config <= 65535 ->
  (forall ai_list, env_getaddrinfo os = Some ai_list -> Forall addrinfo_wf ai_list) ->
  let r := udp_create_socket os config w in
  (r.1 <> INVALID_SOCKET ->
   port_begin config <= (udp_get_port r.1 r.2).1 <= port_end config)
  /\
  (forall w0,
     let p := (get_next_port_in_range os (port_begin config) (port_end config) w0).1 in
     p = port_begin config
         + effective_count os w0 mod (port_end config - port_begin config + 1) /\
     port_begin config <= p <= port_end config).
Proof.
  intros Hb Hbe He Hwf. cbv zeta. split; cycle 1.
  { intros w0. split.
    - apply get_next_port_in_range_value; assumption.
    - apply get_next_port_in_range_bounds; assumption. }
  intros Hok.
  destruct (udp_create_socket_not_reached config w) as [[ai Hreach]|[Hinv _]];
    [|contradiction].
  rewrite (udp_create_socket_reaches config w ai Hreach) in *.
  destruct (Z.eqb_spec (port_begin config) 0) as [E|_]; [lia|].
  cbn [andb] in *. cbv zeta in *.
  assert (Hinet : is_inet (ai_addr ai) = true).
  { destruct Hreach as (ai_list & Hga & Hpick & _).
    apply prefer_inet6_Some in Hpick as [Hin Hfam].
    apply addrinfo_wf_is_inet; [|exact Hfam].
    specialize (Hwf ai_list Hga). rewrite Forall_forall in Hwf. auto. }
  pose proof (bind_in_range_success
                (Z.to_nat (port_end config - port_begin config))
                (env_socket os) (ai_addr ai) config (before_bind os ai w)) as Hsucc.
  destruct (bind_in_range os _ _ _ _ _) as [[s|] w1]; cbn [fst snd] in *;
    [|contradiction].
  destruct (Hsucc s Hinet Hb Hbe He eq_refl) as (-> & sa' & Hlook & Hport).
  unfold udp_get_port, seq, getsockname. rewrite Hlook. exact Hport.
Qed.

End CreateSocket.

Lemma udp_create_socket_range_exhausted_witness :
  let r1 := udp_create_socket Examples.host_all_in_use Examples.ports_5000_5002
              initial_world in
  let r2 := udp_create_socket Examples.host_refused Examples.ports_5000_5002
              initial_world in
  (r1.1 = INVALID_SOCKET /\ length (bind_log r1.2) = 3%nat) /\
  (r2.1 = INVALID_SOCKET /\ length (bind_log r2.2) = 2%nat).
Proof.
  assert (Hreach : forall ioctl b r i,
            ioctl = 0 -> reaches_bind (Examples.host ioctl b r i) Examples.ai_inet6).
  { intros ioctl b r i ->. exists [Examples.ai_inet; Examples.ai_inet6].
    repeat split. discriminate. }
  assert (Hle : port_begin Examples.ports_5000_5002 <= port_end Examples.ports_5000_5002)
    by (vm_compute; discriminate).
  assert (Hnz : ~ (port_begin Examples.ports_5000_5002 = 0 /\
                   port_end Examples.ports_5000_5002 = 0))
    by (intros [H _]; discriminate H).
  split.
  - destruct (udp_create_socket_range_exhausted Examples.host_all_in_use
                Examples.ports_5000_5002 initial_world Examples.ai_inet6
                (Hreach _ _ _ _ eq_refl) Hle Hnz) as [Hall _].
    apply Hall. reflexivity.
  - destruct (udp_create_socket_range_exhausted Examples.host_refused
                Examples.ports_5000_5002 initial_world Examples.ai_inet6
                (Hreach _ _ _ _ eq_refl) Hle Hnz) as [_ Hother].
    apply (Hother 1%nat).
    + vm_compute; discriminate.
    + intros i sa Hi. assert (i = 0%nat) as -> by lia. reflexivity.
    + intros sa. split; vm_compute; discriminate.
Defined.

Lemma udp_create_socket_port_in_range_witness :
  let r := udp_create_socket Examples.host_free Examples.ports_5000_5002
             initial_world in
  r.1 <> INVALID_SOCKET /\ 5000 <= (udp_get_port r.1 r.2).1 <= 5002.
Proof.
  assert (Hok : (udp_create_socket Examples.host_free Examples.ports_5000_5002
                   initial_world).1 <> INVALID_SOCKET)
    by (vm_compute; discriminate).
  split; [exact Hok|].
  apply (udp_create_socket_port_in_range Examples.host_free
           Examples.ports_5000_5002 initial_world).
  - vm_compute; discriminate.
  - vm_compute; discriminate.
  - vm_compute; discriminate.
  - intros ai_list [= <-].
    repeat constructor; vm_compute; try discriminate; reflexivity.
  - exact Hok.
Defined.

(** C3.  On the two failing paths that follow the creation of the socket
    the address list is released, but descriptor 3, which [socket]
    returned, is still open when [INVALID_SOCKET] is returned: once when
    non-blocking mode cannot be set, once when the port range is
    exhausted. *)
Theorem udp_create_socket_leaks_socket :
  let r1 := udp_create_socket Examples.host_no_nonblock Examples.ports_any
              initial_world in
  let r2 := udp_create_socket Examples.host_all_in_use Examples.ports_5000_5002
              initial_world in
  (r1.1 = INVALID_SOCKET /\ addrinfo_live r1.2 = 0%nat /\ open_fds r1.2 = [3]) /\
  (r2.1 = INVALID_SOCKET /\ addrinfo_live r2.2 = 0%nat /\ open_fds r2.2 = [3]).
Proof. vm_compute. repeat split. Qed.

(* ===================================================================== *)
(** * Seeding of the port counter                                         *)
(* ===================================================================== *)

Section PortCounter.
Variable os : os_env.

Lemma next_ports_seeded (b e : Z) (n : nat) (w : world) :
  0 < count w -> count w + Z.of_nat n < 4294967296 ->
  rand_calls (next_ports os b e n w).2 = rand_calls w /\
  count (next_ports os b e n w).2 = count w + Z.of_nat n.
Proof.
  revert w. induction n as [|n IH]; intros w Hpos Hlt; cbn [next_ports].
  - cbn. split; [reflexivity|lia].
  - pose proof (get_next_port_in_range_count os b e w) as Hc.
    pose proof (get_next_port_in_range_rand_calls os b e w) as Hr.
    destruct (get_next_port_in_range os b e w) as [p w1]. cbn [fst snd] in *.
    unfold effective_count in Hc.
    destruct (Z.eqb_spec (count w) 0) as [E|_]; [lia|].
    unfold to_uint32 in Hc. rewrite Z.mod_small in Hc by lia.
    destruct (IH w1) as [IH1 IH2]; [lia|lia|].
    destruct (next_ports os b e n w1) as [ps w2]. cbn [fst snd] in *.
    split; [congruence|lia].
Qed.

(** C7 (as amended).  [get_next_port_in_range] takes a seed from
    [juice_rand32] exactly on the calls that find the counter at 0: a call
    that finds it non-zero draws nothing and advances it by one modulo
    2^32; a call that finds it at 0 draws one value and leaves the counter
    at that value plus one modulo 2^32.  Hence, from the first call on and
    as long as the counter does not wrap round, one value is drawn in all
    and the counter stands at the seed plus the number of calls. *)
Theorem get_next_port_in_range_seeding (b e : Z) (w : world) :
  let w' := (get_next_port_in_range os b e w).2 in
  let seed := to_uint32 (env_rand32 os (rand_calls w)) in
  (count w <> 0 ->
   rand_calls w' = rand_calls w /\ count w' = to_uint32 (count w + 1)) /\
  (count w = 0 ->
   rand_calls w' = S (rand_calls w) /\ count w' = to_uint32 (seed + 1)) /\
  (forall n : nat,
     count w = 0 -> (0 < n)%nat -> seed + Z.of_nat n < 4294967296 ->
     rand_calls (next_ports os b e n w).2 = S (rand_calls w) /\
     count (next_ports os b e n w).2 = seed + Z.of_nat n).
Proof.
  cbv zeta.
  pose proof (get_next_port_in_range_count os b e w) as Hc.
  pose proof (get_next_port_in_range_rand_calls os b e w) as Hr.
  unfold effective_count in Hc.
  split; [|split].
  - intros Hne. apply Z.eqb_neq in Hne. rewrite Hne in *. auto.
  - intros He. rewrite He in *. cbn in Hc, Hr. auto.
  - intros n He Hn Hlt. destruct n as [|n]; [lia|]. cbn [next_ports].
    destruct (get_next_port_in_range os b e w) as [p w1]. cbn [fst snd] in *.
    rewrite He in *. cbn in Hc, Hr.
    assert (Hs : 0 <= to_uint32 (env_rand32 os (rand_calls w)) < 4294967296)
      by (apply Z.mod_pos_bound; lia).
    unfold to_uint32 at 1 in Hc. rewrite Z.mod_small in Hc by lia.
    destruct (next_ports_seeded b e n w1) as [N1 N2]; [lia|lia|].
    destruct (next_ports os b e n w1) as [ps w2]. cbn [fst snd] in *.
    split; [congruence|lia].
Qed.

End PortCounter.

Lemma get_next_port_in_range_seeding_witness :
  let w := initial_world in
  let os := Examples.host_free in
  rand_calls (next_ports os 5000 5002 4 w).2 = 1%nat /\
  count (next_ports os 5000 5002 4 w).2 = 11.
Proof.
  apply (get_next_port_in_range_seeding Examples.host_free 5000 5002 initial_world).
  - reflexivity.
  - lia.
  - vm_compute; reflexivity.
Defined.

(** The claim C7 fails when the seed is [0xFFFFFFFF]: the first call leaves
    the counter at 0, and the second call draws a second seed instead of
    advancing the counter by one. *)
Lemma get_next_port_in_range_reseeds :
  let os := Examples.host_seed_max in
  let w1 := (get_next_port_in_range os 1024 2048 initial_world).2 in
  let w2 := (get_next_port_in_range os 1024 2048 w1).2 in
  rand_calls w1 = 1%nat /\
  ~ (rand_calls w2 = rand_calls w1 /\ count w2 = to_uint32 (count w1 + 1)).
Proof.
  vm_compute. split; [reflexivity|]. intros [H _]. discriminate H.
Qed.

(* ===================================================================== *)
(** * Local address                                                       *)
(* ===================================================================== *)

(** C8.  When [getsockname] reports the bound address (a well-formed one),
    [udp_get_local_addr] returns 0 and the record holds that address with
    the address bytes replaced by 127.0.0.1 for IPv4 and by ::1 for IPv6,
    port and other fields kept; when [getsockname] fails it returns -1.
    The world is not changed. *)
Theorem udp_get_local_addr_loopback (sock : Z) (record : addr_record_t) (w : world) :
  let r := udp_get_local_addr sock record w in
  (forall sa, (getsockname sock w).1 = Some sa -> sa_wf sa ->
     r.1.1 = 0 /\
     len r.1.2 = sockaddr_len sa /\
     addr r.1.2 =
       match sa with
       | SockIn sin =>
           SockIn {| sin_port := sin_port sin; sin_addr := in_addr_loopback;
                     sin_zero := sin_zero sin |}
       | SockIn6 sin6 =>
           SockIn6 {| sin6_port := sin6_port sin6;
                      sin6_flowinfo := sin6_flowinfo sin6;
                      sin6_addr := in6_addr_loopback;
                      sin6_scope_id := sin6_scope_id sin6 |}
       | SockOther _ _ => sa
       end)
  /\ ((getsockname sock w).1 = None -> r.1.1 = -1)
  /\ r.2 = w.
Proof.
  cbv zeta. unfold udp_get_local_addr, seq, getsockname, pure. cbn [fst snd].
  split; [|split].
  - intros sa Hsa Hwf. rewrite Hsa.
    destruct sa as [sin|sin6|f d]; cbn [fst snd addr len]; repeat split.
    + destruct Hwf as [Ha _]. destruct sin as [p a z]; cbn in *.
      do 5 (destruct a as [|? a]; try discriminate). reflexivity.
    + cbn in Hwf. destruct sin6 as [p fl a sc]; cbn in *.
      do 17 (destruct a as [|? a]; try discriminate). reflexivity.
  - intros Hnone. rewrite Hnone. reflexivity.
  - destruct (bound w !! sock) as [[sin|sin6|f d]|]; reflexivity.
Qed.

Lemma udp_get_local_addr_loopback_witness :
  let w := (udp_create_socket Examples.host_free Examples.ports_5000_5002
              initial_world).2 in
  let r := udp_get_local_addr 3 {| addr := Examples.any_inet; len := 0 |} w in
  r.1.1 = 0 /\
  len r.1.2 = 28 /\
  addr r.1.2 = SockIn6 {| sin6_port := 5001; sin6_flowinfo := 0;
                          sin6_addr := in6_addr_loopback; sin6_scope_id := 0 |}.
Proof.
  cbv zeta.
  destruct (udp_get_local_addr_loopback 3 {| addr := Examples.any_inet; len := 0 |}
              (udp_create_socket Examples.host_free Examples.ports_5000_5002
                 initial_world).2) as [Hsome _].
  apply (Hsome (SockIn6 {| sin6_port := 5001; sin6_flowinfo := 0;
                           sin6_addr := replicate 16 0; sin6_scope_id := 0 |})).
  - vm_compute. reflexivity.
  - vm_compute. reflexivity.
Defined.

(* ===================================================================== *)
(** * Gathering of host candidates                                        *)
(* ===================================================================== *)

Lemma has_duplicate_addr_app (sa : sockaddr) (acc rest : list addr_record_t) :
  has_duplicate_addr sa (acc ++ rest) (length acc) =
  has_duplicate_addr sa acc (length acc).
Proof.
  induction acc as [|r acc IH]; cbn [app length has_duplicate_addr].
  - destruct rest; reflexivity.
  - rewrite IH. reflexivity.
Qed.

Lemma has_duplicate_addr_nil (sa : sockaddr) (recs : list addr_record_t) :
  has_duplicate_addr sa recs 0 = false.
Proof. destruct recs; reflexivity. Qed.

(** The written part only grows, by stamped candidates, and stays within
    the capacity. *)
Lemma gather_spec_grows (port : Z) (count : nat) (cands : list sockaddr)
    (acc : list addr_record_t) (total : Z) :
  exists new,
    (gather_spec port count cands acc total).1 = acc ++ new /\
    Forall (fun r => exists sa, sa ∈ cands /\ r = stamp sa port) new /\
    ((length acc <= count)%nat -> (length (acc ++ new) <= count)%nat) /\
    total <= (gather_spec port count cands acc total).2 <= total + Z.of_nat (length cands).
Proof.
  revert acc total. induction cands as [|sa cands IH]; intros acc total;
    cbn [gather_spec].
  - exists []. rewrite app_nil_r. cbn. repeat split; auto; lia.
  - destruct (has_duplicate_addr sa acc (length acc)).
    + destruct (IH acc total) as (new & E & Hnew & Hlen & Ht).
      exists new. repeat split; auto; try (cbn [length]; lia).
      eapply Forall_impl; [exact Hnew|]. intros r (sa' & Hin & ->).
      exists sa'. split; [right; exact Hin|reflexivity].
    + destruct (decide (length acc <> count)) as [Hne|Heq].
      * destruct (IH (acc ++ [stamp sa port]) (total + 1)) as (new & E & Hnew & Hlen & Ht).
        exists (stamp sa port :: new). rewrite E, <- app_assoc. cbn [app].
        repeat split; try (cbn [length]; lia).
        -- constructor.
           ++ exists sa. split; [left|reflexivity].
           ++ eapply Forall_impl; [exact Hnew|]. intros r (sa' & Hin & ->).
              exists sa'. split; [right; exact Hin|reflexivity].
        -- intros Hle. rewrite <- app_assoc in Hlen. cbn [app] in Hlen.
           apply Hlen. rewrite length_app. cbn. lia.
      * destruct (IH acc (total + 1)) as (new & E & Hnew & Hlen & Ht).
        exists new. repeat split; auto; try (cbn [length]; lia).
        eapply Forall_impl; [exact Hnew|]. intros r (sa' & Hin & ->).
        exists sa'. split; [right; exact Hin|reflexivity].
Qed.

(** The number of written records is the total, capped by the capacity. *)
Lemma gather_spec_written (port : Z) (count : nat) (cands : list sockaddr)
    (acc : list addr_record_t) (total : Z) :
  Z.of_nat (length acc) = Z.min total (Z.of_nat count) ->
  Z.of_nat (length (gather_spec port count cands acc total).1) =
  Z.min (gather_spec port count cands acc total).2 (Z.of_nat count).
Proof.
  revert acc total. induction cands as [|sa cands IH]; intros acc total Hinv;
    cbn [gather_spec]; [exact Hinv|].
  destruct (has_duplicate_addr sa acc (length acc)); [apply IH; exact Hinv|].
  destruct (decide (length acc <> count)); apply IH.
  - rewrite length_app. cbn [length]. lia.
  - lia.
Qed.

(** Writing [pre] over the beginning of a buffer. *)
Lemma overwrite_length (pre recs : list addr_record_t) :
  (length pre <= length recs)%nat ->
  length (pre ++ drop (length pre) recs) = length recs.
Proof. intros Hle. rewrite length_app, length_drop. lia. Qed.

Lemma overwrite_lookup (pre recs : list addr_record_t) (i : nat) :
  (length pre <= i)%nat -> (pre ++ drop (length pre) recs) !! i = recs !! i.
Proof.
  intros Hle. rewrite lookup_app_r by exact Hle. rewrite lookup_drop.
  f_equal. lia.
Qed.

Lemma overwrite_take (pre recs : list addr_record_t) :
  take (length pre) (pre ++ drop (length pre) recs) = pre.
Proof. rewrite take_app_length. reflexivity. Qed.

Section Gather.
Context `{AddrClass}.

(** The second loop of [udp_get_addrs] on a buffer [acc ++ rest] whose
    first [length acc] records are written, with room for [count] records:
    it does not fault, and it is [gather_spec] on the candidates, the new
    records replacing the beginning of [rest]. *)
Lemma gather_loop_refines (port : Z) (ht : bool) (count : nat)
    (ifas : list ifaddrs) (acc rest : list addr_record_t) (total : Z) :
  (length acc <= count)%nat ->
  (count <= length acc + length rest)%nat ->
  gather_loop port ht count ifas
    {| current := length acc; ret := total; records := acc ++ rest |} =
  let g := gather_spec port count (candidates ht ifas) acc total in
  Some {| current := length g.1; ret := g.2;
          records := g.1 ++ drop (length g.1 - length acc) rest |}.
Proof.
  revert acc rest total.
  induction ifas as [|ifa ifas IH]; intros acc rest total Hacc Hroom;
    cbn [gather_loop candidates].
  - cbn. rewrite Nat.sub_diag. reflexivity.
  - unfold gather_ifa.
    destruct (skip_interface ifa); [cbn; apply IH; assumption|].
    destruct (ifa_addr ifa) as [sa|]; [|cbn; apply IH; assumption].
    destruct (eligible ht sa); [|cbn; apply IH; assumption].
    cbn [records current gather_spec].
    rewrite has_duplicate_addr_app.
    destruct (has_duplicate_addr sa acc (length acc)); cbn [negb];
      [cbn; apply IH; assumption|].
    unfold emit. cbn [current records ret].
    destruct (decide (length acc <> count)) as [Hne|Heq];
      [|cbn; apply IH; assumption].
    destruct rest as [|x rest]; [cbn in Hroom; lia|].
    unfold store. rewrite length_app. cbn [length].
    destruct (decide (length acc < length acc + S (length rest))%nat); [|lia].
    cbn.
    replace (<[length acc := stamp sa port]> (acc ++ x :: rest))
      with ((acc ++ [stamp sa port]) ++ rest).
    2:{ rewrite <- app_assoc. cbn.
        rewrite insert_app_r_alt by lia. rewrite Nat.sub_diag. reflexivity. }
    replace (S (length acc)) with (length (acc ++ [stamp sa port]))
      by (rewrite length_app; cbn; lia).
    rewrite IH by (rewrite length_app; cbn in *; lia).
    cbv zeta.
    destruct (gather_spec_grows port count (candidates ht ifas)
                (acc ++ [stamp sa port]) (total + 1)) as (new & E & _).
    rewrite E. do 2 f_equal. f_equal.
    rewrite !length_app. cbn [length].
    replace (length acc + 1 + length new - length acc)%nat
      with (S (length new)) by lia.
    replace (length acc + 1 + length new - (length acc + 1))%nat
      with (length new) by lia.
    reflexivity.
Qed.

Lemma candidates_elem (ht : bool) (ifas : list ifaddrs) (sa : sockaddr) :
  sa ∈ candidates ht ifas <->
  exists ifa, ifa ∈ ifas /\ skip_interface ifa = false /\
              ifa_addr ifa = Some sa /\ eligible ht sa = true.
Proof.
  induction ifas as [|ifa ifas IH]; cbn [candidates].
  - split; [intros Hin; inversion Hin|intros (ifa & Hin & _); inversion Hin].
  - assert (Hrest : (exists ifa0, ifa0 ∈ ifas /\ skip_interface ifa0 = false /\
                       ifa_addr ifa0 = Some sa /\ eligible ht sa = true) ->
                    exists ifa0, ifa0 ∈ ifa :: ifas /\ skip_interface ifa0 = false /\
                       ifa_addr ifa0 = Some sa /\ eligible ht sa = true).
    { intros (i & Hi & Hr). exists i. split; [right; exact Hi|exact Hr]. }
    destruct (skip_interface ifa) eqn:Eskip.
    { rewrite IH. split; [exact Hrest|].
      intros (i & Hi & Hs & Hr).
      apply elem_of_cons in Hi as [->|Hi]; [congruence|]. exists i; auto. }
    destruct (ifa_addr ifa) as [sa0|] eqn:Eaddr.
    2:{ rewrite IH. split; [exact Hrest|].
        intros (i & Hi & Hs & Ha & Hr).
        apply elem_of_cons in Hi as [->|Hi]; [congruence|]. exists i; auto. }
    destruct (eligible ht sa0) eqn:Eel.
    + rewrite elem_of_cons, IH. split.
      * intros [->|Hex]; [|exact (Hrest Hex)].
        exists ifa. split; [left|auto].
      * intros (i & Hi & Hs & Ha & Hr).
        apply elem_of_cons in Hi as [->|Hi].
        -- left. congruence.
        -- right. exists i; auto.
    + rewrite IH. split; [exact Hrest|].
      intros (i & Hi & Hs & Ha & Hr).
      apply elem_of_cons in Hi as [->|Hi]; [congruence|]. exists i; auto.
Qed.

(** The first loop finds a temporary address exactly when an interface
    that is up and not loopback has one, wherever it is in the list. *)
Lemma scan_temp_inet6_true (ifas : list ifaddrs) :
  scan_temp_inet6 ifas = true <->
  exists ifa sa, ifa ∈ ifas /\ skip_interface ifa = false /\
                 ifa_addr ifa = Some sa /\ addr_is_temp_inet6 sa = true.
Proof.
  induction ifas as [|ifa ifas IH]; cbn [scan_temp_inet6].
  - split; [discriminate|intros (ifa & sa & Hin & _); inversion Hin].
  - assert (Hrest : (exists ifa0 sa, ifa0 ∈ ifas /\ skip_interface ifa0 = false /\
                       ifa_addr ifa0 = Some sa /\ addr_is_temp_inet6 sa = true) ->
                    exists ifa0 sa, ifa0 ∈ ifa :: ifas /\ skip_interface ifa0 = false /\
                       ifa_addr ifa0 = Some sa /\ addr_is_temp_inet6 sa = true).
    { intros (i & sa & Hi & Hr). exists i, sa. split; [right; exact Hi|exact Hr]. }
    destruct (skip_interface ifa) eqn:Eskip.
    { rewrite IH. split; [exact Hrest|].
      intros (i & sa & Hi & Hs & Hr).
      apply elem_of_cons in Hi as [->|Hi]; [congruence|]. exists i, sa; auto. }
    destruct (ifa_addr ifa) as [sa0|] eqn:Eaddr.
    2:{ rewrite IH. split; [exact Hrest|].
        intros (i & sa & Hi & Hs & Ha & Hr).
        apply elem_of_cons in Hi as [->|Hi]; [congruence|]. exists i, sa; auto. }
    destruct (addr_is_temp_inet6 sa0) eqn:Etemp.
    + split; [|reflexivity]. intros _. exists ifa, sa0. split; [left|auto].
    + rewrite IH. split; [exact Hrest|].
      intros (i & sa & Hi & Hs & Ha & Hr).
      apply elem_of_cons in Hi as [->|Hi]; [congruence|]. exists i, sa; auto.
Qed.

(** [udp_get_addrs] on a buffer with room for [count] records. *)
Lemma udp_get_addrs_refines (os : os_env) (localhost : bool) (sock : Z)
    (recs : list addr_record_t) (count : nat) (w : world) :
  (count <= length recs)%nat ->
  (udp_get_addrs os localhost sock recs count w).1 =
  let port := (udp_get_port sock w).1 in
  if port =? 0 then Some (-1, recs)
  else
    let l := localhost_spec localhost port count in
    match env_getifaddrs os with
    | None => Some (-1, l ++ drop (length l) recs)
    | Some ifas =>
        let g := gather_spec port count (candidates (scan_temp_inet6 ifas) ifas)
                   l (Z.of_nat (length l)) in
        Some (g.2, g.1 ++ drop (length g.1) recs)
    end.
Proof.
  intros Hroom. unfold udp_get_addrs, seq. cbv zeta.
  destruct (udp_get_port sock w) as [port w1] eqn:Eport. cbn [fst snd].
  destruct (port =? 0); [reflexivity|].
  assert (Hst1 :
    (if localhost
     then st ← add_localhost count (localhost_inet6 port)
                 {| current := 0; ret := 0; records := recs |};
          add_localhost count (localhost_inet port) st
     else Some {| current := 0; ret := 0; records := recs |}) =
    Some {| current := length (localhost_spec localhost port count);
            ret := Z.of_nat (length (localhost_spec localhost port count));
            records := localhost_spec localhost port count
                       ++ drop (length (localhost_spec localhost port count)) recs |}).
  { unfold localhost_spec. destruct localhost; [|reflexivity].
    destruct count as [|[|count]].
    - reflexivity.
    - destruct recs as [|x recs]; [cbn in Hroom; lia|].
      unfold add_localhost, emit, store; cbn.
      repeat (case_decide; try lia; cbn). reflexivity.
    - destruct recs as [|x [|y recs]]; try (cbn in Hroom; lia).
      unfold add_localhost, emit, store; cbn.
      repeat (case_decide; try lia; cbn).
      rewrite take_nil. reflexivity. }
  rewrite Hst1. clear Hst1.
  set (l := localhost_spec localhost port count).
  assert (Hl : (length l <= count)%nat).
  { unfold l, localhost_spec. destruct localhost; [|cbn; lia].
    rewrite length_take. lia. }
  unfold getifaddrs. destruct (env_getifaddrs os) as [ifas|]; [|reflexivity].
  rewrite gather_loop_refines; [|exact Hl|rewrite length_drop; lia].
  cbv zeta. unfold freeifaddrs, pure. cbn [fst snd ret records].
  destruct (gather_spec_grows port count (candidates (scan_temp_inet6 ifas) ifas)
              l (Z.of_nat (length l))) as (new & E & _).
  rewrite E. do 3 f_equal. rewrite drop_drop. f_equal.
  rewrite length_app. lia.
Qed.

End Gather.

(* ===================================================================== *)
(** * Properties of the gathered candidates                               *)
(* ===================================================================== *)



(** With no room at all every candidate is counted and none is compared. *)
Lemma gather_spec_no_room (port : Z) (cands : list sockaddr) (total : Z) :
  gather_spec port 0 cands [] total = ([], total + Z.of_nat (length cands)).
Proof.
  revert total. induction cands as [|sa cands IH]; intros total;
    cbn [gather_spec length].
  - f_equal. lia.
  - cbn. rewrite IH. f_equal. lia.
Qed.



(** The defect behind C2: an IPv4 address is not recognised in its own
    stamped record as soon as the port stamped differs from the port field
    of the address. *)
Lemma has_duplicate_addr_inet_stamped (s : sockaddr_in) (port : Z) :
  0 <= sin_port s < 65536 -> 0 <= port < 65536 -> sin_port s <> port ->
  has_duplicate_addr (SockIn s) [stamp (SockIn s) port] 1 = false.
Proof.
  intros Hp Hq Hne. cbn [has_duplicate_addr stamp addr len addr_set_port addr_get_len sa_family].
  rewrite Z.eqb_refl. unfold memcmp_eq.
  rewrite bool_decide_eq_false_2; [reflexivity|].
  cbn. intros Heq.
  change (Z.to_nat sizeof_sockaddr_in) with 16%nat in Heq. cbn [take] in Heq.
  injection Heq as H1 H2.
  apply Hne.
  rewrite (Z.div_mod (sin_port s) 256), (Z.div_mod port 256) by lia.
  rewrite (Z.mod_small (port / 256)) in H1
    by (split; [apply Z.div_pos; lia | apply Z.div_lt_upper_bound; lia]).
  rewrite (Z.mod_small (sin_port s / 256)) in H1
    by (split; [apply Z.div_pos; lia | apply Z.div_lt_upper_bound; lia]).
  congruence.
Qed.

Section GatherClaims.
Context `{AddrClass}.

(** C10.  On a buffer that has room for [count] records, [udp_get_addrs]
    makes no store outside the buffer, leaves every slot at an index of
    [count] or more as it was, and, when it returns a total, has written
    only below the smaller of the total and [count]. *)
Theorem udp_get_addrs_bounded (os : os_env) (localhost : bool) (sock : Z)
    (recs : list addr_record_t) (count : nat) (w : world) :
  (count <= length recs)%nat ->
  exists rv recs',
    (udp_get_addrs os localhost sock recs count w).1 = Some (rv, recs') /\
    length recs' = length recs /\
    (forall i, (count <= i)%nat -> recs' !! i = recs !! i) /\
    (0 <= rv ->
     forall i, (Nat.min (Z.to_nat rv) count <= i)%nat -> recs' !! i = recs !! i).
Proof.
  intros Hroom. rewrite udp_get_addrs_refines by exact Hroom. cbv zeta.
  destruct (_ =? 0).
  { exists (-1), recs. repeat split; auto. }
  set (port := (udp_get_port sock w).1).
  set (l := localhost_spec localhost port count).
  assert (Hl : (length l <= count)%nat).
  { unfold l, localhost_spec. destruct localhost; [|cbn; lia].
    rewrite length_take. lia. }
  destruct (env_getifaddrs os) as [ifas|].
  - destruct (gather_spec_grows port count (candidates (scan_temp_inet6 ifas) ifas)
                l (Z.of_nat (length l))) as (new & E & _ & Hlen & Ht).
    pose proof (gather_spec_written port count (candidates (scan_temp_inet6 ifas) ifas)
                  l (Z.of_nat (length l))) as Hw.
    specialize (Hlen Hl). rewrite <- E in Hlen.
    eexists _, _. split; [reflexivity|]. split; [|split].
    + apply overwrite_length. lia.
    + intros i Hi. apply overwrite_lookup. lia.
    + intros Hrv i Hi. apply overwrite_lookup. lia.
  - exists (-1), (l ++ drop (length l) recs). split; [reflexivity|]. split; [|split].
    + apply overwrite_length. lia.
    + intros i Hi. apply overwrite_lookup. lia.
    + lia.
Qed.

(** C4 (as amended).  When an interface that is up and not loopback
    carries a temporary IPv6 address, wherever in the list it stands, the
    first loop reports it before the second loop starts, and every IPv6
    record that [udp_get_addrs] writes is the stamped copy of a temporary
    IPv6 address of such an interface, with one exception: in a build with
    [JUICE_ENABLE_ADDRS_LOCALHOST] the synthetic record of ::1 stands
    first in the buffer.  No other IPv6 address is emitted. *)
Theorem udp_get_addrs_privacy (os : os_env) (localhost : bool) (sock : Z)
    (recs : list addr_record_t) (count : nat) (w : world)
    (ifas : list ifaddrs) (rv : Z) (recs' : list addr_record_t) :
  (count <= length recs)%nat ->
  env_getifaddrs os = Some ifas ->
  (exists ifa sa, ifa ∈ ifas /\ skip_interface ifa = false /\
                  ifa_addr ifa = Some sa /\ addr_is_temp_inet6 sa = true) ->
  (udp_get_addrs os localhost sock recs count w).1 = Some (rv, recs') ->
  scan_temp_inet6 ifas = true /\
  forall r, r ∈ emitted rv count recs' -> sa_family (addr r) = AF_INET6 ->
    (localhost = true /\ r = localhost_inet6 (udp_get_port sock w).1 /\
     recs' !! 0%nat = Some r) \/
    exists ifa sa, ifa ∈ ifas /\ skip_interface ifa = false /\
                   ifa_addr ifa = Some sa /\ addr_is_temp_inet6 sa = true /\
                   r = stamp sa (udp_get_port sock w).1.
Proof.
  intros Hroom Hifas Htemp Hrun.
  apply scan_temp_inet6_true in Htemp. split; [exact Htemp|].
  rewrite udp_get_addrs_refines in Hrun by exact Hroom. cbv zeta in Hrun.
  unfold emitted.
  destruct (_ =? 0).
  { injection Hrun as <- <-. cbn. intros r Hr. inversion Hr. }
  rewrite Hifas, Htemp in Hrun.
  set (port := (udp_get_port sock w).1) in *.
  set (l := localhost_spec localhost port count) in *.
  assert (Hl : (length l <= count)%nat).
  { unfold l, localhost_spec. destruct localhost; [|cbn; lia].
    rewrite length_take. lia. }
  destruct (gather_spec_grows port count (candidates true ifas) l
              (Z.of_nat (length l))) as (new & E & Hnew & _).
  pose proof (gather_spec_written port count (candidates true ifas) l
                (Z.of_nat (length l)) ltac:(lia)) as Hw.
  injection Hrun as <- <-.
  replace (Nat.min _ count)
    with (length (gather_spec port count (candidates true ifas) l
                    (Z.of_nat (length l))).1) by lia.
  rewrite overwrite_take, E.
  intros r Hr Hfam. apply elem_of_app in Hr as [Hr|Hr].
  - left. unfold l, localhost_spec in Hr, E |- *.
    destruct localhost; [|inversion Hr].
    split; [reflexivity|].
    assert (Hr6 : r = localhost_inet6 port /\ (0 < count)%nat).
    { destruct count as [|[|c]]; cbn [take] in Hr; rewrite ?take_nil in Hr.
      - inversion Hr.
      - apply list_elem_of_singleton in Hr. split; [exact Hr|lia].
      - apply elem_of_cons in Hr as [->|Hr]; [split; [reflexivity|lia]|].
        apply list_elem_of_singleton in Hr. subst r. discriminate Hfam. }
    destruct Hr6 as [-> Hc]. split; [reflexivity|].
    destruct count as [|c]; [lia|]. reflexivity.
  - right. rewrite Forall_forall in Hnew.
    destruct (Hnew r Hr) as (sa & Hsa & ->).
    apply candidates_elem in Hsa as (ifa & Hin & Hskip & Haddr & Hel).
    exists ifa, sa. repeat split; auto.
    unfold eligible in Hel.
    assert (Hf : sa_family sa = AF_INET6) by (destruct sa; exact Hfam).
    rewrite Hf in Hel. cbn in Hel.
    destruct (addr_is_temp_inet6 sa); [reflexivity|].
    destruct (addr_is_local sa); cbn in Hel; discriminate.
Qed.


End GatherClaims.

Lemma udp_get_addrs_bounded_witness :
  exists rv recs',
    (udp_get_addrs (H := Examples.classes) (Examples.host_ifas Examples.ifas_privacy)
       true 3 (replicate 3 Examples.blank) 2 Examples.bound_world).1
      = Some (rv, recs') /\
    length recs' = 3%nat /\
    (forall i, (2 <= i)%nat -> recs' !! i = replicate 3 Examples.blank !! i) /\
    (0 <= rv ->
     forall i, (Nat.min (Z.to_nat rv) 2 <= i)%nat ->
       recs' !! i = replicate 3 Examples.blank !! i).
Proof.
  apply (udp_get_addrs_bounded (H := Examples.classes)
           (Examples.host_ifas Examples.ifas_privacy) true 3
           (replicate 3 Examples.blank) 2 Examples.bound_world).
  vm_compute. lia.
Defined.

Lemma udp_get_addrs_privacy_witness :
  (udp_get_addrs (H := Examples.classes) (Examples.host_ifas Examples.ifas_privacy)
     true 3 (replicate 4 Examples.blank) 4 Examples.bound_world).1
    = Some (4, [localhost_inet6 5001; localhost_inet 5001;
                stamp (Examples.inet 192 168 1 5) 5001;
                stamp Examples.inet6_temp 5001]) /\
  scan_temp_inet6 (H := Examples.classes) Examples.ifas_privacy = true /\
  forall r,
    r ∈ emitted 4 4 [localhost_inet6 5001; localhost_inet 5001;
                     stamp (Examples.inet 192 168 1 5) 5001;
                     stamp Examples.inet6_temp 5001] ->
    sa_family (addr r) = AF_INET6 ->
    (true = true /\ r = localhost_inet6 (udp_get_port 3 Examples.bound_world).1 /\
     [localhost_inet6 5001; localhost_inet 5001;
      stamp (Examples.inet 192 168 1 5) 5001;
      stamp Examples.inet6_temp 5001] !! 0%nat = Some r) \/
    exists ifa sa,
      ifa ∈ Examples.ifas_privacy /\ skip_interface ifa = false /\
      ifa_addr ifa = Some sa /\
      addr_is_temp_inet6 (AddrClass := Examples.classes) sa = true /\
      r = stamp sa (udp_get_port 3 Examples.bound_world).1.
Proof.
  split; [vm_compute; reflexivity|].
  apply (udp_get_addrs_privacy (H := Examples.classes)
           (Examples.host_ifas Examples.ifas_privacy) true 3
           (replicate 4 Examples.blank) 4 Examples.bound_world
           Examples.ifas_privacy 4).
  - vm_compute. lia.
  - reflexivity.
  - exists (Examples.eth Examples.inet6_temp), Examples.inet6_temp.
    split; [|repeat split]. unfold Examples.ifas_privacy.
    do 3 apply list_elem_of_further. apply list_elem_of_here.
  - vm_compute. reflexivity.
Defined.

(** The claim C4 fails in a build with [JUICE_ENABLE_ADDRS_LOCALHOST]: an
    interface carries a temporary IPv6 address, and the record of ::1,
    an IPv6 address that is not temporary and is not that address, is
    written, first in the buffer. *)
Lemma udp_get_addrs_emits_loopback_inet6 :
  let run := (udp_get_addrs (H := Examples.classes)
                (Examples.host_ifas Examples.ifas_privacy) true 3
                (replicate 4 Examples.blank) 4 Examples.bound_world).1 in
  scan_temp_inet6 (H := Examples.classes) Examples.ifas_privacy = true /\
  run = Some (4, [localhost_inet6 5001; localhost_inet 5001;
                  stamp (Examples.inet 192 168 1 5) 5001;
                  stamp Examples.inet6_temp 5001]) /\
  sa_family (addr (localhost_inet6 5001)) = AF_INET6 /\
  addr_is_temp_inet6 (AddrClass := Examples.classes)
    (addr (localhost_inet6 5001)) = false /\
  addr_is_temp_inet6 (AddrClass := Examples.classes) Examples.inet6_temp = true /\
  localhost_inet6 5001 <> stamp Examples.inet6_temp 5001.
Proof. vm_compute. repeat split. discriminate. Qed.



(** C2.  One IPv4 address reported for two interfaces, on a socket bound to
    port 5001 and a buffer of two records: both are written, and the two
    records are equal. *)
Theorem udp_get_addrs_emits_inet_twice :
  (udp_get_addrs (H := Examples.classes) (Examples.host_ifas Examples.ifas_same_inet)
     false 3 (replicate 2 Examples.blank) 2 Examples.bound_world).1
  = Some (2, [stamp (Examples.inet 192 168 1 5) 5001;
              stamp (Examples.inet 192 168 1 5) 5001]).
Proof. vm_compute. reflexivity. Qed.

(* ===================================================================== *)
(** * De-duplication of IPv6 records                                      *)
(* ===================================================================== *)

Lemma has_duplicate_addr_inet6_false (a : sockaddr_in6) (acc : list addr_record_t) :
  has_duplicate_addr (SockIn6 a) acc (length acc) = false ->
  forall r rs, r ∈ acc -> addr r = SockIn6 rs ->
    take 8 (sin6_addr rs) <> take 8 (sin6_addr a).
Proof.
  induction acc as [|x acc IH]; cbn [length has_duplicate_addr];
    intros Hdup r rs Hin Hr.
  - inversion Hin.
  - apply elem_of_cons in Hin as [->|Hin].
    + rewrite Hr in Hdup. cbn in Hdup.
      destruct (memcmp_eq (sin6_addr rs) (sin6_addr a) 8) eqn:E; [discriminate|].
      unfold memcmp_eq in E. apply bool_decide_eq_false in E. exact E.
    + apply (fun Hd => IH Hd r rs Hin Hr).
      destruct (sa_family (addr x) =? sa_family (SockIn6 a)); [|exact Hdup].
      destruct (addr x) as [s|s|f d]; try exact Hdup.
      destruct (memcmp_eq (sin6_addr s) (sin6_addr a) 8); [discriminate|exact Hdup].
Qed.

Lemma inet6_prefixes_differ_snoc (acc : list addr_record_t) (new : addr_record_t) :
  inet6_prefixes_differ acc ->
  (forall r rs s, r ∈ acc -> addr r = SockIn6 rs -> addr new = SockIn6 s ->
     take 8 (sin6_addr rs) <> take 8 (sin6_addr s)) ->
  inet6_prefixes_differ (acc ++ [new]).
Proof.
  intros Hacc Hnew i j r1 r2 s1 s2 Hij H1 H2 A1 A2.
  destruct (decide (j < length acc)%nat) as [Hj|Hj].
  - rewrite lookup_app_l in H1, H2 by lia.
    exact (Hacc i j r1 r2 s1 s2 Hij H1 H2 A1 A2).
  - rewrite lookup_app_r in H2 by lia.
    destruct (j - length acc)%nat as [|k] eqn:Ek; [|destruct k; discriminate].
    injection H2 as <-.
    rewrite lookup_app_l in H1 by lia.
    apply (Hnew r1 s1 s2); [|exact A1|exact A2].
    apply list_elem_of_lookup. exists i. exact H1.
Qed.

(** The loop keeps the prefixes of the written IPv6 records apart. *)
Lemma gather_spec_inet6 (port : Z) (count : nat) (cands : list sockaddr)
    (acc : list addr_record_t) (total : Z) :
  inet6_prefixes_differ acc ->
  inet6_prefixes_differ (gather_spec port count cands acc total).1.
Proof.
  revert acc total. induction cands as [|sa cands IH]; intros acc total Hacc;
    cbn [gather_spec]; [exact Hacc|].
  destruct (has_duplicate_addr sa acc (length acc)) eqn:Hdup; [apply IH; exact Hacc|].
  destruct (decide (length acc <> count)); [|apply IH; exact Hacc].
  apply IH. apply inet6_prefixes_differ_snoc; [exact Hacc|].
  intros r rs s Hr Ar As.
  destruct sa as [a|a|f d]; cbn in As; try discriminate.
  injection As as <-. cbn [sin6_addr].
  exact (has_duplicate_addr_inet6_false a acc Hdup r rs Hr Ar).
Qed.

Lemma localhost_spec_inet6 (localhost : bool) (port : Z) (count : nat) :
  inet6_prefixes_differ (localhost_spec localhost port count).
Proof.
  intros i j r1 r2 s1 s2 Hij H1 H2 A1 A2. unfold localhost_spec in *.
  destruct localhost; [|rewrite lookup_nil in H1; discriminate].
  apply lookup_take_Some in H2 as [H2 _].
  destruct j as [|[|j]]; [lia| |discriminate].
  injection H2 as <-. discriminate A2.
Qed.

(** The IPv6 half of the de-duplication invariant: among the records a
    call has written, two IPv6 records never share their leading 64
    bits. *)
Lemma udp_get_addrs_inet6_prefixes `{AddrClass} (os : os_env) (localhost : bool)
    (sock : Z) (recs : list addr_record_t) (count : nat) (w : world)
    (rv : Z) (recs' : list addr_record_t) :
  (count <= length recs)%nat ->
  (udp_get_addrs os localhost sock recs count w).1 = Some (rv, recs') ->
  inet6_prefixes_differ (emitted rv count recs').
Proof.
  intros Hroom Hrun.
  rewrite udp_get_addrs_refines in Hrun by exact Hroom. cbv zeta in Hrun.
  unfold emitted.
  assert (Hnil : inet6_prefixes_differ []).
  { intros i j r1 r2 s1 s2 _ H1. rewrite lookup_nil in H1. discriminate. }
  destruct (_ =? 0); [injection Hrun as <- <-; exact Hnil|].
  set (port := (udp_get_port sock w).1) in *.
  set (l := localhost_spec localhost port count) in *.
  assert (Hl : (length l <= count)%nat).
  { unfold l, localhost_spec. destruct localhost; [|cbn; lia].
    rewrite length_take. lia. }
  destruct (env_getifaddrs os) as [ifas|];
    [|injection Hrun as <- <-; exact Hnil].
  pose proof (gather_spec_written port count (candidates (scan_temp_inet6 ifas) ifas)
                l (Z.of_nat (length l)) ltac:(lia)) as Hw.
  pose proof (gather_spec_inet6 port count (candidates (scan_temp_inet6 ifas) ifas)
                l (Z.of_nat (length l)) (localhost_spec_inet6 localhost port count))
    as Hdiff.
  injection Hrun as <- <-.
  replace (Nat.min _ count)
    with (length (gather_spec port count (candidates (scan_temp_inet6 ifas) ifas)
                    l (Z.of_nat (length l))).1) by lia.
  rewrite overwrite_take. exact Hdiff.
Qed.

(* ===================================================================== *)
(** * Logging                                                             *)
(* ===================================================================== *)

Lemma append_cons (x : ascii) (a b : string) :
  String x a +:+ b = String x (a +:+ b).
Proof. reflexivity. Qed.

Lemma append_assoc (a b c : string) : (a +:+ b) +:+ c = a +:+ (b +:+ c).
Proof.
  induction a as [|x a IH]; [reflexivity|].
  rewrite !append_cons, IH. reflexivity.
Qed.

Lemma append_length (a b : string) :
  String.length (a +:+ b) = (String.length a + String.length b)%nat.
Proof.
  induction a as [|x a IH]; [reflexivity|].
  rewrite append_cons. cbn [String.length]. rewrite IH. reflexivity.
Qed.

Lemma substring_length_le (n : nat) (s : string) :
  (String.length (String.substring 0 n s) <= n)%nat.
Proof.
  revert s. induction n as [|n IH]; intros s; destruct s as [|c s]; cbn; try lia.
  specialize (IH s). lia.
Qed.

Lemma substring_length_whole (n : nat) (s : string) :
  (String.length (String.substring 0 n s) <= String.length s)%nat.
Proof.
  revert s. induction n as [|n IH]; intros s; destruct s as [|c s]; cbn; try lia.
  specialize (IH s). lia.
Qed.

Lemma is_digit_digit (d : Z) : 0 <= d <= 9 -> is_digit (digit d) = true.
Proof.
  intros Hd. unfold is_digit, digit.
  rewrite nat_ascii_embedding by lia.
  apply andb_true_iff. split; apply Nat.leb_le; lia.
Qed.

Lemma log_timestamp_shape (lt : tm) : tm_valid lt -> hms_shape (log_timestamp lt) = true.
Proof.
  intros (Hh & Hm & Hs).
  assert (E : log_timestamp lt =
              String (digit (tm_hour lt / 10)) (String (digit (tm_hour lt mod 10))
              (String ":" (String (digit (tm_min lt / 10))
              (String (digit (tm_min lt mod 10)) (String ":"
              (String (digit (tm_sec lt / 10))
              (String (digit (tm_sec lt mod 10)) ""))))))))
    by reflexivity.
  rewrite E. cbn [hms_shape].
  rewrite !is_digit_digit;
    try (split; [apply Z.div_pos; lia | apply Z.div_le_upper_bound; lia]);
    try (pose proof (Z.mod_pos_bound (tm_hour lt) 10);
         pose proof (Z.mod_pos_bound (tm_min lt) 10);
         pose proof (Z.mod_pos_bound (tm_sec lt) 10); lia).
  reflexivity.
Qed.

(** C9 (as amended).  A log call at or above the level filter, at one of
    the six levels, with no callback installed and a valid local time,
    appends to the standard output one line: the colour code when the
    output is a terminal, the time stamp of the form [HH:MM:SS], the level
    name in a field of seven, file name and line, then the whole formatted
    message whatever its length, the colour reset when the output is a
    terminal, and a line feed.  Nothing else changes. *)
Theorem juice_log_write_stdout (env : log_env) (level : Z) (file : string)
    (line : Z) (formatted : string) (st : log_state) :
  log_level st <= level ->
  0 <= level <= 5 ->
  log_cb st = None ->
  tm_valid (env_localtime env) ->
  exists name color st',
    log_level_names !! Z.to_nat level = Some name /\
    (if env_isatty env then log_level_colors !! Z.to_nat level else Some "")
      = Some color /\
    hms_shape (log_timestamp (env_localtime env)) = true /\
    juice_log_write env level file line formatted st = Some st' /\
    stdout st' =
      stdout st +:+ color +:+ log_timestamp (env_localtime env) +:+ " "
      +:+ pad_right 7 name +:+ " " +:+ log_filename file +:+ ":" +:+ pretty line
      +:+ ": " +:+ formatted
      +:+ (if env_isatty env then ESC +:+ "[0m" +:+ ESC +:+ "[0K" else "")
      +:+ LF /\
    log_level st' = log_level st /\ log_cb st' = log_cb st /\
    cb_calls st' = cb_calls st.
Proof.
  intros Hlevel Hrange Hcb Htm.
  assert (Hname : exists name color,
            log_level_names !! Z.to_nat level = Some name /\
            (if env_isatty env then log_level_colors !! Z.to_nat level else Some "")
              = Some color).
  { assert (Hl : level = 0 \/ level = 1 \/ level = 2 \/ level = 3 \/
                 level = 4 \/ level = 5) by lia.
    destruct (env_isatty env);
      destruct Hl as [->|[->|[->|[->|[->| ->]]]]]; cbn; eauto. }
  destruct Hname as (name & color & Hn & Hc).
  exists name, color.
  unfold juice_log_write.
  destruct (Z.ltb_spec level (log_level st)) as [Hlt|_]; [lia|].
  rewrite Hcb. fold (log_filename file).
  unfold strftime_HMS. fold (log_timestamp (env_localtime env)).
  assert (Hlen : String.length (log_timestamp (env_localtime env)) = 8%nat)
    by reflexivity.
  rewrite Hlen. cbn [decide_rel].
  destruct (decide (8 < 16)%nat) as [_|Hbad]; [|lia].
  destruct (decide (8 = 0)%nat) as [Hbad|_]; [lia|].
  destruct (Z.leb_spec 0 level) as [_|Hbad]; [|lia].
  destruct (Z.ltb_spec level 6) as [_|Hbad]; [|lia].
  cbn [andb]. rewrite Hc, Hn. cbn [mbind option_bind].
  eexists. split; [reflexivity|]. split; [reflexivity|].
  split; [exact (log_timestamp_shape _ Htm)|].
  split; [reflexivity|].
  split; [|repeat split; try reflexivity; exact Hcb].
  cbn [stdout fprintf_stdout]. rewrite !append_assoc. reflexivity.
Qed.

Lemma juice_log_write_stdout_witness :
  exists name color st',
    log_level_names !! Z.to_nat JUICE_LOG_LEVEL_ERROR = Some name /\
    (if env_isatty Examples.log_env_plain
     then log_level_colors !! Z.to_nat JUICE_LOG_LEVEL_ERROR else Some "")
      = Some color /\
    hms_shape (log_timestamp (env_localtime Examples.log_env_plain)) = true /\
    juice_log_write Examples.log_env_plain JUICE_LOG_LEVEL_ERROR "src/udp.c" 62
      "UDP socket creation failed" initial_log_state = Some st' /\
    stdout st' =
      stdout initial_log_state +:+ color
      +:+ log_timestamp (env_localtime Examples.log_env_plain) +:+ " "
      +:+ pad_right 7 name +:+ " " +:+ log_filename "src/udp.c" +:+ ":"
      +:+ pretty 62 +:+ ": " +:+ "UDP socket creation failed"
      +:+ (if env_isatty Examples.log_env_plain
           then ESC +:+ "[0m" +:+ ESC +:+ "[0K" else "")
      +:+ LF /\
    log_level st' = log_level initial_log_state /\
    log_cb st' = log_cb initial_log_state /\
    cb_calls st' = cb_calls initial_log_state.
Proof.
  apply (juice_log_write_stdout Examples.log_env_plain JUICE_LOG_LEVEL_ERROR
           "src/udp.c" 62 "UDP socket creation failed" initial_log_state).
  - vm_compute. discriminate.
  - vm_compute. split; discriminate.
  - reflexivity.
  - vm_compute. repeat split; discriminate.
Defined.

(** The claim C9 fails for a message of 5000 letters: without a callback
    the line written to the standard output holds all of them and is 5028
    bytes long, more than the 4096 bytes of the formatting buffer. *)
Lemma juice_log_write_stdout_not_truncated :
  let out := stdout <$> juice_log_write Examples.log_env_plain JUICE_LOG_LEVEL_WARN
                          "src/udp.c" 148 (Examples.letters 5000)
                          initial_log_state in
  out = Some ("12:34:56 WARN    udp.c:148: " +:+ Examples.letters 5000 +:+ LF) /\
  ~ (forall s, out = Some s -> Z.of_nat (String.length s) <= BUFFER_SIZE).
Proof.
  cbv zeta. split; [vm_compute; reflexivity|].
  intros Hle.
  specialize (Hle _ eq_refl). vm_compute in Hle. apply Hle. reflexivity.
Qed.

(** With a callback installed and a prefix that fits, the message handed
    to the callback is cut to the formatting buffer, and the standard
    output is not written. *)
Lemma juice_log_write_callback_truncated (env : log_env) (level : Z)
    (file : string) (line : Z) (formatted : string) (st : log_state) (cb : nat) :
  log_level st <= level ->
  log_cb st = Some cb ->
  let prefix := log_filename file +:+ ":" +:+ pretty line +:+ ": " in
  Z.of_nat (String.length prefix) < BUFFER_SIZE ->
  exists message,
    juice_log_write env level file line formatted st
      = Some (call_cb cb level message st) /\
    Z.of_nat (String.length message) < BUFFER_SIZE.
Proof.
  intros Hlevel Hcb prefix Hfit.
  unfold juice_log_write.
  destruct (Z.ltb_spec level (log_level st)) as [Hlt|_]; [lia|].
  rewrite Hcb. fold (log_filename file). fold prefix. cbv zeta.
  destruct (Z.geb_spec (Z.of_nat (String.length prefix)) 0) as [_|Hbad]; [|lia].
  destruct (Z.leb_spec (Z.of_nat (String.length prefix)) BUFFER_SIZE) as [_|Hbad];
    [|lia].
  eexists. split; [reflexivity|].
  rewrite append_length. unfold c_trunc.
  destruct (Z.leb_spec BUFFER_SIZE 0) as [Hbad|_]; [unfold BUFFER_SIZE in Hbad; lia|].
  destruct (Z.leb_spec (BUFFER_SIZE - Z.of_nat (String.length prefix)) 0) as [Hbad|_];
    [lia|].
  pose proof (substring_length_le (Z.to_nat (BUFFER_SIZE - 1)) prefix).
  pose proof (substring_length_le
                (Z.to_nat (BUFFER_SIZE - Z.of_nat (String.length prefix) - 1))
                formatted).
  pose proof (substring_length_whole (Z.to_nat (BUFFER_SIZE - 1)) prefix).
  lia.
Qed.

(* ===================================================================== *)
(** * Further properties: the port allocator                              *)
(* ===================================================================== *)

(** X1.  For any two 16-bit bounds, after the defaults (1024 for a zero
    begin, 65535 for a zero end) the port lies between the begin and the
    larger of begin and end; it is never 0 and fits 16 bits; and when the
    end is not above the begin it is the begin itself. *)
Theorem get_next_port_in_range_any (os : os_env) (b e : Z) (w : world) :
  0 <= b <= 65535 -> 0 <= e <= 65535 ->
  let p := (get_next_port_in_range os b e w).1 in
  range_begin b <= p <= Z.max (range_begin b) (range_end e) /\
  1 <= p <= 65535 /\
  (range_end e <= range_begin b -> p = range_begin b).
Proof.
  intros Hb He. cbv zeta. rewrite get_next_port_in_range_eq. cbn [fst].
  fold (range_begin b). fold (range_end e).
  assert (Hb' : 1 <= range_begin b <= 65535)
    by (unfold range_begin; destruct (Z.eqb_spec b 0); lia).
  assert (He' : 1 <= range_end e <= 65535)
    by (unfold range_end; destruct (Z.eqb_spec e 0); lia).
  destruct (Z.gtb_spec (range_end e) (range_begin b)) as [Hgt|Hle].
  - assert (Hm : 0 <= effective_count os w mod (range_end e - range_begin b + 1)
                 < range_end e - range_begin b + 1)
      by (apply Z.mod_pos_bound; lia).
    unfold to_uint16. rewrite Z.mod_small by lia. lia.
  - replace (0 + 1) with 1 by lia. rewrite Z.mod_1_r.
    unfold to_uint16. rewrite Z.mod_small by lia. lia.
Qed.

Lemma get_next_port_in_range_any_witness :
  let p := (get_next_port_in_range Examples.host_free 0 0 initial_world).1 in
  range_begin 0 <= p <= Z.max (range_begin 0) (range_end 0) /\
  1 <= p <= 65535 /\
  (range_end 0 <= range_begin 0 -> p = range_begin 0).
Proof.
  apply (get_next_port_in_range_any Examples.host_free 0 0 initial_world); lia.
Defined.

Lemma effective_count_after (os : os_env) (b e : Z) (w : world) :
  0 <= effective_count os w -> effective_count os w + 1 < 4294967296 ->
  effective_count os (get_next_port_in_range os b e w).2 = effective_count os w + 1.
Proof.
  intros H0 H1. unfold effective_count at 1.
  rewrite get_next_port_in_range_count. unfold to_uint32.
  rewrite Z.mod_small by lia.
  destruct (Z.eqb_spec (effective_count os w + 1) 0); [lia|reflexivity].
Qed.

Lemma round_robin_S (b e c : Z) (n : nat) :
  round_robin b e c (S n) = (b + c mod (e - b + 1)) :: round_robin b e (c + 1) n.
Proof.
  unfold round_robin. cbn [List.seq fmap list_fmap]. f_equal.
  - do 2 f_equal. lia.
  - rewrite <- fmap_S_seq, <- list_fmap_compose.
    apply list_fmap_ext. intros i x _. cbn. do 2 f_equal. lia.
Qed.

(** Without a wrap of the counter, successive calls walk round the range
    from where the counter stands. *)
Lemma next_ports_round_robin (os : os_env) (b e : Z) (n : nat) (w : world) :
  1 <= b -> b <= e -> e <= 65535 ->
  0 <= effective_count os w ->
  effective_count os w + Z.of_nat n < 4294967296 ->
  (next_ports os b e n w).1 = round_robin b e (effective_count os w) n.
Proof.
  intros Hb Hbe He. revert w.
  induction n as [|n IH]; intros w H0 Hn; [reflexivity|].
  cbn [next_ports]. rewrite round_robin_S.
  pose proof (get_next_port_in_range_value os b e w Hb Hbe He) as Hv.
  pose proof (effective_count_after os b e w H0 ltac:(lia)) as Hc.
  destruct (get_next_port_in_range os b e w) as [p w1]. cbn [fst snd] in *.
  specialize (IH w1 ltac:(lia) ltac:(lia)).
  destruct (next_ports os b e n w1) as [ps w2]. cbn [fst snd] in *.
  rewrite Hv, IH, Hc. reflexivity.
Qed.

Lemma round_robin_inj (wd c : Z) (i j : nat) :
  0 < wd -> Z.of_nat i < wd -> Z.of_nat j < wd ->
  (c + Z.of_nat i) mod wd = (c + Z.of_nat j) mod wd -> i = j.
Proof.
  intros Hwd Hi Hj Heq.
  assert (Hd : ((c + Z.of_nat i) - (c + Z.of_nat j)) mod wd = 0).
  { rewrite Zminus_mod, Heq, Z.sub_diag. apply Z.mod_0_l. lia. }
  apply Z.mod_divide in Hd; [|lia]. destruct Hd as [k Hk].
  assert (k = 0) by nia. lia.
Qed.

(** X2.  With a range [1 <= b <= e <= 65535] and a counter that does not
    wrap meanwhile, [e - b + 1] successive calls of
    [get_next_port_in_range] give every port of the range exactly once. *)
Theorem next_ports_cover_range (os : os_env) (b e : Z) (w : world) :
  1 <= b -> b <= e -> e <= 65535 ->
  0 <= effective_count os w ->
  effective_count os w + (e - b + 1) < 4294967296 ->
  let ps := (next_ports os b e (Z.to_nat (e - b + 1)) w).1 in
  NoDup ps /\ forall p, p ∈ ps <-> b <= p <= e.
Proof.
  intros Hb Hbe He H0 Hn. cbv zeta.
  rewrite next_ports_round_robin by lia.
  set (c := effective_count os w). set (wd := e - b + 1).
  unfold round_robin. fold wd. split.
  - apply NoDup_fmap_2_strong; [|apply NoDup_seq].
    intros i j Hi Hj Heq. apply elem_of_seq in Hi, Hj.
    apply (round_robin_inj wd c); lia.
  - intros p. rewrite list_elem_of_fmap. split.
    + intros (i & -> & Hi).
      pose proof (Z.mod_pos_bound (c + Z.of_nat i) wd ltac:(lia)). lia.
    + intros Hp. exists (Z.to_nat ((p - b - c) mod wd)).
      pose proof (Z.mod_pos_bound (p - b - c) wd ltac:(lia)) as Hm.
      split; [|apply elem_of_seq; lia].
      rewrite Z2Nat.id by lia.
      rewrite Zplus_mod_idemp_r.
      replace (c + (p - b - c)) with (p - b) by lia.
      rewrite Z.mod_small; lia.
Qed.

Lemma next_ports_cover_range_witness :
  let ps := (next_ports Examples.host_free 5000 5002 (Z.to_nat (5002 - 5000 + 1))
               initial_world).1 in
  NoDup ps /\ forall p, p ∈ ps <-> 5000 <= p <= 5002.
Proof.
  apply (next_ports_cover_range Examples.host_free 5000 5002 initial_world);
    vm_compute; congruence.
Defined.

(* ===================================================================== *)
(** * Further properties: socket creation                                 *)
(* ===================================================================== *)

(** X3.  [find_family] returns the first node of the list whose family,
    taken as an [unsigned int], is the family asked for, and no node
    exactly when none has it.  For a family in the range of the
    non-negative [int]s, as the address family constants are, that is the
    first node whose [ai_family] is equal to it; a node of family -1 is
    found when 4294967295 is asked for. *)
Theorem find_family_first (ai_list : list addrinfo) (family : Z) :
  match find_family ai_list family with
  | Some ai =>
      exists l1 l2, ai_list = l1 ++ ai :: l2 /\
                    int_to_uint32 (ai_family ai) = int_to_uint32 family /\
                    Forall (fun a => int_to_uint32 (ai_family a)
                                     <> int_to_uint32 family) l1
  | None => Forall (fun a => int_to_uint32 (ai_family a)
                             <> int_to_uint32 family) ai_list
  end /\
  (0 <= family < 2147483648 ->
   match find_family ai_list family with
   | Some ai =>
       exists l1 l2, ai_list = l1 ++ ai :: l2 /\ ai_family ai = family /\
                     Forall (fun a => ai_family a <> family) l1
   | None => Forall (fun a => ai_family a <> family) ai_list
   end) /\
  (forall a l, ai_family a = -1 -> find_family (a :: l) 4294967295 = Some a).
Proof.
  pose proof (find_family_split ai_list family) as Hs.
  split; [exact Hs|split].
  - intros Hf.
    assert (Himp : forall l,
              Forall (fun a => int_to_uint32 (ai_family a)
                               <> int_to_uint32 family) l ->
              Forall (fun a => ai_family a <> family) l).
    { intros l Hl. eapply Forall_impl; [exact Hl|]. intros a Ha E. apply Ha.
      apply (proj2 (int_to_uint32_eq _ _ Hf)). exact E. }
    destruct (find_family ai_list family) as [ai|].
    + destruct Hs as (l1 & l2 & E & Hfam & Hl1).
      exists l1, l2. split; [exact E|]. split; [|apply Himp; exact Hl1].
      exact (proj1 (int_to_uint32_eq _ _ Hf) Hfam).
    + apply Himp. exact Hs.
  - intros a l Ha. cbn [find_family]. rewrite Ha. reflexivity.
Qed.

Section CreateSocketMore.
Variable os : os_env.

(** What the retry loop leaves alone, and what it has done to the socket
    when it returns one. *)
Lemma bind_in_range_frame (n : nat) (sock : Z) (sa : sockaddr)
    (config : udp_socket_config_t) (w : world) :
  let r := bind_in_range os n sock sa config w in
  sockopts r.2 = sockopts w /\
  match r.1 with
  | Some s => s = sock /\ is_Some (bound r.2 !! sock)
  | None => bound r.2 = bound w
  end.
Proof.
  cbv zeta. revert sa w. induction n as [|n IH]; intros sa w;
    rewrite (bind_in_range_unfold os); cbv zeta;
    destruct (get_next_port_in_range_frame os (port_begin config) (port_end config) w)
      as (_ & _ & _ & _ & Hso & Hbd & _);
    set (pw := get_next_port_in_range os (port_begin config) (port_end config) w) in *;
    set (sa1 := addr_set_port sa pw.1);
    (destruct (env_bind os (length (bind_log pw.2)) sa1 =? 0);
     [cbn; split; [exact Hso|split; [reflexivity|rewrite lookup_insert_eq; eauto]]|]);
    (destruct (env_bind os (length (bind_log pw.2)) sa1 =? EADDRINUSE);
     [|cbn; split; assumption]).
  - cbn; split; assumption.
  - destruct (IH sa1 (after_bind_failure pw.2
                        (env_bind os (length (bind_log pw.2)) sa1) sa1)) as [I1 I2].
    split; [rewrite I1; exact Hso|].
    destruct (bind_in_range os n sock sa1 config _).1; [exact I2|].
    rewrite I2. exact Hbd.
Qed.


(** X4.  The three failures before a socket exists: when the address
    cannot be resolved nothing at all has happened; when no resolved
    address is IPv6 or IPv4, or when [socket] gives no descriptor, the
    address list is released again; in each case [INVALID_SOCKET] is
    returned, no descriptor is open that was not, no option is set and no
    [bind] is tried. *)
Theorem udp_create_socket_early_failure (config : udp_socket_config_t) (w : world) :
  env_getaddrinfo os = None \/
  (exists ai_list, env_getaddrinfo os = Some ai_list /\
     Forall (fun a => ai_family a <> AF_INET6 /\ ai_family a <> AF_INET) ai_list) \/
  (exists ai_list, env_getaddrinfo os = Some ai_list /\
     env_socket os = INVALID_SOCKET) ->
  let r := udp_create_socket os config w in
  r.1 = INVALID_SOCKET /\
  open_fds r.2 = open_fds w /\ addrinfo_live r.2 = addrinfo_live w /\
  sockopts r.2 = sockopts w /\ bind_log r.2 = bind_log w /\
  bound r.2 = bound w /\ count r.2 = count w /\
  (env_getaddrinfo os = None -> r.2 = w).
Proof.
  intros Hcase. cbv zeta. unfold udp_create_socket, seq, getaddrinfo.
  destruct Hcase as [Hnone|[(l & Hl & Hfam)|(l & Hl & Hsock)]].
  - rewrite Hnone. cbn. repeat split.
  - rewrite Hl.
    assert (Hpick : prefer_inet6 l = None).
    { destruct (prefer_inet6 l) as [ai|] eqn:Hpick; [|reflexivity].
      apply prefer_inet6_Some in Hpick as [Hin Hf].
      rewrite Forall_forall in Hfam. specialize (Hfam ai Hin). tauto. }
    rewrite Hpick. cbn. repeat split. congruence.
  - rewrite Hl. destruct (prefer_inet6 l) as [ai|].
    + unfold socket. rewrite Hsock. cbn. repeat split. congruence.
    + cbn. repeat split. congruence.
Qed.

(** X5.  With both ports 0 and the calls before [bind] succeeding, [bind]
    is called once, on the resolved address as it is; the port counter and
    the random source are not used; the socket is returned exactly when
    that call succeeds, and the address list is released either way. *)
Theorem udp_create_socket_ephemeral (config : udp_socket_config_t) (w : world)
    (ai : addrinfo) :
  reaches_bind os ai ->
  port_begin config = 0 -> port_end config = 0 ->
  let r := udp_create_socket os config w in
  let err := env_bind os (length (bind_log w)) (ai_addr ai) in
  bind_log r.2 = bind_log w ++ [ai_addr ai] /\
  count r.2 = count w /\ rand_calls r.2 = rand_calls w /\
  addrinfo_live r.2 = addrinfo_live w /\
  r.1 = (if err =? 0 then env_socket os else INVALID_SOCKET) /\
  (err = 0 -> is_Some (bound r.2 !! env_socket os)).
Proof.
  intros Hreach Hb He. cbv zeta.
  rewrite (udp_create_socket_reaches os config w ai Hreach), Hb, He.
  cbn [Z.eqb andb]. cbv zeta.
  destruct (before_bind_frame os ai w) as (Hc & Hr & Hlog & _ & _ & Hlive).
  unfold bind. rewrite Hlog.
  destruct (env_bind os (length (bind_log w)) (ai_addr ai) =? 0) eqn:E; cbn;
    rewrite Hlog, Hc, Hr, Hlive; repeat split; try reflexivity.
  - intros _. rewrite lookup_insert_eq. eauto.
  - intros H0. rewrite H0 in E. discriminate.
Qed.

(** X6.  With a range given the wrong way round ([port_end < port_begin])
    the number of retries is negative: [bind] is tried once, on the port
    the allocator gives, and the socket is returned exactly when that one
    call succeeds, whatever the error otherwise. *)
Theorem udp_create_socket_reversed_range (config : udp_socket_config_t)
    (w : world) (ai : addrinfo) :
  reaches_bind os ai ->
  0 <= port_end config -> port_end config < port_begin config ->
  let r := udp_create_socket os config w in
  let port := (get_next_port_in_range os (port_begin config) (port_end config)
                 (before_bind os ai w)).1 in
  let sa := addr_set_port (ai_addr ai) port in
  bind_log r.2 = bind_log w ++ [sa] /\
  r.1 = (if env_bind os (length (bind_log w)) sa =? 0
         then env_socket os else INVALID_SOCKET) /\
  addrinfo_live r.2 = addrinfo_live w.
Proof.
  intros Hreach He Hlt. cbv zeta.
  rewrite (udp_create_socket_reaches os config w ai Hreach).
  destruct (Z.eqb_spec (port_begin config) 0) as [E|_]; [lia|]. cbn [andb].
  cbv zeta.
  replace (Z.to_nat (port_end config - port_begin config)) with 0%nat by lia.
  rewrite (bind_in_range_unfold os). cbv zeta.
  destruct (before_bind_frame os ai w) as (_ & _ & Hlog & _ & _ & Hlive).
  destruct (get_next_port_in_range_frame os (port_begin config) (port_end config)
              (before_bind os ai w)) as (_ & Hai & _ & _ & _ & _ & Hlog').
  rewrite Hlog', Hlog.
  destruct (env_bind os (length (bind_log w)) _ =? 0) eqn:E0.
  - cbn. rewrite Hlog', Hlog, Hai, Hlive. repeat split.
  - destruct (env_bind os (length (bind_log w)) _ =? EADDRINUSE);
      cbn; rewrite Hlog', Hlog, Hai, Hlive; repeat split.
Qed.

(** The first [j] attempts find the address in use and the next one
    succeeds: the loop returns the socket after [j + 1] attempts. *)
Lemma bind_in_range_first_free (n j : nat) (sock : Z) (sa : sockaddr)
    (config : udp_socket_config_t) (w : world) :
  (j <= n)%nat ->
  (forall (i : nat) sa', (i < j)%nat ->
     env_bind os (length (bind_log w) + i) sa' = EADDRINUSE) ->
  (forall sa', env_bind os (length (bind_log w) + j) sa' = 0) ->
  let r := bind_in_range os n sock sa config w in
  r.1 = Some sock /\
  length (bind_log r.2) = (length (bind_log w) + S j)%nat.
Proof.
  revert j sa w. induction n as [|n IH]; intros j sa w Hj Hbusy Hfree;
    rewrite (bind_in_range_unfold os); cbv zeta;
    destruct (get_next_port_in_range_frame os (port_begin config) (port_end config) w)
      as (_ & _ & _ & _ & _ & _ & Hlog);
    rewrite Hlog.
  - assert (j = 0)%nat by lia. subst j. rewrite Nat.add_0_r in Hfree.
    rewrite Hfree. cbn. rewrite length_app, Hlog. cbn. split; [reflexivity|lia].
  - destruct j as [|j].
    + rewrite Nat.add_0_r in Hfree.
      rewrite Hfree. cbn. rewrite length_app, Hlog. cbn. split; [reflexivity|lia].
    + pose proof (Hbusy 0%nat) as H0. rewrite Nat.add_0_r in H0.
      rewrite H0 by lia. cbn [Z.eqb EADDRINUSE Pos.eqb].
      match goal with |- context [bind_in_range os n sock ?sa1 config ?w1] =>
        destruct (IH j sa1 w1) as (R1 & R2) end.
      * lia.
      * intros i sa' Hi. cbn. rewrite length_app, Hlog. cbn.
        replace (length (bind_log w) + 1 + i)%nat with (length (bind_log w) + S i)%nat by lia.
        apply Hbusy. lia.
      * intros sa'. cbn. rewrite length_app, Hlog. cbn.
        replace (length (bind_log w) + 1 + j)%nat with (length (bind_log w) + S j)%nat by lia.
        apply Hfree.
      * cbv zeta in R1, R2. rewrite R1, R2. cbn.
        rewrite length_app, Hlog. cbn. split; [reflexivity|lia].
Qed.

(** X7.  With an explicit range and the calls before [bind] succeeding:
    when the first [j <= port_end - port_begin] attempts find the address
    in use and the next one succeeds, the socket is returned after exactly
    [j + 1] attempts, bound, with the address list released. *)
Theorem udp_create_socket_first_free (config : udp_socket_config_t)
    (w : world) (ai : addrinfo) (j : nat) :
  reaches_bind os ai ->
  ~ (port_begin config = 0 /\ port_end config = 0) ->
  Z.of_nat j <= port_end config - port_begin config ->
  (forall (i : nat) sa, (i < j)%nat ->
     env_bind os (length (bind_log w) + i) sa = EADDRINUSE) ->
  (forall sa, env_bind os (length (bind_log w) + j) sa = 0) ->
  let r := udp_create_socket os config w in
  r.1 = env_socket os /\
  length (bind_log r.2) = (length (bind_log w) + S j)%nat /\
  addrinfo_live r.2 = addrinfo_live w /\
  is_Some (bound r.2 !! env_socket os).
Proof.
  intros Hreach Hnz Hj Hbusy Hfree. cbv zeta.
  rewrite (udp_create_socket_reaches os config w ai Hreach).
  assert (Hrange : (port_begin config =? 0) && (port_end config =? 0) = false).
  { apply andb_false_iff.
    destruct (Z.eqb_spec (port_begin config) 0); [|auto].
    destruct (Z.eqb_spec (port_end config) 0); [|auto]. tauto. }
  rewrite Hrange. cbv zeta.
  destruct (before_bind_frame os ai w) as (_ & _ & Hlog & _ & _ & Hlive).
  destruct (bind_in_range_first_free
              (Z.to_nat (port_end config - port_begin config)) j
              (env_socket os) (ai_addr ai) config (before_bind os ai w))
    as (R1 & R2); [lia|rewrite Hlog; exact Hbusy|rewrite Hlog; exact Hfree|].
  pose proof (bind_in_range_addrinfo_live os
                (Z.to_nat (port_end config - port_begin config))
                (env_socket os) (ai_addr ai) config (before_bind os ai w)) as Hai.
  destruct (bind_in_range_frame
              (Z.to_nat (port_end config - port_begin config))
              (env_socket os) (ai_addr ai) config (before_bind os ai w)) as [_ Hb].
  cbv zeta in R1, R2, Hb. rewrite R1 in Hai, Hb |- *. cbn [fst snd].
  rewrite R2, Hai, Hlog, Hlive. destruct Hb as [_ Hb]. repeat split. exact Hb.
Qed.

Lemma effective_count_after_failure (w : world) (err : Z) (sa : sockaddr) :
  effective_count os (after_bind_failure w err sa) = effective_count os w.
Proof. reflexivity. Qed.

(** Exactly the port [p] is free, and the walk of the allocator reaches it
    within the retries: the loop binds the socket to [p]. *)
Lemma bind_in_range_one_free (n : nat) (sock : Z) (sa : sockaddr)
    (config : udp_socket_config_t) (w : world) (p : Z) :
  is_inet sa = true ->
  1 <= port_begin config -> port_begin config <= port_end config ->
  port_end config <= 65535 -> 1 <= p ->
  (forall k sa', env_bind os k sa' =
                 if addr_get_port sa' =? p then 0 else EADDRINUSE) ->
  0 <= effective_count os w ->
  effective_count os w + Z.of_nat n + 1 < 4294967296 ->
  (exists i : nat, (i <= n)%nat /\
     port_begin config
     + (effective_count os w + Z.of_nat i)
       mod (port_end config - port_begin config + 1) = p) ->
  let r := bind_in_range os n sock sa config w in
  r.1 = Some sock /\
  (exists sa', bound r.2 !! sock = Some sa' /\ addr_get_port sa' = p) /\
  (length (bind_log r.2) <= length (bind_log w) + S n)%nat.
Proof.
  intros Hin Hb Hbe He Hp Horacle. revert sa w Hin.
  induction n as [|n IH]; intros sa w Hin H0 Hwrap (i & Hi & Hreach);
    rewrite (bind_in_range_unfold os); cbv zeta;
    pose proof (get_next_port_in_range_value os _ _ w Hb Hbe He) as Hport;
    pose proof (effective_count_after os (port_begin config) (port_end config) w
                  H0 ltac:(lia)) as Hnext;
    destruct (get_next_port_in_range_frame os (port_begin config) (port_end config) w)
      as (_ & _ & _ & _ & _ & _ & Hlog);
    set (pw := get_next_port_in_range os (port_begin config) (port_end config) w) in *;
    rewrite Horacle; rewrite !addr_get_set_port by exact Hin;
    destruct (Z.eqb_spec pw.1 p) as [Heq|Hne]; cbn [Z.eqb].
  - cbn.
    destruct (Z.eqb_spec pw.1 0); [lia|].
    rewrite lookup_insert_eq, length_app, Hlog. cbn.
    split; [reflexivity|]. split; [|lia].
    eexists; split; [reflexivity|]. rewrite addr_get_set_port by exact Hin. exact Heq.
  - exfalso. assert (i = 0%nat) by lia. subst i.
    rewrite Z.add_0_r in Hreach. congruence.
  - cbn.
    destruct (Z.eqb_spec pw.1 0); [lia|].
    rewrite lookup_insert_eq, length_app, Hlog. cbn.
    split; [reflexivity|]. split; [|lia].
    eexists; split; [reflexivity|]. rewrite addr_get_set_port by exact Hin. exact Heq.
  - cbn [Pos.eqb EADDRINUSE Z.eqb].
    destruct i as [|i]; [rewrite Z.add_0_r in Hreach; congruence|].
    match goal with |- context [bind_in_range os n sock ?sa1 config ?w1] =>
      destruct (IH sa1 w1) as (R1 & R2 & R3) end.
    + rewrite is_inet_set_port. exact Hin.
    + rewrite effective_count_after_failure, Hnext. lia.
    + rewrite effective_count_after_failure, Hnext. lia.
    + exists i. split; [lia|].
      rewrite effective_count_after_failure, Hnext. rewrite <- Hreach.
      do 2 f_equal. lia.
    + cbv zeta in R1, R2, R3. split; [exact R1|]. split; [exact R2|].
      cbn in R3. rewrite length_app, Hlog in R3. cbn in R3. lia.
Qed.

(** X8.  With a range [1 <= b <= e <= 65535] in which exactly the port
    [p] is free (every other [bind] finds the address in use), the calls
    before [bind] succeeding and the counter not wrapping meanwhile,
    [udp_create_socket] returns the socket bound to [p] after at most
    [e - b + 1] attempts. *)
Theorem udp_create_socket_one_free (config : udp_socket_config_t)
    (w : world) (ai : addrinfo) (p : Z) :
  reaches_bind os ai ->
  is_inet (ai_addr ai) = true ->
  1 <= port_begin config ->
  port_begin config <= p <= port_end config ->
  port_end config <= 65535 ->
  (forall k sa, env_bind os k sa =
                if addr_get_port sa =? p then 0 else EADDRINUSE) ->
  0 <= effective_count os w ->
  effective_count os w + (port_end config - port_begin config + 1) < 4294967296 ->
  let r := udp_create_socket os config w in
  r.1 = env_socket os /\
  (udp_get_port r.1 r.2).1 = p /\
  (length (bind_log r.2)
   <= length (bind_log w) + Z.to_nat (port_end config - port_begin config + 1))%nat.
Proof.
  intros Hreach Hin Hb Hp He Horacle H0 Hwrap. cbv zeta.
  rewrite (udp_create_socket_reaches os config w ai Hreach).
  destruct (Z.eqb_spec (port_begin config) 0) as [E|_]; [lia|]. cbn [andb].
  cbv zeta.
  destruct (before_bind_frame os ai w) as (Hc & Hr & Hlog & _).
  assert (Heff : effective_count os (before_bind os ai w) = effective_count os w)
    by (unfold effective_count; rewrite Hc, Hr; reflexivity).
  set (wd := port_end config - port_begin config + 1) in *.
  assert (Hex : exists i : nat,
            (i <= Z.to_nat (port_end config - port_begin config))%nat /\
            port_begin config
            + (effective_count os (before_bind os ai w) + Z.of_nat i)
              mod (port_end config - port_begin config + 1) = p).
  { exists (Z.to_nat ((p - port_begin config - effective_count os w) mod wd)).
    pose proof (Z.mod_pos_bound (p - port_begin config - effective_count os w) wd
                  ltac:(lia)) as Hm.
    split; [lia|]. rewrite Heff, Z2Nat.id by lia. fold wd.
    rewrite Zplus_mod_idemp_r.
    replace (effective_count os w + (p - port_begin config - effective_count os w))
      with (p - port_begin config) by lia.
    rewrite Z.mod_small; lia. }
  destruct (bind_in_range_one_free
              (Z.to_nat (port_end config - port_begin config))
              (env_socket os) (ai_addr ai) config (before_bind os ai w) p
              Hin Hb ltac:(lia) He ltac:(lia) Horacle
              ltac:(rewrite Heff; exact H0) ltac:(rewrite Heff; lia) Hex)
    as (R1 & (sa' & R2 & R2') & R3).
  cbv zeta in R1, R3. rewrite R1. cbn [fst snd].
  unfold udp_get_port, Os.seq, getsockname. rewrite R2. cbn.
  split; [reflexivity|]. split; [exact R2'|].
  rewrite Hlog in R3. unfold wd. lia.
Qed.


End CreateSocketMore.

Lemma udp_create_socket_early_failure_witness :
  let r1 := udp_create_socket Examples.host_unresolved Examples.ports_any
              initial_world in
  let r2 := udp_create_socket Examples.host_other_family Examples.ports_any
              initial_world in
  let r3 := udp_create_socket Examples.host_no_descriptor Examples.ports_5000_5002
              initial_world in
  (r1.1 = INVALID_SOCKET /\ r1.2 = initial_world) /\
  (r2.1 = INVALID_SOCKET /\ open_fds r2.2 = [] /\ addrinfo_live r2.2 = 0%nat) /\
  (r3.1 = INVALID_SOCKET /\ open_fds r3.2 = [] /\ bind_log r3.2 = []).
Proof.
  cbv zeta. split; [|split].
  - destruct (udp_create_socket_early_failure Examples.host_unresolved
                Examples.ports_any initial_world)
      as (H1 & _ & _ & _ & _ & _ & _ & H8).
    + left. reflexivity.
    + split; [exact H1|apply H8; reflexivity].
  - destruct (udp_create_socket_early_failure Examples.host_other_family
                Examples.ports_any initial_world)
      as (H1 & H2 & H3 & _).
    + right. left. eexists. split; [reflexivity|].
      repeat constructor; discriminate.
    + repeat split; assumption.
  - destruct (udp_create_socket_early_failure Examples.host_no_descriptor
                Examples.ports_5000_5002 initial_world)
      as (H1 & H2 & _ & _ & H5 & _).
    + right. right. eexists. split; reflexivity.
    + repeat split; assumption.
Defined.

Lemma reaches_bind_host (ioctl : Z) (b : nat -> sockaddr -> Z) (r : nat -> Z)
    (i : option (list ifaddrs)) :
  ioctl = 0 -> reaches_bind (Examples.host ioctl b r i) Examples.ai_inet6.
Proof.
  intros ->. exists [Examples.ai_inet; Examples.ai_inet6].
  repeat split. discriminate.
Defined.

Lemma udp_create_socket_ephemeral_witness :
  let r := udp_create_socket Examples.host_free Examples.ports_any initial_world in
  bind_log r.2 = [Examples.any_inet6] /\ count r.2 = 0 /\ rand_calls r.2 = 0%nat /\
  addrinfo_live r.2 = 0%nat /\ r.1 = 3 /\ (0 = 0 -> is_Some (bound r.2 !! 3)).
Proof.
  apply (udp_create_socket_ephemeral Examples.host_free Examples.ports_any
           initial_world Examples.ai_inet6).
  - apply reaches_bind_host. reflexivity.
  - reflexivity.
  - reflexivity.
Defined.

Lemma udp_create_socket_reversed_range_witness :
  let r := udp_create_socket Examples.host_all_in_use Examples.ports_5002_5000
             initial_world in
  length (bind_log r.2) = 1%nat /\ r.1 = INVALID_SOCKET /\ addrinfo_live r.2 = 0%nat.
Proof.
  cbv zeta.
  destruct (udp_create_socket_reversed_range Examples.host_all_in_use
              Examples.ports_5002_5000 initial_world Examples.ai_inet6)
    as (H1 & H2 & H3).
  - apply reaches_bind_host. reflexivity.
  - vm_compute. discriminate.
  - reflexivity.
  - rewrite H1. repeat split; assumption.
Defined.

Lemma udp_create_socket_first_free_witness :
  let r := udp_create_socket Examples.host_second_free Examples.ports_5000_5002
             initial_world in
  (env_bind Examples.host_second_free 0 (addr_set_port Examples.any_inet6 5001)
     = EADDRINUSE /\
   env_bind Examples.host_second_free 1 (addr_set_port Examples.any_inet6 5002) = 0) /\
  r.1 = 3 /\ length (bind_log r.2) = (0 + 2)%nat /\ addrinfo_live r.2 = 0%nat /\
  is_Some (bound r.2 !! 3).
Proof.
  split; [split; reflexivity|].
  apply (udp_create_socket_first_free Examples.host_second_free
           Examples.ports_5000_5002 initial_world Examples.ai_inet6 1).
  - apply reaches_bind_host. reflexivity.
  - intros [H _]. discriminate H.
  - vm_compute. discriminate.
  - intros i sa Hi. destruct i as [|i]; [reflexivity|lia].
  - intros sa. reflexivity.
Defined.

Lemma udp_create_socket_one_free_witness :
  let r := udp_create_socket Examples.host_one_free Examples.ports_5000_5002
             initial_world in
  r.1 = 3 /\ (udp_get_port r.1 r.2).1 = 5002 /\ (length (bind_log r.2) <= 3)%nat.
Proof.
  apply (udp_create_socket_one_free Examples.host_one_free Examples.ports_5000_5002
           initial_world Examples.ai_inet6 5002).
  - apply reaches_bind_host. reflexivity.
  - reflexivity.
  - vm_compute. discriminate.
  - vm_compute. split; discriminate.
  - vm_compute. discriminate.
  - intros k sa. reflexivity.
  - vm_compute. discriminate.
  - vm_compute. reflexivity.
Defined.


(* ===================================================================== *)
(** * Further properties: gathering with [getifaddrs]                     *)
(* ===================================================================== *)

Lemma world_eta (w : world) :
  set_ifaddrs_live (set_ifaddrs_live w (S (ifaddrs_live w)))
    (Nat.pred (S (ifaddrs_live w))) = w.
Proof. destruct w; reflexivity. Qed.

Lemma skip_interface_false `{AddrClass} (ifa : ifaddrs) :
  skip_interface ifa = false <-> up_not_loopback ifa.
Proof.
  unfold skip_interface, up_not_loopback.
  destruct (Z.eqb_spec (Z.land (ifa_flags ifa) IFF_UP) 0);
    destruct (Z.eqb_spec (Z.land (ifa_flags ifa) IFF_LOOPBACK) 0); cbn;
    split; try discriminate; try tauto; intros [? ?]; congruence.
Qed.

Lemma gather_spec_sublist (port : Z) (count : nat) (cands : list sockaddr)
    (acc : list addr_record_t) (total : Z) :
  exists new,
    (gather_spec port count cands acc total).1 = acc ++ new /\
    new `sublist_of` ((fun sa => stamp sa port) <$> cands).
Proof.
  revert acc total. induction cands as [|sa cands IH]; intros acc total;
    cbn [gather_spec fmap list_fmap].
  - exists []. rewrite app_nil_r. split; [reflexivity|constructor].
  - destruct (has_duplicate_addr sa acc (length acc)).
    + destruct (IH acc total) as (new & E & Hs).
      exists new. split; [exact E|]. apply sublist_cons. exact Hs.
    + destruct (decide (length acc <> count)).
      * destruct (IH (acc ++ [stamp sa port]) (total + 1)) as (new & E & Hs).
        exists (stamp sa port :: new). rewrite E, <- app_assoc.
        split; [reflexivity|]. apply sublist_skip. exact Hs.
      * destruct (IH acc (total + 1)) as (new & E & Hs).
        exists new. split; [exact E|]. apply sublist_cons. exact Hs.
Qed.

Lemma candidates_sublist `{AddrClass} (ht : bool) (ifas : list ifaddrs) :
  candidates ht ifas `sublist_of` omap ifa_addr ifas.
Proof.
  induction ifas as [|ifa ifas IH]; cbn [candidates omap list_omap]; [constructor|].
  destruct (skip_interface ifa).
  - destruct (ifa_addr ifa); [apply sublist_cons|]; exact IH.
  - destruct (ifa_addr ifa) as [sa|]; [|exact IH].
    destruct (eligible ht sa); [apply sublist_skip|apply sublist_cons]; exact IH.
Qed.

Section GatherMore.
Context `{AddrClass}.

(** X10.  [udp_get_addrs] leaves the state of the system as it found it:
    the interface list it obtained is released on every path.  On a buffer
    with room for [count] records it returns -1 exactly when the port of
    the socket cannot be had (or is 0) or [getifaddrs] fails, and a total
    of 0 or more otherwise; when the port cannot be had the buffer is not
    touched. *)
Theorem udp_get_addrs_errors (os : os_env) (localhost : bool) (sock : Z)
    (recs : list addr_record_t) (count : nat) (w : world) :
  (udp_get_addrs os localhost sock recs count w).2 = w /\
  ((count <= length recs)%nat ->
   exists rv recs',
     (udp_get_addrs os localhost sock recs count w).1 = Some (rv, recs') /\
     (rv = -1 <-> (udp_get_port sock w).1 = 0 \/ env_getifaddrs os = None) /\
     (rv = -1 \/ 0 <= rv) /\
     ((udp_get_port sock w).1 = 0 -> recs' = recs) /\
     (bound w !! sock = None -> (udp_get_port sock w).1 = 0)).
Proof.
  split.
  - unfold udp_get_addrs, Os.seq, udp_get_port, getsockname, pure. cbn.
    destruct (bound w !! sock) as [sa|]; cbn; [|reflexivity].
    destruct (addr_get_port sa =? 0); [reflexivity|].
    destruct (if localhost then _ else _); [|reflexivity].
    unfold getifaddrs. destruct (env_getifaddrs os); [|reflexivity].
    cbn. apply world_eta.
  - intros Hroom. rewrite udp_get_addrs_refines by exact Hroom. cbv zeta.
    assert (Hunbound : bound w !! sock = None -> (udp_get_port sock w).1 = 0).
    { intros Hn. unfold udp_get_port, Os.seq, getsockname. rewrite Hn. reflexivity. }
    destruct (Z.eqb_spec (udp_get_port sock w).1 0) as [E|E].
    { exists (-1), recs. repeat split; auto. }
    destruct (env_getifaddrs os) as [ifas|].
    + eexists _, _. split; [reflexivity|].
      destruct (gather_spec_grows (udp_get_port sock w).1 count
                  (candidates (scan_temp_inet6 ifas) ifas)
                  (localhost_spec localhost (udp_get_port sock w).1 count)
                  (Z.of_nat (length (localhost_spec localhost
                                       (udp_get_port sock w).1 count))))
        as (_ & _ & _ & _ & Ht).
      repeat split; try tauto; try lia.
      * intros [?|?]; [tauto|discriminate].
    + eexists _, _. split; [reflexivity|]. repeat split; auto; tauto.
Qed.

(** X11.  Every record [udp_get_addrs] writes (in the build without
    synthetic loopback records) is the copy of an address of an interface
    that is up and not loopback, an IPv4 or IPv6 address that
    [addr_is_local] does not take for local; the copy carries the port of
    the socket and the length of its family. *)
Theorem udp_get_addrs_emitted_eligible (os : os_env) (sock : Z)
    (recs : list addr_record_t) (count : nat) (w : world)
    (ifas : list ifaddrs) (rv : Z) (recs' : list addr_record_t) :
  (count <= length recs)%nat ->
  env_getifaddrs os = Some ifas ->
  (udp_get_addrs os false sock recs count w).1 = Some (rv, recs') ->
  forall r, r ∈ emitted rv count recs' ->
    exists ifa sa,
      ifa ∈ ifas /\ up_not_loopback ifa /\ ifa_addr ifa = Some sa /\
      is_inet sa = true /\ addr_is_local sa = false /\
      addr r = addr_set_port sa (udp_get_port sock w).1 /\
      addr_get_port (addr r) = (udp_get_port sock w).1 /\
      len r = (if sa_family sa =? AF_INET
               then sizeof_sockaddr_in else sizeof_sockaddr_in6).
Proof.
  intros Hroom Hifas Hrun.
  rewrite udp_get_addrs_refines in Hrun by exact Hroom. cbv zeta in Hrun.
  unfold emitted.
  destruct (_ =? 0).
  { injection Hrun as <- <-. cbn. intros r Hr. inversion Hr. }
  rewrite Hifas in Hrun. cbn [localhost_spec length] in Hrun.
  set (port := (udp_get_port sock w).1) in *.
  set (cands := candidates (scan_temp_inet6 ifas) ifas) in *.
  destruct (gather_spec_grows port count cands [] 0) as (new & E & Hnew & _).
  pose proof (gather_spec_written port count cands [] 0) as Hw.
  change (Z.of_nat 0) with 0 in Hrun.
  injection Hrun as <- <-.
  replace (Nat.min _ count) with (length (gather_spec port count cands [] 0).1).
  2:{ cbn [length] in Hw. change (Z.of_nat 0) with 0 in Hw.
      specialize (Hw ltac:(lia)). lia. }
  rewrite overwrite_take, E. cbn [app].
  intros r Hr. rewrite Forall_forall in Hnew.
  destruct (Hnew r Hr) as (sa & Hsa & ->).
  apply candidates_elem in Hsa as (ifa & Hin & Hskip & Haddr & Hel).
  exists ifa, sa. apply skip_interface_false in Hskip.
  unfold eligible in Hel.
  apply andb_true_iff in Hel as [Hel Hlen].
  apply andb_true_iff in Hel as [Hel _].
  apply andb_true_iff in Hel as [_ Hloc].
  apply negb_true_iff in Hloc.
  destruct sa as [s|s|f d]; cbn in Hlen; try discriminate;
    repeat split; auto; apply Hskip.
Qed.

(** X12.  The records [udp_get_addrs] writes follow the order of the
    interface list: they are the stamped copies of a subsequence of its
    addresses. *)
Theorem udp_get_addrs_order (os : os_env) (sock : Z)
    (recs : list addr_record_t) (count : nat) (w : world)
    (ifas : list ifaddrs) (rv : Z) (recs' : list addr_record_t) :
  (count <= length recs)%nat ->
  env_getifaddrs os = Some ifas ->
  (udp_get_addrs os false sock recs count w).1 = Some (rv, recs') ->
  emitted rv count recs'
    `sublist_of` ((fun sa => stamp sa (udp_get_port sock w).1)
                    <$> omap ifa_addr ifas).
Proof.
  intros Hroom Hifas Hrun.
  rewrite udp_get_addrs_refines in Hrun by exact Hroom. cbv zeta in Hrun.
  unfold emitted.
  destruct (_ =? 0).
  { injection Hrun as <- <-. cbn. apply sublist_nil_l. }
  rewrite Hifas in Hrun. cbn [localhost_spec length] in Hrun.
  set (port := (udp_get_port sock w).1) in *.
  set (cands := candidates (scan_temp_inet6 ifas) ifas) in *.
  destruct (gather_spec_sublist port count cands [] 0) as (new & E & Hsub).
  pose proof (gather_spec_written port count cands [] 0) as Hw.
  change (Z.of_nat 0) with 0 in Hrun.
  injection Hrun as <- <-.
  replace (Nat.min _ count) with (length (gather_spec port count cands [] 0).1).
  2:{ cbn [length] in Hw. change (Z.of_nat 0) with 0 in Hw.
      specialize (Hw ltac:(lia)). lia. }
  rewrite overwrite_take, E. cbn [app].
  etransitivity; [exact Hsub|].
  apply fmap_sublist. apply candidates_sublist.
Qed.

(** X13.  With [JUICE_ENABLE_ADDRS_LOCALHOST] the buffer starts with the
    IPv6 and then the IPv4 loopback record, as far as the capacity goes,
    and each one written is counted; with capacity 0 neither is counted,
    and the call returns the number of eligible candidates alone. *)
Theorem udp_get_addrs_localhost (os : os_env) (sock : Z)
    (recs : list addr_record_t) (count : nat) (w : world) (ifas : list ifaddrs) :
  (count <= length recs)%nat ->
  (udp_get_port sock w).1 <> 0 ->
  env_getifaddrs os = Some ifas ->
  let port := (udp_get_port sock w).1 in
  exists rv recs',
    (udp_get_addrs os true sock recs count w).1 = Some (rv, recs') /\
    take (Nat.min 2 count) recs'
      = take count [localhost_inet6 port; localhost_inet port] /\
    Z.of_nat (Nat.min 2 count) <= rv /\
    (count = 0%nat ->
     rv = Z.of_nat (length (candidates (scan_temp_inet6 ifas) ifas))).
Proof.
  intros Hroom Hport Hifas. cbv zeta. apply Z.eqb_neq in Hport.
  rewrite udp_get_addrs_refines by exact Hroom. cbv zeta.
  rewrite Hport, Hifas.
  set (port := (udp_get_port sock w).1).
  set (l := localhost_spec true port count).
  assert (Hl : length l = Nat.min 2 count).
  { unfold l, localhost_spec. rewrite length_take. cbn [length]. lia. }
  destruct (gather_spec_grows port count (candidates (scan_temp_inet6 ifas) ifas)
              l (Z.of_nat (length l))) as (new & E & _ & _ & Ht).
  eexists _, _. split; [reflexivity|]. split; [|split].
  - rewrite E, <- Hl, <- app_assoc, take_app_length. reflexivity.
  - lia.
  - intros ->. unfold l, localhost_spec. cbn [take length].
    rewrite gather_spec_no_room. cbn. lia.
Qed.

(** X14.  Two IPv6 records that [udp_get_addrs] has written at different
    places of the buffer never have the same leading 64 bits, in either
    setting of [JUICE_ENABLE_ADDRS_LOCALHOST]. *)
Theorem udp_get_addrs_inet6_distinct (os : os_env) (localhost : bool) (sock : Z)
    (recs : list addr_record_t) (count : nat) (w : world)
    (rv : Z) (recs' : list addr_record_t) (i j : nat) (r1 r2 : addr_record_t)
    (s1 s2 : sockaddr_in6) :
  (count <= length recs)%nat ->
  (udp_get_addrs os localhost sock recs count w).1 = Some (rv, recs') ->
  i <> j ->
  (i < Nat.min (Z.to_nat rv) count)%nat -> (j < Nat.min (Z.to_nat rv) count)%nat ->
  recs' !! i = Some r1 -> recs' !! j = Some r2 ->
  addr r1 = SockIn6 s1 -> addr r2 = SockIn6 s2 ->
  take 8 (sin6_addr s1) <> take 8 (sin6_addr s2).
Proof.
  intros Hroom Hrun Hij Hi Hj H1 H2 A1 A2.
  pose proof (udp_get_addrs_inet6_prefixes os localhost sock recs count w rv recs'
                Hroom Hrun) as Hd.
  unfold emitted, inet6_prefixes_differ in Hd.
  destruct (decide (i < j)%nat).
  - apply (Hd i j r1 r2 s1 s2); auto; rewrite lookup_take_lt by lia; assumption.
  - intros Heq. apply (Hd j i r2 r1 s2 s1); auto; try lia;
      rewrite lookup_take_lt by lia; assumption.
Qed.

End GatherMore.

Lemma udp_get_addrs_errors_witness :
  let os := Examples.host 0 (fun _ _ => 0) (fun _ => 7) None in
  let recs := replicate 2 Examples.blank in
  exists rv recs',
    (udp_get_addrs (H := Examples.classes) os false 3 recs 2
       Examples.bound_world).1 = Some (rv, recs') /\
    (rv = -1 <-> (udp_get_port 3 Examples.bound_world).1 = 0
                 \/ env_getifaddrs os = None) /\
    (rv = -1 \/ 0 <= rv) /\
    ((udp_get_port 3 Examples.bound_world).1 = 0 -> recs' = recs) /\
    (bound Examples.bound_world !! 3 = None ->
     (udp_get_port 3 Examples.bound_world).1 = 0).
Proof.
  cbv zeta.
  apply (udp_get_addrs_errors (H := Examples.classes)
           (Examples.host 0 (fun _ _ => 0) (fun _ => 7) None) false 3
           (replicate 2 Examples.blank) 2 Examples.bound_world).
  vm_compute. lia.
Defined.

Lemma udp_get_addrs_emitted_eligible_witness :
  (udp_get_addrs (H := Examples.classes) (Examples.host_ifas Examples.ifas_privacy)
     false 3 (replicate 4 Examples.blank) 4 Examples.bound_world).1
    = Some (2, [stamp (Examples.inet 192 168 1 5) 5001;
                stamp Examples.inet6_temp 5001;
                Examples.blank; Examples.blank]) /\
  forall r,
    r ∈ emitted 2 4 [stamp (Examples.inet 192 168 1 5) 5001;
                     stamp Examples.inet6_temp 5001;
                     Examples.blank; Examples.blank] ->
    exists ifa sa,
      ifa ∈ Examples.ifas_privacy /\ up_not_loopback ifa /\ ifa_addr ifa = Some sa /\
      is_inet sa = true /\
      addr_is_local (AddrClass := Examples.classes) sa = false /\
      addr r = addr_set_port sa (udp_get_port 3 Examples.bound_world).1 /\
      addr_get_port (addr r) = (udp_get_port 3 Examples.bound_world).1 /\
      len r = (if sa_family sa =? AF_INET
               then sizeof_sockaddr_in else sizeof_sockaddr_in6).
Proof.
  split; [vm_compute; reflexivity|].
  apply (udp_get_addrs_emitted_eligible (H := Examples.classes)
           (Examples.host_ifas Examples.ifas_privacy) 3
           (replicate 4 Examples.blank) 4 Examples.bound_world
           Examples.ifas_privacy 2).
  - vm_compute. lia.
  - reflexivity.
  - vm_compute. reflexivity.
Defined.

Lemma udp_get_addrs_order_witness :
  emitted 2 4 [stamp (Examples.inet 192 168 1 5) 5001;
               stamp Examples.inet6_temp 5001;
               Examples.blank; Examples.blank]
    `sublist_of` ((fun sa => stamp sa (udp_get_port 3 Examples.bound_world).1)
                    <$> omap ifa_addr Examples.ifas_privacy).
Proof.
  apply (udp_get_addrs_order (H := Examples.classes)
           (Examples.host_ifas Examples.ifas_privacy) 3
           (replicate 4 Examples.blank) 4 Examples.bound_world
           Examples.ifas_privacy 2).
  - vm_compute. lia.
  - reflexivity.
  - vm_compute. reflexivity.
Defined.

Lemma udp_get_addrs_localhost_witness :
  let port := (udp_get_port 3 Examples.bound_world).1 in
  exists rv recs',
    (udp_get_addrs (H := Examples.classes) (Examples.host_ifas Examples.ifas_privacy)
       true 3 (replicate 4 Examples.blank) 4 Examples.bound_world).1
      = Some (rv, recs') /\
    take (Nat.min 2 4) recs'
      = take 4 [localhost_inet6 port; localhost_inet port] /\
    Z.of_nat (Nat.min 2 4) <= rv /\
    (4%nat = 0%nat ->
     rv = Z.of_nat (length (candidates (H := Examples.classes)
                              (scan_temp_inet6 (H := Examples.classes)
                                 Examples.ifas_privacy)
                              Examples.ifas_privacy))).
Proof.
  apply (udp_get_addrs_localhost (H := Examples.classes)
           (Examples.host_ifas Examples.ifas_privacy) 3
           (replicate 4 Examples.blank) 4 Examples.bound_world Examples.ifas_privacy).
  - vm_compute. lia.
  - vm_compute. discriminate.
  - reflexivity.
Defined.

Lemma udp_get_addrs_inet6_distinct_witness :
  (udp_get_addrs (H := Examples.classes)
     (Examples.host_ifas Examples.ifas_two_subnets) false 3
     (replicate 3 Examples.blank) 3 Examples.bound_world).1
    = Some (2, [stamp Examples.inet6_stable_a 5001; stamp Examples.inet6_other 5001;
                Examples.blank]) /\
  take 8 [0x20; 0x01; 0x0d; 0xb8; 0; 0; 0; 0; 0x02; 0; 0; 0; 0; 0; 0; 0x0a]
  <> take 8 [0x20; 0x01; 0x0d; 0xb9; 0; 0; 0; 0; 0x02; 0; 0; 0; 0; 0; 0; 0x0c].
Proof.
  split; [vm_compute; reflexivity|].
  apply (udp_get_addrs_inet6_distinct (H := Examples.classes)
           (Examples.host_ifas Examples.ifas_two_subnets) false 3
           (replicate 3 Examples.blank) 3 Examples.bound_world 2
           [stamp Examples.inet6_stable_a 5001; stamp Examples.inet6_other 5001;
            Examples.blank]
           0 1 (stamp Examples.inet6_stable_a 5001) (stamp Examples.inet6_other 5001)
           {| sin6_port := 5001; sin6_flowinfo := 0;
              sin6_addr := [0x20; 0x01; 0x0d; 0xb8; 0; 0; 0; 0;
                            0x02; 0; 0; 0; 0; 0; 0; 0x0a];
              sin6_scope_id := 0 |}
           {| sin6_port := 5001; sin6_flowinfo := 0;
              sin6_addr := [0x20; 0x01; 0x0d; 0xb9; 0; 0; 0; 0;
                            0x02; 0; 0; 0; 0; 0; 0; 0x0c];
              sin6_scope_id := 0 |}).
  - vm_compute. lia.
  - vm_compute. reflexivity.
  - discriminate.
  - vm_compute. lia.
  - vm_compute. lia.
  - reflexivity.
  - reflexivity.
  - reflexivity.
  - reflexivity.
Defined.

(** An IPv4 address with port field 0 matches no record that carries the
    port of the socket. *)
Lemma has_duplicate_addr_inet_port0 (s : sockaddr_in) (acc : list addr_record_t)
    (port : Z) :
  sin_port s = 0 -> 0 < port < 65536 ->
  Forall (fun r => exists sa, is_inet sa = true /\ r = stamp sa port) acc ->
  has_duplicate_addr (SockIn s) acc (length acc) = false.
Proof.
  intros Hs Hport. induction 1 as [|r acc (sa & Hin & ->) _ IH];
    cbn [length has_duplicate_addr]; [reflexivity|].
  destruct sa as [rs|rs|f d]; [| |discriminate]; cbn -[memcmp_eq]; [|exact IH].
  rewrite IH. unfold memcmp_eq. rewrite bool_decide_eq_false_2; [reflexivity|].
  cbn. change (Z.to_nat sizeof_sockaddr_in) with 16%nat. cbn [take].
  intros Heq. injection Heq as H1 H2. rewrite Hs in H1, H2.
  change (0 / 256) with 0 in H1. change (0 mod 256) with 0 in H1, H2.
  rewrite (Z.mod_small (port / 256)) in H1
    by (split; [apply Z.div_pos; lia | apply Z.div_lt_upper_bound; lia]).
  pose proof (Z.div_mod port 256 ltac:(lia)). lia.
Qed.

Lemma gather_spec_inet_port0 (port : Z) (count : nat) (cands : list sockaddr)
    (acc : list addr_record_t) (total : Z) :
  0 < port < 65536 -> (length acc <= count)%nat ->
  Forall inet_port0 cands ->
  Forall (fun r => exists sa, is_inet sa = true /\ r = stamp sa port) acc ->
  gather_spec port count cands acc total =
  (acc ++ take (count - length acc) ((fun sa => stamp sa port) <$> cands),
   total + Z.of_nat (length cands)).
Proof.
  intros Hport. revert acc total.
  induction cands as [|sa cands IH]; intros acc total Hlen Hc Hacc;
    cbn [gather_spec fmap list_fmap length].
  - rewrite take_nil, app_nil_r. f_equal. lia.
  - inversion Hc as [|? ? (s & -> & Hs) Hc']; subst.
    rewrite (has_duplicate_addr_inet_port0 s acc port Hs Hport Hacc).
    destruct (decide (length acc <> count)) as [Hne|Heq].
    + rewrite IH; [|rewrite length_app; cbn; lia|exact Hc'|].
      2:{ apply Forall_app. split; [exact Hacc|].
          constructor; [|constructor]. exists (SockIn s). split; reflexivity. }
      rewrite length_app. cbn [length].
      replace (count - length acc)%nat with (S (count - (length acc + 1))) by lia.
      cbn [take]. rewrite <- app_assoc. cbn [app]. f_equal. lia.
    + rewrite IH by assumption.
      replace (count - length acc)%nat with 0%nat by lia. cbn [take].
      f_equal. lia.
Qed.

(** X15.  When every eligible candidate is an IPv4 address with port field
    0, as interface lists report them, and the socket has a port, nothing
    is taken for a duplicate, whatever the capacity and in either setting
    of [JUICE_ENABLE_ADDRS_LOCALHOST]: the call returns the number of
    candidates, added to the number of synthetic loopback records it has
    written (none without the switch), and after these it writes the
    candidates, equal ones included, in order, as far as the capacity
    goes. *)
Theorem udp_get_addrs_inet_not_deduplicated `{AddrClass} (os : os_env)
    (localhost : bool) (sock : Z) (recs : list addr_record_t) (count : nat)
    (w : world) (ifas : list ifaddrs) :
  (count <= length recs)%nat ->
  0 < (udp_get_port sock w).1 < 65536 ->
  env_getifaddrs os = Some ifas ->
  let port := (udp_get_port sock w).1 in
  let cands := candidates (scan_temp_inet6 ifas) ifas in
  let loc := localhost_spec localhost port count in
  Forall inet_port0 cands ->
  exists recs',
    (udp_get_addrs os localhost sock recs count w).1
      = Some (Z.of_nat (length loc + length cands), recs') /\
    emitted (Z.of_nat (length loc + length cands)) count recs'
      = loc ++ take (count - length loc) ((fun sa => stamp sa port) <$> cands).
Proof.
  intros Hroom Hport Hifas port cands loc Hc.
  rewrite udp_get_addrs_refines by exact Hroom. cbv zeta. fold port.
  destruct (Z.eqb_spec port 0) as [E|_]; [lia|].
  rewrite Hifas. fold cands. fold loc.
  assert (Hloc : (length loc <= count)%nat).
  { unfold loc, localhost_spec. destruct localhost; [|cbn; lia].
    rewrite length_take. lia. }
  assert (Hstamped :
    Forall (fun r => exists sa, is_inet sa = true /\ r = stamp sa port) loc).
  { unfold loc, localhost_spec. destruct localhost; [|constructor].
    apply Forall_take. repeat constructor.
    - exists (SockIn6 {| sin6_port := 0; sin6_flowinfo := 0;
                         sin6_addr := <[15%nat := 0x01]> (replicate 16 0);
                         sin6_scope_id := 0 |}).
      split; reflexivity.
    - exists (SockIn {| sin_port := 0; sin_addr := [127; 0; 0; 1];
                        sin_zero := replicate 8 0 |}).
      split; reflexivity. }
  rewrite gather_spec_inet_port0 by assumption.
  cbn [fst snd].
  eexists. split; [f_equal; f_equal; lia|].
  unfold emitted. rewrite Nat2Z.id.
  set (l := (fun sa => stamp sa port) <$> cands).
  assert (Hl : length l = length cands) by (unfold l; apply length_fmap).
  replace (Nat.min (length loc + length cands) count)
    with (length (loc ++ take (count - length loc) l))
    by (rewrite length_app, length_take; lia).
  apply overwrite_take.
Qed.

Lemma udp_get_addrs_inet_not_deduplicated_witness :
  let port := (udp_get_port 3 Examples.bound_world).1 in
  let cands := candidates (H := Examples.classes)
                 (scan_temp_inet6 (H := Examples.classes) Examples.ifas_same_inet)
                 Examples.ifas_same_inet in
  let loc := localhost_spec true port 4 in
  (loc = [localhost_inet6 5001; localhost_inet 5001] /\
   cands = [Examples.inet 192 168 1 5; Examples.inet 192 168 1 5]) /\
  exists recs',
    (udp_get_addrs (H := Examples.classes) (Examples.host_ifas Examples.ifas_same_inet)
       true 3 (replicate 4 Examples.blank) 4 Examples.bound_world).1
      = Some (Z.of_nat (length loc + length cands), recs') /\
    emitted (Z.of_nat (length loc + length cands)) 4 recs'
      = loc ++ take (4 - length loc) ((fun sa => stamp sa port) <$> cands).
Proof.
  split; [split; reflexivity|].
  apply (udp_get_addrs_inet_not_deduplicated (H := Examples.classes)
           (Examples.host_ifas Examples.ifas_same_inet) true 3
           (replicate 4 Examples.blank) 4 Examples.bound_world
           Examples.ifas_same_inet).
  - vm_compute. lia.
  - vm_compute. split; reflexivity.
  - reflexivity.
  - repeat constructor; eexists; split; reflexivity.
Defined.

(* ===================================================================== *)
(** * Further properties: the other builds of [udp_get_addrs]             *)
(* ===================================================================== *)

Lemma extends_refl (count : nat) (P : addr_record_t -> Prop) (st : gather) :
  (current st <= count)%nat -> extends count P st st.
Proof.
  intros Hc. exists []. cbn [length app].
  rewrite Nat.add_0_r, take_drop. repeat split; auto; lia.
Qed.

Lemma extends_trans (count : nat) (P : addr_record_t -> Prop) (st0 st1 st2 : gather) :
  (count <= length (records st0))%nat ->
  extends count P st0 st1 -> extends count P st1 st2 -> extends count P st0 st2.
Proof.
  intros Hroom (n1 & P1 & C1 & B1 & R1 & L1 & T1 & M1)
               (n2 & P2 & C2 & B2 & R2 & L2 & T2 & M2).
  exists (n1 ++ n2). rewrite length_app.
  split; [apply Forall_app; auto|]. split; [lia|]. split; [exact B2|].
  split; [|split; [congruence|split; [lia|auto]]].
  assert (H0 : length (take (current st0) (records st0) ++ n1) = current st1).
  { rewrite length_app, length_take. lia. }
  rewrite R2, R1.
  rewrite (app_assoc (take (current st0) (records st0)) n1).
  rewrite take_app_length' by (symmetry; exact H0).
  rewrite drop_app_ge by lia. rewrite H0, drop_drop.
  replace (current st1 + (current st2 - current st1))%nat with (current st2) by lia.
  rewrite <- !app_assoc. reflexivity.
Qed.

Lemma emit_extends (count : nat) (P : addr_record_t -> Prop) (r : addr_record_t)
    (st : gather) :
  (current st <= count)%nat -> (count <= length (records st))%nat -> P r ->
  exists st', emit count r st = Some st' /\ extends count P st st'.
Proof.
  intros Hc Hroom Hr. unfold emit, store.
  destruct (decide (current st <> count)) as [Hne|Heq].
  - destruct (decide (current st < length (records st))%nat); [|lia].
    cbn. eexists. split; [reflexivity|].
    exists [r]. cbn [current ret records length].
    split; [constructor; [exact Hr|constructor]|].
    split; [lia|]. split; [lia|].
    split; [|split; [apply length_insert|split; lia]].
    rewrite insert_take_drop by lia.
    replace (current st + 1)%nat with (S (current st)) by lia. reflexivity.
  - eexists. split; [reflexivity|].
    exists []. cbn [current ret records length app].
    rewrite Nat.add_0_r, take_drop. repeat split; auto; lia.
Qed.

Lemma add_localhost_extends (count : nat) (P : addr_record_t -> Prop)
    (r : addr_record_t) (st : gather) :
  (current st <= count)%nat -> (count <= length (records st))%nat -> P r ->
  (Z.of_nat (current st) = ret st) ->
  exists st', add_localhost count r st = Some st' /\ extends count P st st' /\
              Z.of_nat (current st') = ret st'.
Proof.
  intros Hc Hroom Hr Heq. unfold add_localhost.
  destruct (decide (current st <> count)) as [Hne|Hfull].
  - destruct (emit_extends count P r st Hc Hroom Hr) as (st' & E & Hext).
    exists st'. split; [exact E|]. split; [exact Hext|].
    unfold emit, store in E.
    destruct (decide (current st <> count)); [|contradiction].
    destruct (decide (current st < length (records st))%nat); [|lia].
    cbn in E. injection E as <-. cbn. lia.
  - exists st. split; [reflexivity|]. split; [apply extends_refl; exact Hc|exact Heq].
Qed.

(** The block of synthetic loopback records. *)
Lemma localhost_block_extends (localhost : bool) (port : Z) (count : nat)
    (recs : list addr_record_t) (P : addr_record_t -> Prop) :
  (count <= length recs)%nat ->
  (localhost = true -> P (localhost_inet6 port) /\ P (localhost_inet port)) ->
  exists st1,
    localhost_block localhost port count recs = Some st1 /\
    extends count P {| current := 0; ret := 0; records := recs |} st1.
Proof.
  intros Hroom HP. unfold localhost_block.
  destruct localhost.
  - destruct (HP eq_refl) as [P6 P4].
    destruct (add_localhost_extends count P (localhost_inet6 port)
                {| current := 0; ret := 0; records := recs |})
      as (st & E & Hext & Heq); cbn; try lia; auto.
    rewrite E. cbn [mbind option_bind].
    pose proof Hext as (n1 & _ & _ & B1 & _ & L1 & _).
    cbn [records] in L1.
    destruct (add_localhost_extends count P (localhost_inet port) st)
      as (st' & E' & Hext' & _); try lia; auto.
    exists st'. split; [exact E'|].
    eapply extends_trans; [exact Hroom|exact Hext|exact Hext'].
  - eexists. split; [reflexivity|]. apply extends_refl. cbn. lia.
Qed.

(** What [extends] from the empty start says about the buffer returned. *)
Lemma extends_start (count : nat) (P : addr_record_t -> Prop)
    (recs : list addr_record_t) (st : gather) :
  (count <= length recs)%nat ->
  extends count P {| current := 0; ret := 0; records := recs |} st ->
  length (records st) = length recs /\
  (forall i, (Nat.min (Z.to_nat (ret st)) count <= i)%nat ->
     records st !! i = recs !! i) /\
  0 <= ret st /\
  Forall P (emitted (ret st) count (records st)).
Proof.
  intros Hroom (new & HP & C & B & R & L & T & M).
  cbn [current ret records] in *. rewrite take_0 in R. cbn [app] in R.
  specialize (M ltac:(lia)).
  split; [exact L|]. split; [|split; [lia|]].
  - intros i Hi. rewrite R, lookup_app_r by lia. rewrite lookup_drop.
    f_equal. lia.
  - unfold emitted.
    replace (Nat.min (Z.to_nat (ret st)) count) with (length new) by lia.
    rewrite R, take_app_length. exact HP.
Qed.

Section OtherBuilds.
Context `{AddrClass}.

Lemma win_loop_extends (P : addr_record_t -> Prop) (port : Z) (ht : bool)
    (count : nat) (list : list (sockaddr * Z)) (st : gather) :
  (current st <= count)%nat -> (count <= length (records st))%nat ->
  (forall sa len, (sa, len) ∈ list -> win_eligible ht sa = true ->
     P (win_record sa len port)) ->
  exists st', win_loop port ht count list st = Some st' /\ extends count P st st'.
Proof.
  revert st. induction list as [|[sa len] list IH]; intros st Hc Hroom HP;
    cbn [win_loop].
  - exists st. split; [reflexivity|apply extends_refl; exact Hc].
  - assert (Hstep : exists st1,
              (if win_eligible ht sa then
                 if negb (has_duplicate_addr sa (records st) (current st))
                 then emit count (win_record sa len port) st else Some st
               else Some st) = Some st1 /\ extends count P st st1).
    { destruct (win_eligible ht sa) eqn:El;
        [|exists st; split; [reflexivity|apply extends_refl; exact Hc]].
      destruct (has_duplicate_addr sa (records st) (current st)); cbn [negb];
        [exists st; split; [reflexivity|apply extends_refl; exact Hc]|].
      apply emit_extends; auto. apply HP; [left|exact El]. }
    destruct Hstep as (st1 & E1 & X1). rewrite E1. cbn [mbind option_bind].
    pose proof X1 as (_ & _ & _ & B1 & _ & L1 & _).
    destruct (IH st1) as (st' & E' & X'); [exact B1|lia| |].
    { intros sa' len' Hin. apply HP. right. exact Hin. }
    exists st'. split; [exact E'|].
    eapply extends_trans; [exact Hroom|exact X1|exact X'].
Qed.

Lemma ifconf_loop_extends (P : addr_record_t -> Prop) (port : Z)
    (count : nat) (ifrs : list sockaddr) (st : gather) :
  (current st <= count)%nat -> (count <= length (records st))%nat ->
  (forall sa, sa ∈ ifrs -> sa_family sa = AF_INET -> addr_is_local sa = false ->
     P (ifreq_record sa port)) ->
  exists st', ifconf_loop port count ifrs st = Some st' /\ extends count P st st'.
Proof.
  revert st. induction ifrs as [|sa ifrs IH]; intros st Hc Hroom HP;
    cbn [ifconf_loop].
  - exists st. split; [reflexivity|apply extends_refl; exact Hc].
  - assert (Hstep : exists st1,
              (if (sa_family sa =? AF_INET) && negb (addr_is_local sa) then
                 if negb (has_duplicate_addr sa (records st) (current st))
                 then emit count (ifreq_record sa port) st else Some st
               else Some st) = Some st1 /\ extends count P st st1).
    { destruct ((sa_family sa =? AF_INET) && negb (addr_is_local sa)) eqn:El;
        [|exists st; split; [reflexivity|apply extends_refl; exact Hc]].
      destruct (has_duplicate_addr sa (records st) (current st)); cbn [negb];
        [exists st; split; [reflexivity|apply extends_refl; exact Hc]|].
      apply andb_true_iff in El as [Hf Hl].
      apply Z.eqb_eq in Hf. apply negb_true_iff in Hl.
      apply emit_extends; auto. apply HP; [left|exact Hf|exact Hl]. }
    destruct Hstep as (st1 & E1 & X1). rewrite E1. cbn [mbind option_bind].
    pose proof X1 as (_ & _ & _ & B1 & _ & L1 & _).
    destruct (IH st1) as (st' & E' & X'); [exact B1|lia| |].
    { intros sa' Hin. apply HP. right. exact Hin. }
    exists st'. split; [exact E'|].
    eapply extends_trans; [exact Hroom|exact X1|exact X'].
Qed.

Lemma gai_loop_extends (P : addr_record_t -> Prop) (ht : bool)
    (count : nat) (ai_list : list addrinfo) (st : gather) :
  (current st <= count)%nat -> (count <= length (records st))%nat ->
  (forall ai, ai ∈ ai_list -> gai_eligible ht (ai_addr ai) = true ->
     P (gai_record ai)) ->
  exists st', gai_loop ht count ai_list st = Some st' /\ extends count P st st'.
Proof.
  revert st. induction ai_list as [|ai ai_list IH]; intros st Hc Hroom HP;
    cbn [gai_loop].
  - exists st. split; [reflexivity|apply extends_refl; exact Hc].
  - assert (Hstep : exists st1,
              (if gai_eligible ht (ai_addr ai) then
                 if negb (has_duplicate_addr (ai_addr ai) (records st) (current st))
                 then emit count (gai_record ai) st else Some st
               else Some st) = Some st1 /\ extends count P st st1).
    { destruct (gai_eligible ht (ai_addr ai)) eqn:El;
        [|exists st; split; [reflexivity|apply extends_refl; exact Hc]].
      destruct (has_duplicate_addr (ai_addr ai) (records st) (current st));
        cbn [negb];
        [exists st; split; [reflexivity|apply extends_refl; exact Hc]|].
      apply emit_extends; auto. apply HP; [left|exact El]. }
    destruct Hstep as (st1 & E1 & X1). rewrite E1. cbn [mbind option_bind].
    pose proof X1 as (_ & _ & _ & B1 & _ & L1 & _).
    destruct (IH st1) as (st' & E' & X'); [exact B1|lia| |].
    { intros ai' Hin. apply HP. right. exact Hin. }
    exists st'. split; [exact E'|].
    eapply extends_trans; [exact Hroom|exact X1|exact X'].
Qed.

Lemma win_scan_temp_inet6_true (addrs : list (sockaddr * Z)) :
  win_scan_temp_inet6 addrs = true <->
  exists sa len, (sa, len) ∈ addrs /\ addr_is_temp_inet6 sa = true.
Proof.
  induction addrs as [|[sa len] addrs IH]; cbn [win_scan_temp_inet6].
  - split; [discriminate|intros (? & ? & Hin & _); inversion Hin].
  - destruct (addr_is_temp_inet6 sa) eqn:E.
    + split; [|reflexivity]. intros _. exists sa, len. split; [left|exact E].
    + rewrite IH. split.
      * intros (sa' & len' & Hin & Ht). exists sa', len'. split; [right|]; assumption.
      * intros (sa' & len' & Hin & Ht).
        apply elem_of_cons in Hin as [[= -> ->]|Hin]; [congruence|].
        exists sa', len'. split; assumption.
Qed.

Lemma gai_scan_temp_inet6_true (ai_list : list addrinfo) :
  gai_scan_temp_inet6 ai_list = true <->
  exists ai, ai ∈ ai_list /\ addr_is_temp_inet6 (ai_addr ai) = true.
Proof.
  induction ai_list as [|a l IH]; cbn [gai_scan_temp_inet6].
  - split; [discriminate|intros (? & Hin & _); inversion Hin].
  - destruct (addr_is_temp_inet6 (ai_addr a)) eqn:E.
    + split; [|reflexivity]. intros _. exists a. split; [left|exact E].
    + rewrite IH. split.
      * intros (a' & Hin & Ht). exists a'. split; [right|]; assumption.
      * intros (a' & Hin & Ht).
        apply elem_of_cons in Hin as [->|Hin]; [congruence|].
        exists a'. split; assumption.
Qed.

(** The [_WIN32] body on a buffer with room, once the port is known and
    the address list obtained. *)
Lemma udp_get_addrs_win32_run (P : addr_record_t -> Prop)
    (addrs : list (sockaddr * Z)) (localhost : bool) (sock : Z)
    (recs : list addr_record_t) (count : nat) (w : world) :
  (count <= length recs)%nat ->
  (udp_get_port sock w).1 <> 0 ->
  (localhost = true -> P (localhost_inet6 (udp_get_port sock w).1)
                       /\ P (localhost_inet (udp_get_port sock w).1)) ->
  (forall sa len, (sa, len) ∈ addrs ->
     win_eligible (win_scan_temp_inet6 addrs) sa = true ->
     P (win_record sa len (udp_get_port sock w).1)) ->
  exists st,
    (udp_get_addrs_win32 (Some addrs) localhost sock recs count w).1
      = Some (ret st, records st) /\
    extends count P {| current := 0; ret := 0; records := recs |} st.
Proof.
  intros Hroom Hport Hloc HP. apply Z.eqb_neq in Hport.
  unfold udp_get_addrs_win32, Os.seq.
  destruct (udp_get_port sock w) as [port w1]. cbn [fst snd] in *.
  rewrite Hport.
  destruct (localhost_block_extends localhost port count recs P Hroom Hloc)
    as (st1 & E1 & X1).
  rewrite E1. pose proof X1 as (_ & _ & _ & B1 & _ & L1 & _).
  cbn [records] in L1.
  destruct (win_loop_extends P port (win_scan_temp_inet6 addrs) count addrs st1)
    as (st & E & X); [exact B1|lia|exact HP|].
  rewrite E. exists st. split; [reflexivity|].
  eapply extends_trans; [exact Hroom|exact X1|exact X].
Qed.

(** X16.  The [_WIN32] body of [udp_get_addrs], on a buffer with room for
    [count] records and in either setting of
    [JUICE_ENABLE_ADDRS_LOCALHOST]: no store falls outside the buffer, the
    slots from [count] on keep their content, a total of 0 or more is
    returned with only the first min(total, count) slots written, and -1
    is returned exactly when the port of the socket cannot be had or the
    address list query fails.  The state of the system is not changed. *)
Theorem udp_get_addrs_win32_bounded (wsa : option (list (sockaddr * Z)))
    (localhost : bool) (sock : Z) (recs : list addr_record_t) (count : nat)
    (w : world) :
  (count <= length recs)%nat ->
  (udp_get_addrs_win32 wsa localhost sock recs count w).2 = w /\
  exists rv recs',
    (udp_get_addrs_win32 wsa localhost sock recs count w).1 = Some (rv, recs') /\
    length recs' = length recs /\
    (forall i, (count <= i)%nat -> recs' !! i = recs !! i) /\
    (rv = -1 <-> (udp_get_port sock w).1 = 0 \/ wsa = None) /\
    (0 <= rv \/ rv = -1) /\
    (0 <= rv ->
     forall i, (Nat.min (Z.to_nat rv) count <= i)%nat -> recs' !! i = recs !! i).
Proof.
  intros Hroom. split.
  { unfold udp_get_addrs_win32, Os.seq, udp_get_port, getsockname, pure. cbn.
    destruct (bound w !! sock) as [sa|]; cbn; [|reflexivity].
    destruct (addr_get_port sa =? 0); [reflexivity|].
    destruct (localhost_block _ _ _ _); [|reflexivity].
    destruct wsa; reflexivity. }
  destruct (Z.eqb_spec (udp_get_port sock w).1 0) as [E|E].
  { exists (-1), recs. unfold udp_get_addrs_win32, Os.seq.
    destruct (udp_get_port sock w) as [port w1]. cbn [fst snd] in *.
    subst port. cbn. repeat split; auto; lia. }
  destruct wsa as [addrs|].
  - destruct (udp_get_addrs_win32_run (fun _ => True) addrs localhost sock recs
                count w Hroom E) as (st & Hrun & X); auto.
    destruct (extends_start count _ recs st Hroom X) as (L & U & R0 & _).
    exists (ret st), (records st). split; [exact Hrun|]. split; [exact L|].
    split; [intros i Hi; apply U; lia|].
    split; [split; [lia|intros [?|?]; [contradiction|discriminate]]|].
    split; [left; exact R0|]. intros _. exact U.
  - destruct (localhost_block_extends localhost (udp_get_port sock w).1 count recs
                (fun _ => True) Hroom) as (st1 & E1 & X1); auto.
    destruct (extends_start count _ recs st1 Hroom X1) as (L & U & R0 & _).
    exists (-1), (records st1).
    unfold udp_get_addrs_win32, Os.seq.
    destruct (udp_get_port sock w) as [port w1]. cbn [fst snd] in *.
    apply Z.eqb_neq in E. rewrite E, E1. cbn.
    split; [reflexivity|]. split; [exact L|].
    split; [intros i Hi; apply U; lia|].
    split; [split; auto|]. split; [right; reflexivity|lia].
Qed.

(** X17.  In the [_WIN32] body without synthetic loopback records, every
    record written comes from an entry of the address list that is IPv4 or
    IPv6 and not local, and, when any entry of the list is a temporary
    IPv6 address, from no IPv6 entry that is not temporary; it is that
    address, unmapped if IPv4-mapped, with the port of the socket. *)
Theorem udp_get_addrs_win32_emitted (addrs : list (sockaddr * Z)) (sock : Z)
    (recs : list addr_record_t) (count : nat) (w : world)
    (rv : Z) (recs' : list addr_record_t) :
  (count <= length recs)%nat ->
  (udp_get_addrs_win32 (Some addrs) false sock recs count w).1 = Some (rv, recs') ->
  forall r, r ∈ emitted rv count recs' ->
    exists sa len,
      (sa, len) ∈ addrs /\
      (sa_family sa = AF_INET \/ sa_family sa = AF_INET6) /\
      addr_is_local sa = false /\
      ((exists sa' len', (sa', len') ∈ addrs /\ addr_is_temp_inet6 sa' = true) ->
       sa_family sa = AF_INET6 -> addr_is_temp_inet6 sa = true) /\
      r = win_record sa len (udp_get_port sock w).1.
Proof.
  intros Hroom Hrun r Hr.
  destruct (Z.eqb_spec (udp_get_port sock w).1 0) as [E|E].
  { unfold udp_get_addrs_win32, Os.seq in Hrun.
    destruct (udp_get_port sock w) as [port w1]. cbn [fst snd] in *.
    subst port. cbn in Hrun. injection Hrun as <- <-. inversion Hr. }
  set (P := fun r : addr_record_t =>
              exists sa len,
                (sa, len) ∈ addrs /\
                (sa_family sa = AF_INET \/ sa_family sa = AF_INET6) /\
                addr_is_local sa = false /\
                ((exists sa' len', (sa', len') ∈ addrs /\
                    addr_is_temp_inet6 sa' = true) ->
                 sa_family sa = AF_INET6 -> addr_is_temp_inet6 sa = true) /\
                r = win_record sa len (udp_get_port sock w).1).
  destruct (udp_get_addrs_win32_run P addrs false sock recs count w Hroom E)
    as (st & Hrun' & X).
  - discriminate.
  - intros sa len Hin Hel. exists sa, len. unfold win_eligible in Hel.
    apply andb_true_iff in Hel as [Hel Hpriv].
    apply andb_true_iff in Hel as [Hfam Hloc].
    apply negb_true_iff in Hloc, Hpriv.
    split; [exact Hin|]. split.
    { apply orb_true_iff in Hfam as [Hf|Hf]; apply Z.eqb_eq in Hf; auto. }
    split; [exact Hloc|]. split; [|reflexivity].
    intros Htemp H6. apply win_scan_temp_inet6_true in Htemp.
    rewrite Htemp, H6 in Hpriv. cbn in Hpriv.
    destruct (addr_is_temp_inet6 sa); [reflexivity|discriminate].
  - rewrite Hrun in Hrun'. injection Hrun' as -> ->.
    destruct (extends_start count P recs st Hroom X) as (_ & _ & _ & HP).
    rewrite Forall_forall in HP. exact (HP r Hr).
Qed.

Lemma world_eta_addrinfo (w : world) :
  (freeaddrinfo (set_addrinfo_live w (S (addrinfo_live w)))).2 = w.
Proof. destruct w; reflexivity. Qed.

(** The [NO_IFADDRS] body on a buffer with room, once the port is known
    and the interface configuration obtained. *)
Lemma udp_get_addrs_noifaddrs_run (P : addr_record_t -> Prop)
    (fb : fallback_env) (ifrs : list sockaddr) (localhost : bool) (sock : Z)
    (recs : list addr_record_t) (count : nat) (w : world) :
  (count <= length recs)%nat ->
  (udp_get_port sock w).1 <> 0 ->
  env_ifconf fb = Some ifrs ->
  (localhost = true -> P (localhost_inet6 (udp_get_port sock w).1)
                       /\ P (localhost_inet (udp_get_port sock w).1)) ->
  (forall sa, sa ∈ ifrs -> sa_family sa = AF_INET -> addr_is_local sa = false ->
     P (ifreq_record sa (udp_get_port sock w).1)) ->
  (forall ai_list ai,
     env_getaddrinfo_host fb (fallback_hostname fb)
       (pretty (udp_get_port sock w).1) = Some ai_list ->
     ai ∈ ai_list ->
     gai_eligible (gai_scan_temp_inet6 ai_list) (ai_addr ai) = true ->
     P (gai_record ai)) ->
  exists st,
    (udp_get_addrs_noifaddrs fb localhost sock recs count w).1
      = Some (ret st, records st) /\
    extends count P {| current := 0; ret := 0; records := recs |} st.
Proof.
  intros Hroom Hport Hifc Hloc HP4 HP6. apply Z.eqb_neq in Hport.
  unfold udp_get_addrs_noifaddrs, Os.seq, fallback_hostname in *.
  destruct (udp_get_port sock w) as [port w1]. cbn [fst snd] in *.
  rewrite Hport, Hifc.
  destruct (localhost_block_extends localhost port count recs P Hroom Hloc)
    as (st1 & E1 & X1).
  rewrite E1. pose proof X1 as (_ & _ & _ & B1 & _ & L1 & _).
  cbn [records] in L1.
  destruct (ifconf_loop_extends P port count ifrs st1)
    as (st2 & E2 & X2); [exact B1|lia|exact HP4|].
  rewrite E2. pose proof X2 as (_ & _ & _ & B2 & _ & L2 & _).
  assert (X12 : extends count P {| current := 0; ret := 0; records := recs |} st2)
    by (eapply extends_trans; [exact Hroom|exact X1|exact X2]).
  destruct (env_getaddrinfo_host fb _ (pretty port)) as [ai_list|] eqn:Eg.
  - destruct (gai_loop_extends P (gai_scan_temp_inet6 ai_list) count ai_list st2)
      as (st & E & X); [exact B2|lia| |].
    { intros ai Hin Hel. exact (HP6 ai_list ai eq_refl Hin Hel). }
    cbn [fst]. rewrite E. exists st. split; [reflexivity|].
    eapply extends_trans; [exact Hroom|exact X12|exact X].
  - exists st2. split; [reflexivity|exact X12].
Qed.

(** X18.  The [NO_IFADDRS] body of [udp_get_addrs], on a buffer with room
    for [count] records and in either setting of
    [JUICE_ENABLE_ADDRS_LOCALHOST]: no store falls outside the buffer, the
    slots from [count] on keep their content, a total of 0 or more is
    returned with only the first min(total, count) slots written, and -1
    is returned exactly when the port of the socket cannot be had or the
    interface configuration query fails; a failure to resolve the host
    name is no error.  The state of the system is as before on return: the
    resolved list has been released. *)
Theorem udp_get_addrs_noifaddrs_bounded (fb : fallback_env)
    (localhost : bool) (sock : Z) (recs : list addr_record_t) (count : nat)
    (w : world) :
  (count <= length recs)%nat ->
  (udp_get_addrs_noifaddrs fb localhost sock recs count w).2 = w /\
  exists rv recs',
    (udp_get_addrs_noifaddrs fb localhost sock recs count w).1 = Some (rv, recs') /\
    length recs' = length recs /\
    (forall i, (count <= i)%nat -> recs' !! i = recs !! i) /\
    (rv = -1 <-> (udp_get_port sock w).1 = 0 \/ env_ifconf fb = None) /\
    (0 <= rv \/ rv = -1) /\
    (0 <= rv ->
     forall i, (Nat.min (Z.to_nat rv) count <= i)%nat -> recs' !! i = recs !! i).
Proof.
  intros Hroom. split.
  { unfold udp_get_addrs_noifaddrs, Os.seq, udp_get_port, getsockname, pure. cbn.
    destruct (bound w !! sock) as [sa|]; cbn; [|reflexivity].
    destruct (addr_get_port sa =? 0); [reflexivity|].
    destruct (localhost_block _ _ _ _); [|reflexivity].
    destruct (env_ifconf fb); [|reflexivity].
    destruct (ifconf_loop _ _ _ _); [|reflexivity].
    destruct (env_getaddrinfo_host fb _ _); [|reflexivity].
    cbn [snd]. apply world_eta_addrinfo. }
  destruct (Z.eqb_spec (udp_get_port sock w).1 0) as [E|E].
  { exists (-1), recs. unfold udp_get_addrs_noifaddrs, Os.seq.
    destruct (udp_get_port sock w) as [port w1]. cbn [fst snd] in *.
    subst port. cbn. repeat split; auto; lia. }
  destruct (env_ifconf fb) as [ifrs|] eqn:Hifc.
  - destruct (udp_get_addrs_noifaddrs_run (fun _ => True) fb ifrs localhost sock
                recs count w Hroom E Hifc) as (st & Hrun & X); auto.
    destruct (extends_start count _ recs st Hroom X) as (L & U & R0 & _).
    exists (ret st), (records st). split; [exact Hrun|]. split; [exact L|].
    split; [intros i Hi; apply U; lia|].
    split; [split; [lia|intros [?|?]; [contradiction|discriminate]]|].
    split; [left; exact R0|]. intros _. exact U.
  - destruct (localhost_block_extends localhost (udp_get_port sock w).1 count recs
                (fun _ => True) Hroom) as (st1 & E1 & X1); auto.
    destruct (extends_start count _ recs st1 Hroom X1) as (L & U & R0 & _).
    exists (-1), (records st1).
    unfold udp_get_addrs_noifaddrs, Os.seq.
    destruct (udp_get_port sock w) as [port w1]. cbn [fst snd] in *.
    apply Z.eqb_neq in E. rewrite E, E1, Hifc. cbn.
    split; [reflexivity|]. split; [exact L|].
    split; [intros i Hi; apply U; lia|].
    split; [split; auto|]. split; [right; reflexivity|lia].
Qed.

(** X19.  In the [NO_IFADDRS] body without synthetic loopback records,
    every record written is either an address of the interface
    configuration that is IPv4 and not local, with the port of the socket
    and the length of an IPv4 address, or the address of an entry that
    [getaddrinfo] returned for the host name and the port, not local and,
    when any returned entry is a temporary IPv6 address, itself
    temporary, copied with its length as it is. *)
Theorem udp_get_addrs_noifaddrs_emitted (fb : fallback_env) (ifrs : list sockaddr)
    (sock : Z) (recs : list addr_record_t) (count : nat) (w : world)
    (rv : Z) (recs' : list addr_record_t) :
  (count <= length recs)%nat ->
  env_ifconf fb = Some ifrs ->
  (udp_get_addrs_noifaddrs fb false sock recs count w).1 = Some (rv, recs') ->
  forall r, r ∈ emitted rv count recs' ->
    (exists sa, sa ∈ ifrs /\ sa_family sa = AF_INET /\ addr_is_local sa = false /\
                r = ifreq_record sa (udp_get_port sock w).1)
    \/
    (exists ai_list ai,
       env_getaddrinfo_host fb (fallback_hostname fb)
         (pretty (udp_get_port sock w).1) = Some ai_list /\
       ai ∈ ai_list /\ addr_is_local (ai_addr ai) = false /\
       ((exists ai', ai' ∈ ai_list /\ addr_is_temp_inet6 (ai_addr ai') = true) ->
        addr_is_temp_inet6 (ai_addr ai) = true) /\
       r = gai_record ai).
Proof.
  intros Hroom Hifc Hrun r Hr.
  destruct (Z.eqb_spec (udp_get_port sock w).1 0) as [E|E].
  { unfold udp_get_addrs_noifaddrs, Os.seq in Hrun.
    destruct (udp_get_port sock w) as [port w1]. cbn [fst snd] in *.
    subst port. cbn in Hrun. injection Hrun as <- <-. inversion Hr. }
  set (P := fun r : addr_record_t =>
    (exists sa, sa ∈ ifrs /\ sa_family sa = AF_INET /\ addr_is_local sa = false /\
                r = ifreq_record sa (udp_get_port sock w).1)
    \/
    (exists ai_list ai,
       env_getaddrinfo_host fb (fallback_hostname fb)
         (pretty (udp_get_port sock w).1) = Some ai_list /\
       ai ∈ ai_list /\ addr_is_local (ai_addr ai) = false /\
       ((exists ai', ai' ∈ ai_list /\ addr_is_temp_inet6 (ai_addr ai') = true) ->
        addr_is_temp_inet6 (ai_addr ai) = true) /\
       r = gai_record ai)).
  destruct (udp_get_addrs_noifaddrs_run P fb ifrs false sock recs count w
              Hroom E Hifc) as (st & Hrun' & X).
  - discriminate.
  - intros sa Hin Hf Hl. left. exists sa. auto.
  - intros ai_list ai Hg Hin Hel. right. exists ai_list, ai.
    unfold gai_eligible in Hel. apply andb_true_iff in Hel as [Hloc Hpriv].
    apply negb_true_iff in Hloc, Hpriv.
    repeat split; auto.
    intros Htemp. apply gai_scan_temp_inet6_true in Htemp.
    rewrite Htemp in Hpriv. cbn in Hpriv.
    destruct (addr_is_temp_inet6 (ai_addr ai)); [reflexivity|discriminate].
  - rewrite Hrun in Hrun'. injection Hrun' as -> ->.
    destruct (extends_start count P recs st Hroom X) as (_ & _ & _ & HP).
    rewrite Forall_forall in HP. exact (HP r Hr).
Qed.

End OtherBuilds.

Lemma udp_get_addrs_win32_bounded_witness :
  let run := udp_get_addrs_win32 (H := Examples.classes) (Some Examples.wsa_addrs)
               true 3 (replicate 4 Examples.blank) 3 Examples.bound_world in
  run.2 = Examples.bound_world /\
  exists rv recs',
    run.1 = Some (rv, recs') /\
    length recs' = length (replicate 4 Examples.blank) /\
    (forall i, (3 <= i)%nat -> recs' !! i = replicate 4 Examples.blank !! i) /\
    (rv = -1 <-> (udp_get_port 3 Examples.bound_world).1 = 0
                 \/ Some Examples.wsa_addrs = None) /\
    (0 <= rv \/ rv = -1) /\
    (0 <= rv ->
     forall i, (Nat.min (Z.to_nat rv) 3 <= i)%nat ->
       recs' !! i = replicate 4 Examples.blank !! i).
Proof.
  apply (udp_get_addrs_win32_bounded (H := Examples.classes)
           (Some Examples.wsa_addrs) true 3 (replicate 4 Examples.blank) 3
           Examples.bound_world).
  vm_compute. lia.
Defined.

Lemma udp_get_addrs_win32_emitted_witness :
  (udp_get_addrs_win32 (H := Examples.classes) (Some Examples.wsa_addrs) false 3
     (replicate 4 Examples.blank) 4 Examples.bound_world).1
    = Some (3, [stamp (Examples.inet 192 168 1 5) 5001;
                stamp Examples.inet6_temp 5001;
                {| addr := addr_set_port (Examples.inet 10 0 0 7) 5001;
                   len := sizeof_sockaddr_in |};
                Examples.blank]) /\
  forall r,
    r ∈ emitted 3 4 [stamp (Examples.inet 192 168 1 5) 5001;
                     stamp Examples.inet6_temp 5001;
                     {| addr := addr_set_port (Examples.inet 10 0 0 7) 5001;
                        len := sizeof_sockaddr_in |};
                     Examples.blank] ->
    exists sa len,
      (sa, len) ∈ Examples.wsa_addrs /\
      (sa_family sa = AF_INET \/ sa_family sa = AF_INET6) /\
      addr_is_local (AddrClass := Examples.classes) sa = false /\
      ((exists sa' len', (sa', len') ∈ Examples.wsa_addrs /\
          addr_is_temp_inet6 (AddrClass := Examples.classes) sa' = true) ->
       sa_family sa = AF_INET6 ->
       addr_is_temp_inet6 (AddrClass := Examples.classes) sa = true) /\
      r = win_record sa len (udp_get_port 3 Examples.bound_world).1.
Proof.
  split; [vm_compute; reflexivity|].
  apply (udp_get_addrs_win32_emitted (H := Examples.classes) Examples.wsa_addrs 3
           (replicate 4 Examples.blank) 4 Examples.bound_world 3).
  - vm_compute. lia.
  - vm_compute. reflexivity.
Defined.

Lemma udp_get_addrs_noifaddrs_bounded_witness :
  let run := udp_get_addrs_noifaddrs (H := Examples.classes) Examples.fallback_host
               false 3 (replicate 3 Examples.blank) 1 Examples.bound_world in
  run.2 = Examples.bound_world /\
  exists rv recs',
    run.1 = Some (rv, recs') /\
    length recs' = length (replicate 3 Examples.blank) /\
    (forall i, (1 <= i)%nat -> recs' !! i = replicate 3 Examples.blank !! i) /\
    (rv = -1 <-> (udp_get_port 3 Examples.bound_world).1 = 0
                 \/ env_ifconf Examples.fallback_host = None) /\
    (0 <= rv \/ rv = -1) /\
    (0 <= rv ->
     forall i, (Nat.min (Z.to_nat rv) 1 <= i)%nat ->
       recs' !! i = replicate 3 Examples.blank !! i).
Proof.
  apply (udp_get_addrs_noifaddrs_bounded (H := Examples.classes)
           Examples.fallback_host false 3 (replicate 3 Examples.blank) 1
           Examples.bound_world).
  vm_compute. lia.
Defined.

Lemma udp_get_addrs_noifaddrs_emitted_witness :
  (udp_get_addrs_noifaddrs (H := Examples.classes) Examples.fallback_host false 3
     (replicate 3 Examples.blank) 3 Examples.bound_world).1
    = Some (2, [stamp (Examples.inet 192 168 1 5) 5001;
                stamp Examples.inet6_temp 5001; Examples.blank]) /\
  forall r,
    r ∈ emitted 2 3 [stamp (Examples.inet 192 168 1 5) 5001;
                     stamp Examples.inet6_temp 5001; Examples.blank] ->
    (exists sa, sa ∈ [Examples.inet 127 0 0 1; Examples.inet 192 168 1 5] /\
                sa_family sa = AF_INET /\
                addr_is_local (AddrClass := Examples.classes) sa = false /\
                r = ifreq_record sa (udp_get_port 3 Examples.bound_world).1)
    \/
    (exists ai_list ai,
       env_getaddrinfo_host Examples.fallback_host
         (fallback_hostname Examples.fallback_host)
         (pretty (udp_get_port 3 Examples.bound_world).1) = Some ai_list /\
       ai ∈ ai_list /\
       addr_is_local (AddrClass := Examples.classes) (ai_addr ai) = false /\
       ((exists ai', ai' ∈ ai_list /\
           addr_is_temp_inet6 (AddrClass := Examples.classes) (ai_addr ai') = true) ->
        addr_is_temp_inet6 (AddrClass := Examples.classes) (ai_addr ai) = true) /\
       r = gai_record ai).
Proof.
  split; [vm_compute; reflexivity|].
  apply (udp_get_addrs_noifaddrs_emitted (H := Examples.classes)
           Examples.fallback_host
           [Examples.inet 127 0 0 1; Examples.inet 192 168 1 5] 3
           (replicate 3 Examples.blank) 3 Examples.bound_world 2).
  - vm_compute. lia.
  - reflexivity.
  - vm_compute. reflexivity.
Defined.

(* ===================================================================== *)
(** * Further properties: logging                                         *)
(* ===================================================================== *)

(** X20.  Once the level filter is set to [l], with any handler or none, a
    message of a level below [l] has no effect at all: nothing is written
    to the standard output, the handler is not called, and the call cannot
    fault, whatever the file name, the message and the level. *)
Theorem juice_log_write_filtered (env : log_env) (level l : Z) (file : string)
    (line : Z) (formatted : string) (cb : option nat) (st : log_state) :
  level < l ->
  let st' := juice_set_log_handler cb (juice_set_log_level l st) in
  juice_log_write env level file line formatted st' = Some st' /\
  stdout st' = stdout st /\ cb_calls st' = cb_calls st.
Proof.
  intros Hlt. cbv zeta. unfold juice_log_write. cbn [log_level juice_set_log_handler
    juice_set_log_level stdout cb_calls].
  destruct (Z.ltb_spec level l); [|lia]. repeat split.
Qed.

Lemma juice_log_write_filtered_witness :
  let st' := juice_set_log_handler (Some 1%nat)
               (juice_set_log_level JUICE_LOG_LEVEL_ERROR initial_log_state) in
  juice_log_write Examples.log_env_plain JUICE_LOG_LEVEL_WARN "src/udp.c" 148
    "getsockname failed" st' = Some st' /\
  stdout st' = stdout initial_log_state /\ cb_calls st' = cb_calls initial_log_state.
Proof.
  apply (juice_log_write_filtered Examples.log_env_plain JUICE_LOG_LEVEL_WARN
           JUICE_LOG_LEVEL_ERROR "src/udp.c" 148 "getsockname failed"
           (Some 1%nat) initial_log_state).
  vm_compute. reflexivity.
Defined.

Lemma strrchr_spec (s : string) (c : ascii) :
  match strrchr s c with
  | Some r => exists pre r', s = pre +:+ r /\ r = String c r' /\ string_free c r'
  | None => string_free c s
  end.
Proof.
  induction s as [|a s IH]; cbn [strrchr string_free]; [exact I|].
  destruct (strrchr s c) as [r|].
  - destruct IH as (pre & r' & -> & -> & Hfree).
    exists (String a pre), r'. repeat split. exact Hfree.
  - destruct (bool_decide_reflect (a = c)) as [->|Hne].
    + exists "", s. repeat split. exact IH.
    + split; assumption.
Qed.

(** X21.  The file name [juice_log_write] prints is the part of the path
    after its last '/': the path is some directory part followed by it, it
    contains no '/', and a path without '/' is printed whole. *)
Theorem log_filename_basename (file : string) :
  (exists dir, file = dir +:+ log_filename file) /\
  string_free "/" (log_filename file) /\
  (string_free "/" file -> log_filename file = file).
Proof.
  unfold log_filename. pose proof (strrchr_spec file "/") as Hs.
  destruct (strrchr file "/") as [r|].
  - destruct Hs as (pre & r' & -> & -> & Hfree). cbn [skip_char].
    split; [|split; [exact Hfree|]].
    + exists (pre +:+ "/"). rewrite append_assoc. reflexivity.
    + intros Hall. exfalso. clear Hfree. induction pre as [|a pre IH].
      * cbn in Hall. destruct Hall as [Hne _]. congruence.
      * rewrite append_cons in Hall. cbn in Hall. tauto.
  - split; [exists ""; reflexivity|]. split; [exact Hs|reflexivity].
Qed.

Lemma substring_all (n : nat) (s : string) :
  (String.length s <= n)%nat -> String.substring 0 n s = s.
Proof.
  revert n. induction s as [|c s IH]; intros [|n] Hle; cbn in *;
    try reflexivity; try lia.
  f_equal. apply IH. lia.
Qed.

Lemma substring_length_min (n : nat) (s : string) :
  String.length (String.substring 0 n s) = Nat.min n (String.length s).
Proof.
  revert s. induction n as [|n IH]; intros [|c s]; cbn; try reflexivity.
  rewrite IH. reflexivity.
Qed.

(** X22.  With a callback installed, a message at or above the filter
    whose prefix "file:line: " fits the buffer is handed to the callback,
    once, together with its level, and nothing goes to the standard
    output.  The text handed over is the prefix followed by the message,
    whole when they fit in 4095 bytes together and cut to 4095 bytes in all
    otherwise. *)
Theorem juice_log_write_callback (env : log_env) (level : Z) (file : string)
    (line : Z) (formatted : string) (st : log_state) (cb : nat) :
  log_level st <= level ->
  log_cb st = Some cb ->
  Z.of_nat (String.length (log_prefix file line)) < BUFFER_SIZE ->
  exists message st',
    juice_log_write env level file line formatted st = Some st' /\
    cb_calls st' = cb_calls st ++ [(cb, level, message)] /\
    stdout st' = stdout st /\
    message = log_prefix file line
              +:+ String.substring 0
                    (Z.to_nat (BUFFER_SIZE - 1)
                     - String.length (log_prefix file line)) formatted /\
    Z.of_nat (String.length message)
      = Z.min (Z.of_nat (String.length (log_prefix file line)
                         + String.length formatted))
              (BUFFER_SIZE - 1) /\
    (Z.of_nat (String.length (log_prefix file line) + String.length formatted)
       < BUFFER_SIZE ->
     message = log_prefix file line +:+ formatted).
Proof.
  intros Hlevel Hcb Hfit.
  set (prefix := log_prefix file line) in *.
  assert (Hjlw : juice_log_write env level file line formatted st
    = Some (call_cb cb level
              (prefix +:+ String.substring 0
                 (Z.to_nat (BUFFER_SIZE - 1) - String.length prefix) formatted)
              st)).
  { unfold juice_log_write.
    destruct (Z.ltb_spec level (log_level st)) as [Hlt|_]; [lia|].
    rewrite Hcb. fold (log_filename file). fold (log_prefix file line).
    fold prefix. cbv zeta.
    destruct (Z.geb_spec (Z.of_nat (String.length prefix)) 0) as [_|Hbad]; [|lia].
    destruct (Z.leb_spec (Z.of_nat (String.length prefix)) BUFFER_SIZE)
      as [_|Hbad]; [|lia].
    unfold c_trunc.
    destruct (Z.leb_spec BUFFER_SIZE 0) as [Hbad|_];
      [unfold BUFFER_SIZE in Hbad; lia|].
    destruct (Z.leb_spec (BUFFER_SIZE - Z.of_nat (String.length prefix)) 0)
      as [Hbad|_]; [lia|].
    rewrite (substring_all (Z.to_nat (BUFFER_SIZE - 1)) prefix) by lia.
    replace (Z.to_nat (BUFFER_SIZE - Z.of_nat (String.length prefix) - 1))
      with (Z.to_nat (BUFFER_SIZE - 1) - String.length prefix)%nat by lia.
    reflexivity. }
  eexists _, _. split; [exact Hjlw|].
  split; [reflexivity|]. split; [reflexivity|]. split; [reflexivity|].
  split.
  - rewrite append_length, substring_length_min. unfold BUFFER_SIZE in *. lia.
  - intros Hall. rewrite substring_all; [reflexivity|].
    unfold BUFFER_SIZE in *. lia.
Qed.

Lemma juice_log_write_callback_witness :
  let st := juice_set_log_handler (Some 1%nat) initial_log_state in
  exists message st',
    juice_log_write Examples.log_env_plain JUICE_LOG_LEVEL_WARN "src/udp.c" 148
      "getsockname failed" st = Some st' /\
    cb_calls st' = cb_calls st ++ [(1%nat, JUICE_LOG_LEVEL_WARN, message)] /\
    stdout st' = stdout st /\
    message = "udp.c:148: getsockname failed".
Proof.
  cbv zeta.
  destruct (juice_log_write_callback Examples.log_env_plain JUICE_LOG_LEVEL_WARN
              "src/udp.c" 148 "getsockname failed"
              (juice_set_log_handler (Some 1%nat) initial_log_state) 1%nat)
    as (message & st' & Hw & Hcalls & Hout & Hmsg & _ & _).
  - vm_compute. discriminate.
  - reflexivity.
  - vm_compute. reflexivity.
  - exists message, st'. repeat split; assumption.
Defined.

(** X23.  [juice_log_write] stays inside its tables and its buffer except
    in two cases, both for a message that passes the filter: without a
    callback, a level outside VERBOSE..FATAL indexes the level tables out
    of bounds; with a callback, a prefix "file:line: " longer than the
    4096-byte buffer makes the message be formatted past its end.  A
    callback accepts any level, and a prefix of exactly 4096 bytes is
    harmless. *)
Theorem juice_log_write_faults (env : log_env) (level : Z) (file : string)
    (line : Z) (formatted : string) (st : log_state) :
  juice_log_write env level file line formatted st = None <->
  log_level st <= level /\
  match log_cb st with
  | None => level < JUICE_LOG_LEVEL_VERBOSE \/ JUICE_LOG_LEVEL_FATAL < level
  | Some _ => BUFFER_SIZE < Z.of_nat (String.length (log_prefix file line))
  end.
Proof.
  unfold juice_log_write. fold (log_filename file). fold (log_prefix file line).
  destruct (Z.ltb_spec level (log_level st)) as [Hlt|Hge].
  { split; [discriminate|]. intros [? _]. lia. }
  destruct (log_cb st) as [cb|]; cbv zeta.
  - destruct (Z.geb_spec (Z.of_nat (String.length (log_prefix file line))) 0)
      as [_|Hbad]; [|lia].
    destruct (Z.leb_spec (Z.of_nat (String.length (log_prefix file line)))
                BUFFER_SIZE) as [Hle|Hgt].
    + split; [discriminate|]. intros [_ ?]. lia.
    + split; [intros _; split; [lia|assumption]|reflexivity].
  - destruct (strftime_HMS 16 (env_localtime env)) as [buffer n].
    unfold JUICE_LOG_LEVEL_VERBOSE, JUICE_LOG_LEVEL_FATAL.
    destruct (Z.leb_spec 0 level) as [H0|H0];
      destruct (Z.ltb_spec level 6) as [H6|H6]; cbn [andb];
      try (split; [intros _; split; lia|reflexivity]).
    split; [|intros [_ ?]; lia].
    assert (Hn : (Z.to_nat level < 6)%nat) by lia.
    destruct (Z.to_nat level) as [|[|[|[|[|[|k]]]]]]; try lia;
      destruct (env_isatty env); discriminate.
Qed.
